(** * Software effort prediction: the COCOMO baseline and its benchmark

    A shallow embedding of [src/Train/Project.py].  The script loads a table
    of historical projects, builds a feature matrix, imputes and standardises
    it, splits it, trains three regressors and compares them with the
    closed-form COCOMO I formula.

    Conventions of the embedding.

    - Numbers held in the table (Python and NumPy floats) are elements of an
      abstract type [F] with the operations of the interpreter collected in
      the class [Scalar]; what is proved about the estimator and the
      preprocessing holds for every interpretation of these operations, the
      IEEE one included.  Missing values are NaNs, recognised by [fisnan].
    - The regression metrics are computed by NumPy in IEEE 754 binary64;
      they are embedded over [spec_float] with the operations of [SpecFloat]
      at precision 53, rounding, underflow and overflow included.
      scikit-learn rejects NaN and infinite inputs to its metrics with a
      ValueError.
    - Library calls (pandas, scikit-learn, NumPy) are embedded by their
      documented behaviour under the defaults the script uses.
    - Exceptions are values of [result]; code that can raise is written in
      the error monad.
    - Column buffers live in a heap, so that views and copies of a
      DataFrame are told apart. *)

From Stdlib Require Import QArith Reals Lra Lia Psatz Permutation.
From Stdlib Require Import Floats.SpecFloat.
From stdpp Require Import gmap strings list.

Open Scope string_scope.
Open Scope list_scope.

(** ** Exceptions *)

Inductive exn :=
  | KeyError (k : string)
  | KeyError_label (l : nat)
  | IndexError
  | TypeError
  | ValueError
  | OverflowError.

Inductive result (A : Type) :=
  | Ok (a : A)
  | Raise (e : exn).
Arguments Ok {A} a.
Arguments Raise {A} e.

Definition bind {A B} (m : result A) (k : A -> result B) : result B :=
  match m with
  | Ok a => k a
  | Raise e => Raise e
  end.

Declare Scope err_scope.
Delimit Scope err_scope with err.
Notation "'do' x <- m ; k" := (bind m (fun x => k))
  (at level 10, x name, m at level 100, k at level 200) : err_scope.
Notation "'do' ' p <- m ; k" := (bind m (fun p => k))
  (at level 10, p pattern, m at level 100, k at level 200) : err_scope.
Open Scope err_scope.

(** ** Scalars *)

(** The arithmetic the script relies on.  [lit q] is the float denoted by the
    decimal literal [q]; [feqb] and [fleb] are [==] and [<=]; [fpow] is the
    power that [**] computes, C's [pow], the interpreter raising where it
    overflows (see [power]); [flog1p] is [np.log1p]; [fstr] is [str]; [feps]
    is the machine epsilon. *)
Class Scalar (F : Type) := {
  lit : Q -> F;
  fnan : F;
  feps : F;
  fisnan : F -> bool;
  fisinf : F -> bool;
  fstr : F -> string;
  of_nat : nat -> F;
  fadd : F -> F -> F;
  fsub : F -> F -> F;
  fmul : F -> F -> F;
  fdiv : F -> F -> F;
  fpow : F -> F -> F;
  fsqrt : F -> F;
  flog1p : F -> F;
  feqb : F -> F -> bool;
  fleb : F -> F -> bool;
}.

(** A cell of a row: a number (ints, floats, booleans and NaN) or a string. *)
Inductive cell (F : Type) :=
  | Num (x : F)
  | Str (s : string).
Arguments Num {F} x.
Arguments Str {F} s.

(** 2.1: the fifteen cost drivers. *)
Definition cost_drivers : list string :=
  ["rely"; "data"; "cplx"; "time"; "stor"; "virt"; "turn";
   "acap"; "aexp"; "pcap"; "vexp"; "lexp"; "modp"; "tool"; "sced"].

(** ** 5. The parametric estimator *)

Section Estimator.
Context {F : Type} `{Scalar F}.

(** A row is a pandas Series: labels to cells. *)
Local Abbreviation row := (gmap string (cell F)).

(** [c == 1] *)
Definition eq_one (c : cell F) : bool :=
  match c with
  | Num x => feqb x (lit 1)
  | Str _ => false
  end.

(** [c == s] for a string literal [s] *)
Definition eq_str (c : cell F) (s : string) : bool :=
  match c with
  | Num _ => false
  | Str t => String.eqb t s
  end.

(** [k in row and row[k] == 1] *)
Definition flag (r : row) (k : string) : bool :=
  match r !! k with
  | Some c => eq_one c
  | None => false
  end.

(** Lines 113-128: the coefficient pair. *)
Definition coefficients (r : row) : Q * Q :=
  if flag r "mode_organic" then (2.4, 1.05)%Q
  else if flag r "mode_semidetached" then (3.0, 1.12)%Q
  else if flag r "mode_embedded" then (3.6, 1.20)%Q
  else match r !! "dev_mode" with
       | Some c =>
           if eq_str c "organic" then (2.4, 1.05)%Q
           else if eq_str c "semidetached" then (3.0, 1.12)%Q
           else (3.6, 1.20)%Q
       | None => (3.6, 1.20)%Q
       end.

(** [em *= c]: a float times a string is a TypeError. *)
Definition times (em : F) (c : cell F) : result F :=
  match c with
  | Num x => Ok (fmul em x)
  | Str _ => Raise TypeError
  end.

(** Lines 131-134: the loop over the drivers, [em] being the accumulator. *)
Fixpoint effort_multiplier (r : row) (drivers : list string) (em : F)
  : result F :=
  match drivers with
  | [] => Ok em
  | d :: ds =>
      match r !! d with
      | Some c => do em' <- times em c; effort_multiplier r ds em'
      | None => effort_multiplier r ds em
      end
  end.

(** [row[k]] *)
Definition getitem (r : row) (k : string) : result (cell F) :=
  match r !! k with
  | Some c => Ok c
  | None => Raise (KeyError k)
  end.

(** [kloc ** b] on a Python number, for an exponent that is positive and
    no integer, as the three exponents of the estimator are.  The result is
    that of C's [pow], here [fpow], with one exception: when the base is
    finite and the power is not, the interpreter raises OverflowError
    (1e300 ** 1.05).  A NaN or an infinite base goes through.  A negative
    base gives a complex number: [F] stands for the numbers of the
    interpreter, [fpow] for that number too, and the interpreter raises
    OverflowError by the same rule. *)
Definition power (kloc : cell F) (b : F) : result F :=
  match kloc with
  | Num x =>
      let ix := fpow x b in
      if negb (fisinf x) && fisinf ix then Raise OverflowError else Ok ix
  | Str _ => Raise TypeError
  end.

(** Lines 111-140. *)
Definition calculate_cocomo_effort (r : row) : result F :=
  let '(a, b) := coefficients r in
  do em <- effort_multiplier r cost_drivers (lit 1.0);
  do kloc <- getitem r "loc";
  do p <- power kloc (lit b);
  let effort := fmul (fmul (lit a) p) em in
  Ok (flog1p effort).

(** *** Vocabulary of the statements *)

(** The drivers that label the row, in the order of [cost_drivers]. *)
Definition present_drivers (r : row) : list string :=
  filter (fun d => is_Some (r !! d)) cost_drivers.

Definition rating (r : row) (d : string) : option F :=
  match r !! d with
  | Some (Num x) => Some x
  | _ => None
  end.

(** Left-to-right product, seeded with [1.0]. *)
Definition product (xs : list F) : F := fold_left fmul xs (lit 1.0).

(** No present driver holds a string. *)
Definition numeric_drivers (r : row) : bool :=
  forallb (fun d => match r !! d with
                    | Some (Str _) => false
                    | _ => true
                    end) cost_drivers.

(** What a row holds under a label: the number 1 (as [==] has it), or
    anything else: no entry, a string, or a number other than 1. *)
Definition holds_one (c : option (cell F)) : Prop :=
  exists x, c = Some (Num x) /\ feqb x (lit 1) = true.

Definition holds_no_one (c : option (cell F)) : Prop :=
  forall x, c = Some (Num x) -> feqb x (lit 1) = false.

(** The power [x ** b] leaves the range of the floats: the base is finite
    and the power is not. *)
Definition overflows (x b : F) : bool :=
  negb (fisinf x) && fisinf (fpow x b).

(** The labels the estimator reads. *)
Definition relevant_labels : list string :=
  ["mode_organic"; "mode_semidetached"; "mode_embedded"; "dev_mode"; "loc"]
  ++ cost_drivers.

End Estimator.

(** ** Binary64 *)

(** NumPy and scikit-learn compute in IEEE 754 binary64 under
    round-to-nearest-even: the operations of [SpecFloat] at precision 53 and
    [emax] 1024. *)
Definition b64_of_nat (n : nat) : spec_float :=
  binary_normalize 53 1024 (Z.of_nat n) 0 false.

Definition b64_add (x y : spec_float) : spec_float := SFadd 53 1024 x y.

Definition b64_sub (x y : spec_float) : spec_float := SFsub 53 1024 x y.

Definition b64_mul (x y : spec_float) : spec_float := SFmul 53 1024 x y.

Definition b64_div (x y : spec_float) : spec_float := SFdiv 53 1024 x y.

Definition b64_sqrt (x : spec_float) : spec_float := SFsqrt 53 1024 x.

Definition b64_one : spec_float := S754_finite false 4503599627370496 (-52).

(** [np.isfinite] *)
Definition b64_isfinite (x : spec_float) : bool :=
  match x with
  | S754_zero _ | S754_finite _ _ _ => true
  | S754_infinity _ | S754_nan => false
  end.

(** The sign of a float, NaN having none. *)
Definition of_sign (s : bool) (x : spec_float) : Prop :=
  match x with
  | S754_zero s' | S754_infinity s' | S754_finite s' _ _ => s' = s
  | S754_nan => False
  end.

(** ** 6. The evaluator *)

(** *** Sums, as NumPy reduces a vector of doubles *)

(** The eight accumulators of the unrolled loop. *)
Definition lanes : Type :=
  spec_float * spec_float * spec_float * spec_float *
  spec_float * spec_float * spec_float * spec_float.

(** The unrolled loop of [pairwise_sum]: as long as eight elements are left
    they are added to the eight accumulators; then the accumulators are
    added up, and what is left of the vector is added to the result one
    element after the other. *)
Fixpoint sum_unrolled (r : lanes) (xs : list spec_float) : spec_float :=
  let '(r0, r1, r2, r3, r4, r5, r6, r7) := r in
  match xs with
  | x0 :: x1 :: x2 :: x3 :: x4 :: x5 :: x6 :: x7 :: xs' =>
      sum_unrolled (b64_add r0 x0, b64_add r1 x1, b64_add r2 x2,
                    b64_add r3 x3, b64_add r4 x4, b64_add r5 x5,
                    b64_add r6 x6, b64_add r7 x7) xs'
  | _ =>
      fold_left b64_add xs
        (b64_add (b64_add (b64_add r0 r1) (b64_add r2 r3))
                 (b64_add (b64_add r4 r5) (b64_add r6 r7)))
  end.

(** [DOUBLE_pairwise_sum]: below eight elements a plain loop that starts from
    -0.0; up to 128 elements the unrolled loop, its accumulators set to the
    first eight elements; above, the sum of the sums of two parts, the first
    of [n / 2] elements rounded down to a multiple of eight.  [fuel] bounds
    the depth of the recursion: the length of the vector is enough. *)
Fixpoint pairwise_sum (fuel : nat) (xs : list spec_float) {struct fuel}
  : spec_float :=
  match xs with
  | x0 :: x1 :: x2 :: x3 :: x4 :: x5 :: x6 :: x7 :: xs' =>
      match fuel with
      | S fuel' =>
          let n := List.length xs in
          if Nat.leb n 128
          then sum_unrolled (x0, x1, x2, x3, x4, x5, x6, x7) xs'
          else
            let n2 := n / 2 - (n / 2) mod 8 in
            b64_add (pairwise_sum fuel' (take n2 xs))
                    (pairwise_sum fuel' (drop n2 xs))
      | 0 => sum_unrolled (x0, x1, x2, x3, x4, x5, x6, x7) xs'
      end
  | _ => fold_left b64_add xs (S754_zero true)
  end.

(** [np.add.reduce] on a vector of doubles, which is what [sum] and [mean]
    call: the accumulator starts at -0.0 and takes up the pairwise sum; the
    sum of nothing is 0.0. *)
Definition np_sum (xs : list spec_float) : spec_float :=
  match xs with
  | [] => S754_zero false
  | _ => b64_add (S754_zero true) (pairwise_sum (List.length xs) xs)
  end.

(** [np.average(xs)], without weights: the sum divided by the count. *)
Definition average (xs : list spec_float) : spec_float :=
  b64_div (np_sum xs) (b64_of_nat (List.length xs)).

(** [x ** 2], which NumPy computes as [x * x]. *)
Definition square (x : spec_float) : spec_float := b64_mul x x.

(** [x != 0], true of NaN. *)
Definition nonzero (x : spec_float) : bool :=
  negb (SFeqb x (S754_zero false)).

(** *** The metrics *)

(** [_check_reg_targets]: the two vectors have one length
    ([check_consistent_length]) and, by [check_array], at least one sample
    and neither NaN nor infinity among their entries. *)
Definition check_reg_targets (y_true y_pred : list spec_float)
  : result unit :=
  if negb (Nat.eqb (List.length y_true) (List.length y_pred))
  then Raise ValueError
  else if Nat.eqb (List.length y_true) 0 then Raise ValueError
  else if negb (forallb b64_isfinite y_true) then Raise ValueError
  else if negb (forallb b64_isfinite y_pred) then Raise ValueError
  else Ok tt.

(** [sklearn.metrics.mean_absolute_error]: the mean of the absolute errors
    of the single output; the uniform average over the outputs that follows
    is the mean of one number, that number. *)
Definition mean_absolute_error (y_true y_pred : list spec_float)
  : result spec_float :=
  do _ <- check_reg_targets y_true y_pred;
  Ok (average (map SFabs (zip_with b64_sub y_pred y_true))).

(** [sklearn.metrics.mean_squared_error] *)
Definition mean_squared_error (y_true y_pred : list spec_float)
  : result spec_float :=
  do _ <- check_reg_targets y_true y_pred;
  Ok (average (map square (zip_with b64_sub y_true y_pred))).

(** [sklearn.metrics.r2_score] with its defaults: NaN (and a warning) below
    two samples; otherwise 1 - numerator / denominator when neither sum is
    zero, and, the score being forced finite, 0.0 when only the denominator
    is zero and 1.0 when the numerator is. *)
Definition r2_score (y_true y_pred : list spec_float) : result spec_float :=
  do _ <- check_reg_targets y_true y_pred;
  if Nat.ltb (List.length y_pred) 2 then Ok S754_nan
  else
    let numerator := np_sum (map square (zip_with b64_sub y_true y_pred)) in
    let denominator :=
      np_sum (map (fun y => square (b64_sub y (average y_true))) y_true) in
    if nonzero numerator && nonzero denominator
    then Ok (b64_sub b64_one (b64_div numerator denominator))
    else if nonzero numerator then Ok (S754_zero false)
    else Ok b64_one.

(** The dict an evaluation returns. *)
Record scores := { MAE : spec_float; RMSE : spec_float; R2 : spec_float }.

(** Lines 158-168; the four [print]s leave no trace in the result. *)
Definition evaluate_model (y_true y_pred : list spec_float)
    (model_name : string) : result scores :=
  do m <- mean_absolute_error y_true y_pred;
  do mse <- mean_squared_error y_true y_pred;
  do r <- r2_score y_true y_pred;
  Ok {| MAE := m; RMSE := b64_sqrt mse; R2 := r |}.

(** *** Vocabulary of the statements *)

(** [0 <= x], which fails of NaN. *)
Definition b64_nonneg (x : spec_float) : bool := SFleb (S754_zero false) x.

(** [x == 0] *)
Definition b64_is_zero (x : spec_float) : bool := SFeqb x (S754_zero false).

(** The sum of squared residuals and the total sum of squares, as computed. *)
Definition ss_res (y_true y_pred : list spec_float) : spec_float :=
  np_sum (map square (zip_with b64_sub y_true y_pred)).

Definition ss_tot (y_true : list spec_float) : spec_float :=
  np_sum (map (fun y => square (b64_sub y (average y_true))) y_true).

(** ** 8. The reporter *)

(** A score as the reporter reads it: a real number, or NaN. *)
Inductive ereal :=
  | Real (x : R)
  | Nan.

(** An entry of [results].  Line 239 only compares the ['rmse'] entries,
    which are ordered as the real numbers they stand for. *)
Record metrics := { mae : R; rmse : R; r2 : ereal }.

(** A Python dict, in insertion order. *)
Definition dict (V : Type) := list (string * V).

Fixpoint dict_get {V} (d : dict V) (k : string) : result V :=
  match d with
  | [] => Raise (KeyError k)
  | (k', v) :: d' => if String.eqb k' k then Ok v else dict_get d' k
  end.

(** [d[k] = v] *)
Fixpoint dict_set {V} (d : dict V) (k : string) (v : V) : dict V :=
  match d with
  | [] => [(k, v)]
  | (k', v') :: d' =>
      if String.eqb k' k then (k', v) :: d' else (k', v') :: dict_set d' k v
  end.

Definition keys {V} (d : dict V) : list string := map fst d.

(** The loop of [min(iterable, key=...)]: the running best is replaced only
    by a strictly smaller key, so the first minimum wins. *)
Fixpoint min_from {A} (key : A -> R) (best : A) (best_key : R) (xs : list A)
  : A :=
  match xs with
  | [] => best
  | x :: xs' =>
      if Rlt_dec (key x) best_key then min_from key x (key x) xs'
      else min_from key best best_key xs'
  end.

Definition py_min {A} (key : A -> R) (xs : list A) : result A :=
  match xs with
  | [] => Raise ValueError
  | x :: xs' => Ok (min_from key x (key x) xs')
  end.

(** Lines 171-175: the dict of results. *)
Definition collect_results (cocomo lr dt rf : metrics) : dict metrics :=
  dict_set (dict_set (dict_set (dict_set [] "COCOMO I" cocomo)
    "Linear Regression" lr) "Decision Tree" dt) "Random Forest" rf.

(** [results[x]['rmse']]; a key of the dict is always found. *)
Definition rmse_of (results : dict metrics) (x : string) : R :=
  match dict_get results x with
  | Ok m => rmse m
  | Raise _ => 0%R
  end.

(** Line 239. *)
Definition best_model (results : dict metrics) : result string :=
  py_min (rmse_of results) (keys results).

Section Reporter.
Variables Model Scaler_state : Type.

(** What [joblib.dump] leaves in a file. *)
Inductive artifact :=
  | Pickled_model (m : option Model)
  | Pickled_scaler (s : Scaler_state).

(** The files on disk, by path. *)
Abbreviation disk := (gmap string artifact).

(** Lines 246-251. *)
Definition model_objects (lr_model dt_model rf_model : Model)
  : dict (option Model) :=
  [("COCOMO I", None); ("Linear Regression", Some lr_model);
   ("Decision Tree", Some dt_model); ("Random Forest", Some rf_model)].

(** Lines 239-260: returns the winner and the disk it leaves. *)
Definition save_best (results : dict metrics)
    (lr_model dt_model rf_model : Model) (scaler : Scaler_state) (fs : disk)
  : result (string * disk) :=
  do best <- best_model results;
  if negb (String.eqb best "COCOMO I") then
    do best_model_object <-
      dict_get (model_objects lr_model dt_model rf_model) best;
    let fs1 := <["trained_model.pkl" := Pickled_model best_model_object]> fs in
    let fs2 := <["scaler.pkl" := Pickled_scaler scaler]> fs1 in
    Ok (best, fs2)
  else Ok (best, fs).

End Reporter.

(** ** Tables in memory *)

(** The generator behind [train_test_split]: [RandomState s] is
    [RandomState(s)], [permutation g n] is [g.permutation(n)] with the
    generator it leaves. *)
Class Generator (G : Type) := {
  RandomState : Z -> G;
  permutation : G -> nat -> list nat * G;
}.

Fixpoint mapM {A B} (f : A -> result B) (l : list A) : result (list B) :=
  match l with
  | [] => Ok []
  | x :: l' => do y <- f x; do ys <- mapM f l'; Ok (y :: ys)
  end.

(** [xs[i]], out of range included. *)
Definition at_pos {A} (xs : list A) (i : nat) : result A :=
  match xs !! i with
  | Some x => Ok x
  | None => Raise IndexError
  end.

(** Sorted distinct values, as [factorize] followed by a sort yields them. *)
Fixpoint insert_level {A} (leb eqb : A -> A -> bool) (x : A) (l : list A)
  : list A :=
  match l with
  | [] => [x]
  | y :: l' =>
      if eqb x y then l
      else if leb x y then x :: l
      else y :: insert_level leb eqb x l'
  end.

Definition levels {A} (leb eqb : A -> A -> bool) (xs : list A) : list A :=
  fold_right (insert_level leb eqb) [] xs.

(** The address of a column buffer. *)
Abbreviation addr := nat.

Section Tables.
Context {F : Type} `{Scalar F} {G : Type} `{Generator G}.

(** A column buffer with its dtype: float64 or int64, object (strings, [None]
    for a missing entry), bool. *)
Inductive column :=
  | NumCol (xs : list F)
  | ObjCol (xs : list (option string))
  | BoolCol (xs : list bool).

(** A DataFrame: its index and, in order, its labelled columns, each a
    reference to a buffer.  Labels are unique, as [read_csv] makes them;
    [fr[k]] is the first column labelled [k]. *)
Record frame := { index : list nat; columns : list (string * addr) }.

Record series := { s_index : list nat; s_values : addr }.

(** The interpreter state: the buffers and NumPy's global generator. *)
Record world := { mem : list column; np_random : G }.

Definition M (A : Type) : Type := world -> result (A * world).

Definition ret {A} (a : A) : M A := fun w => Ok (a, w).

Definition mbind {A B} (m : M A) (k : A -> M B) : M B :=
  fun w =>
    match m w with
    | Ok (a, w') => k a w'
    | Raise e => Raise e
    end.

Definition lift {A} (r : result A) : M A :=
  fun w =>
    match r with
    | Ok a => Ok (a, w)
    | Raise e => Raise e
    end.

Definition alloc (c : column) : M addr :=
  fun w =>
    Ok (List.length (mem w),
        {| mem := mem w ++ [c]; np_random := np_random w |}).

Definition load (a : addr) : M column :=
  fun w =>
    match mem w !! a with
    | Some c => Ok (c, w)
    | None => Raise IndexError
    end.

Definition store (a : addr) (c : column) : M unit :=
  fun w => Ok (tt, {| mem := <[a := c]> (mem w); np_random := np_random w |}).

Definition get_mem : M (list column) := fun w => Ok (mem w, w).

End Tables.

Declare Scope st_scope.
Delimit Scope st_scope with st.
Notation "'run' x <- m ; k" := (mbind m (fun x => k))
  (at level 10, x name, m at level 100, k at level 200) : st_scope.
Notation "'run' ' p <- m ; k" := (mbind m (fun p => k))
  (at level 10, p pattern, m at level 100, k at level 200) : st_scope.
Open Scope st_scope.

Section Operations.
Context {F : Type} `{Scalar F} {G : Type} `{Generator G}.

Abbreviation column' := (@column F).
Abbreviation world' := (@world F G).
Abbreviation M' := (@M F G).

Fixpoint mapMM {A B} (f : A -> M' B) (l : list A) : M' (list B) :=
  match l with
  | [] => ret []
  | x :: l' => run y <- f x; run ys <- mapMM f l'; ret (y :: ys)
  end.

Definition col_length (c : column') : nat :=
  match c with
  | NumCol xs => List.length xs
  | ObjCol xs => List.length xs
  | BoolCol xs => List.length xs
  end.

(** [fr[k]] on the list of columns: a view, the buffer is shared. *)
Fixpoint getcol (cols : list (string * addr)) (k : string) : result addr :=
  match cols with
  | [] => Raise (KeyError k)
  | (k', a) :: cols' => if String.eqb k' k then Ok a else getcol cols' k
  end.

(** [fr[k]] as a Series. *)
Definition getseries (fr : frame) (k : string) : result series :=
  do a <- getcol (columns fr) k;
  Ok {| s_index := index fr; s_values := a |}.

(** A fresh buffer with the same content. *)
Definition copy_column (ka : string * addr) : M' (string * addr) :=
  run c <- load (snd ka);
  run a' <- alloc c;
  ret (fst ka, a').

(** [fr.copy()] *)
Definition copy (fr : frame) : M' frame :=
  run cols <- mapMM copy_column (columns fr);
  ret {| index := index fr; columns := cols |}.

(** [fr[[k1, ..., kn]]]: a new table holding copies of the named columns. *)
Definition select (fr : frame) (ks : list string) : M' frame :=
  run picked <- lift (mapM (fun k => do a <- getcol (columns fr) k; Ok (k, a)) ks);
  run cols <- mapMM copy_column picked;
  ret {| index := index fr; columns := cols |}.

(** [pd.concat([a, b], axis=1)] of two tables over one index. *)
Definition concat (a b : frame) : M' frame :=
  run cols <- mapMM copy_column (columns a ++ columns b);
  ret {| index := index a; columns := cols |}.

(** [fr[k] = c]: the column labelled [k] is bound to a new buffer, in place
    when the label exists and at the end otherwise. *)
Definition setitem (fr : frame) (k : string) (c : column') : M' frame :=
  run a <- alloc c;
  ret {| index := index fr; columns := dict_set (columns fr) k a |}.

(** ** 2.1 The feature builder *)

Definition observed (xs : list F) : list F :=
  List.filter (fun x => negb (fisnan x)) xs.

(** The strings of an object column, missing entries dropped. *)
Definition strings_of (xs : list (option string)) : list string :=
  omap (fun x => x) xs.

(** The indicator columns [get_dummies] derives from one column: one per
    level, in sorted order, labelled [prefix_level]; a missing entry matches
    no level. *)
Definition dummy_columns (prefix : string) (c : column')
  : list (string * list bool) :=
  match c with
  | ObjCol xs =>
      map (fun l => (prefix +:+ "_" +:+ l,
                     map (fun v => bool_decide (v = Some l)) xs))
          (levels String.leb String.eqb (strings_of xs))
  | NumCol xs =>
      map (fun l => (prefix +:+ "_" +:+ fstr l, map (fun v => feqb v l) xs))
          (levels fleb feqb (observed xs))
  | BoolCol xs =>
      map (fun l => (prefix +:+ "_" +:+ (if l : bool then "True" else "False"),
                     map (Bool.eqb l) xs))
          (levels implb Bool.eqb xs)
  end.

Definition alloc_dummy (kb : string * list bool) : M' (string * addr) :=
  run a <- alloc (BoolCol (snd kb));
  ret (fst kb, a).

(** Line 29: [pd.get_dummies(data, columns=[col], prefix=[prefix])]; the
    encoded column is dropped and its indicators are appended. *)
Definition get_dummies (data : frame) (col prefix : string) : M' frame :=
  run a <- lift (getcol (columns data) col);
  run c <- load a;
  run kept <- mapMM copy_column
    (List.filter (fun ka => negb (String.eqb (fst ka) col)) (columns data));
  run dummies <- mapMM alloc_dummy (dummy_columns prefix c);
  ret {| index := index data; columns := kept ++ dummies |}.

(** Lines 29-35. *)
Definition build_features (data : frame) : M' frame :=
  run data_encoded <- get_dummies data "dev_mode" "mode";
  run left <- select data ("loc" :: cost_drivers);
  run right <- select data_encoded
    ["mode_embedded"; "mode_organic"; "mode_semidetached"];
  concat left right.

(** ** 2.2 The imputer *)

Fixpoint insert_sorted (x : F) (l : list F) : list F :=
  match l with
  | [] => [x]
  | y :: l' => if fleb x y then x :: l else y :: insert_sorted x l'
  end.

Definition sort_values (xs : list F) : list F :=
  fold_right insert_sorted [] xs.

(** [Series.median()]: NaNs are skipped; NaN when nothing is left. *)
Definition median (xs : list F) : F :=
  let o := sort_values (observed xs) in
  let n := List.length o in
  if Nat.eqb n 0 then fnan
  else if Nat.odd n then nth (n / 2) o fnan
  else fdiv (fadd (nth (n / 2 - 1) o fnan) (nth (n / 2) o fnan)) (lit 2).

Definition occurrences (l : string) (xs : list string) : nat :=
  List.length (List.filter (String.eqb l) xs).

(** [Series.mode()[0]]: the most frequent string, the smallest of them on a
    tie; nothing on a column without strings. *)
Definition most_frequent (xs : list string) : option string :=
  fold_left
    (fun best l =>
       match best with
       | None => Some l
       | Some b =>
           if Nat.ltb (occurrences b xs) (occurrences l xs)
           then Some l else Some b
       end)
    (levels String.leb String.eqb xs) None.

(** Lines 45-49 on one buffer. *)
Definition impute_column (c : column') : result column' :=
  match c with
  | ObjCol xs =>
      match most_frequent (strings_of xs) with
      | Some v =>
          Ok (ObjCol (map (fun x => match x with
                                    | None => Some v
                                    | Some _ => x
                                    end) xs))
      | None => Raise (KeyError "0")
      end
  | NumCol xs =>
      let fill_value := median xs in
      Ok (NumCol (map (fun x => if fisnan x then fill_value else x) xs))
  | BoolCol xs => Ok (BoolCol xs)
  end.

(** Lines 44-49: [fillna(..., inplace=True)] writes through the view into the
    buffer of [X]. *)
Fixpoint impute (cols : list (string * addr)) : M' unit :=
  match cols with
  | [] => ret tt
  | (_, a) :: cols' =>
      run c <- load a;
      run c' <- lift (impute_column c);
      run _ <- store a c';
      impute cols'
  end.

(** ** 2.3 The scaler *)

Record scaler_state := {
  mean_ : list F;
  var_ : list F;
  scale_ : list F;
}.

Definition fsum (xs : list F) : F := fold_left fadd xs (lit 0).

(** Mean, variance and standard deviation of a feature, NaNs disregarded. *)
Definition col_mean (xs : list F) : F :=
  fdiv (fsum (observed xs)) (of_nat (List.length (observed xs))).

Definition col_var (xs : list F) : F :=
  let m := col_mean xs in
  fdiv (fsum (map (fun x => fmul (fsub x m) (fsub x m)) (observed xs)))
       (of_nat (List.length (observed xs))).

Definition col_std (xs : list F) : F := fsqrt (col_var xs).

(** [_is_constant_feature(var, mean, n_samples)] *)
Definition is_constant_feature (var mean : F) (n : nat) : bool :=
  let bound := fmul (fmul (of_nat n) mean) feps in
  fleb var (fadd (fmul (fmul (of_nat n) feps) var) (fmul bound bound)).

(** [scale_]: the standard deviation, and 1.0 for a constant feature
    ([_handle_zeros_in_scale]). *)
Definition col_scale (xs : list F) : F :=
  if is_constant_feature (col_var xs) (col_mean xs)
       (List.length (observed xs))
  then lit 1 else col_std xs.

Definition fit (features : list (list F)) : scaler_state :=
  {| mean_ := map col_mean features;
     var_ := map col_var features;
     scale_ := map col_scale features |}.

Definition transform_column (mean scale : F) (xs : list F) : list F :=
  map (fun x => fdiv (fsub x mean) scale) xs.

Definition transform (s : scaler_state) (features : list (list F))
  : list (list F) :=
  zip_with (fun ms xs => transform_column (fst ms) (snd ms) xs)
           (zip (mean_ s) (scale_ s)) features.

(** [check_array]: at least one feature and one sample, no infinity. *)
Definition check_array (features : list (list F)) : result unit :=
  match features with
  | [] => Raise ValueError
  | xs :: _ =>
      if Nat.eqb (List.length xs) 0 then Raise ValueError
      else if existsb (existsb fisinf) features then Raise ValueError
      else Ok tt
  end.

(** [StandardScaler().fit_transform(features)]: the fitted state and the
    standardised features. *)
Definition fit_transform (features : list (list F))
  : result (scaler_state * list (list F)) :=
  do _ <- check_array features;
  let s := fit features in
  Ok (s, transform s features).

Definition is_numeric (c : column') : bool :=
  match c with
  | NumCol _ => true
  | _ => false
  end.

(** [fr.select_dtypes(include=['float64', 'int64']).columns] *)
Fixpoint numeric_labels (cols : list (string * addr)) : M' (list string) :=
  match cols with
  | [] => ret []
  | (k, a) :: cols' =>
      run c <- load a;
      run ks <- numeric_labels cols';
      ret (if is_numeric c then k :: ks else ks)
  end.

(** The values of a table of float columns. *)
Definition numeric_values (a : addr) : M' (list F) :=
  run c <- load a;
  match c with
  | NumCol xs => ret xs
  | _ => lift (Raise TypeError)
  end.

(** [fr[ks] = features], one column after the other. *)
Fixpoint setitem_many (fr : frame) (ks : list string)
    (features : list (list F)) : M' frame :=
  match ks, features with
  | k :: ks', xs :: features' =>
      run fr' <- setitem fr k (NumCol xs);
      setitem_many fr' ks' features'
  | _, _ => ret fr
  end.

(** [np.log1p(y)] *)
Definition log1p_series (y : series) : M' series :=
  run c <- load (s_values y);
  match c with
  | NumCol xs =>
      run a <- alloc (NumCol (map flog1p xs));
      ret {| s_index := s_index y; s_values := a |}
  | BoolCol xs =>
      run a <- alloc (NumCol (map (fun b : bool =>
                 flog1p (lit (if b then 1 else 0))) xs));
      ret {| s_index := s_index y; s_values := a |}
  | ObjCol _ => lift (Raise TypeError)
  end.

End Operations.

(** ** 3. The splitter *)

(** The size of the test partition is computed in binary64, as
    [ceil(test_size * n_samples)]. *)

(** [math.ceil] *)
Definition b64_ceil (x : spec_float) : result Z :=
  match x with
  | S754_zero _ => Ok 0%Z
  | S754_finite s m e =>
      let z := if s then Z.neg m else Z.pos m in
      Ok (if Z.leb 0 e then z * 2 ^ e else - ((- z) / 2 ^ (- e)))%Z
  | _ => Raise ValueError
  end.

(** The literal [0.2], that is 0x1.999999999999ap-3. *)
Definition test_size_0_2 : spec_float :=
  S754_finite false 7205759403792794 (-55).

(** [_validate_shuffle_split] for a float [test_size] and no [train_size]:
    the sizes of the train and test partitions. *)
Definition validate_shuffle_split (n_samples : nat) (test_size : spec_float)
  : result (nat * nat) :=
  if SFleb test_size (S754_zero false) || SFleb b64_one test_size
  then Raise ValueError
  else
    do n_test <- b64_ceil (b64_mul test_size (b64_of_nat n_samples));
    let n_train := (Z.of_nat n_samples - n_test)%Z in
    if Z.eqb n_train 0 then Raise ValueError
    else Ok (Z.to_nat n_train, Z.to_nat n_test).

(** The position of a label in an index. *)
Fixpoint position (l : nat) (idx : list nat) : result nat :=
  match idx with
  | [] => Raise (KeyError_label l)
  | x :: idx' =>
      if Nat.eqb x l then Ok 0 else do p <- position l idx'; Ok (S p)
  end.

Section Splitter.
Context {F : Type} `{Scalar F} {G : Type} `{Generator G}.

Abbreviation column' := (@column F).
Abbreviation M' := (@M F G).

(** [c[idx]] by position. *)
Definition take_rows (idx : list nat) (c : column') : result column' :=
  match c with
  | NumCol xs => do ys <- mapM (at_pos xs) idx; Ok (NumCol ys)
  | ObjCol xs => do ys <- mapM (at_pos xs) idx; Ok (ObjCol ys)
  | BoolCol xs => do ys <- mapM (at_pos xs) idx; Ok (BoolCol ys)
  end.

Definition take_column (idx : list nat) (ka : string * addr)
  : M' (string * addr) :=
  run c <- load (snd ka);
  run c' <- lift (take_rows idx c);
  run a' <- alloc c';
  ret (fst ka, a').

(** [_safe_indexing(fr, idx)], that is [fr.iloc[idx]]. *)
Definition take_frame (fr : frame) (idx : list nat) : M' frame :=
  run labels <- lift (mapM (at_pos (index fr)) idx);
  run cols <- mapMM (take_column idx) (columns fr);
  ret {| index := labels; columns := cols |}.

Definition take_series (s : series) (idx : list nat) : M' series :=
  run labels <- lift (mapM (at_pos (s_index s)) idx);
  run c <- load (s_values s);
  run c' <- lift (take_rows idx c);
  run a' <- alloc c';
  ret {| s_index := labels; s_values := a' |}.

(** [check_random_state(random_state).permutation(n)]: an integer seeds a
    generator of its own; [None] draws from the global generator and
    advances it. *)
Definition rng_permutation (random_state : option Z) (n : nat)
  : M' (list nat) :=
  fun w =>
    match random_state with
    | Some seed => Ok (fst (permutation (RandomState seed) n), w)
    | None =>
        let '(p, g) := permutation (np_random w) n in
        Ok (p, {| mem := mem w; np_random := g |})
    end.

(** [train_test_split(X, y, test_size=..., random_state=...)] *)
Definition train_test_split (X : frame) (y : series)
    (test_size : spec_float) (random_state : option Z)
  : M' (frame * frame * series * series) :=
  let n_samples := List.length (index X) in
  run _ <- lift (if Nat.eqb (List.length (s_index y)) n_samples
                 then Ok tt else Raise ValueError);
  run '(n_train, n_test) <-
    lift (validate_shuffle_split n_samples test_size);
  run perm <- rng_permutation random_state n_samples;
  let ind_test := take n_test perm in
  let ind_train := take n_train (drop n_test perm) in
  run X_train <- take_frame X ind_train;
  run X_test <- take_frame X ind_test;
  run y_train <- take_series y ind_train;
  run y_test <- take_series y ind_test;
  ret (X_train, X_test, y_train, y_test).

(** ** 5. The baseline on the table *)

Definition cell_at (c : column') (i : nat) : result (cell F) :=
  match c with
  | NumCol xs => do x <- at_pos xs i; Ok (Num x)
  | ObjCol xs =>
      do v <- at_pos xs i;
      Ok (match v with
          | Some s => Str s
          | None => Num fnan
          end)
  | BoolCol xs =>
      do b <- at_pos xs i; Ok (Num (lit (if b : bool then 1 else 0)))
  end.

(** The row at a position, as [apply(..., axis=1)] hands it over. *)
Definition row_at (m : list column') (cols : list (string * addr)) (i : nat)
  : result (gmap string (cell F)) :=
  do cells <- mapM (fun ka => do c <- at_pos m (snd ka);
                              do v <- cell_at c i;
                              Ok (fst ka, v)) cols;
  Ok (list_to_map cells).

(** [data.apply(f, axis=1)] *)
Definition apply_rows (f : gmap string (cell F) -> result F) (data : frame)
  : M' (list F) :=
  run m <- get_mem;
  lift (mapM (fun i => do r <- row_at m (columns data) i; f r)
             (seq 0 (List.length (index data)))).

(** [data.loc[labels, k].values] *)
Definition loc_values (data : frame) (labels : list nat) (k : string)
  : M' (list F) :=
  run a <- lift (getcol (columns data) k);
  run xs <- numeric_values a;
  lift (mapM (fun l => do p <- position l (index data); at_pos xs p) labels).

(** ** Steps 2, 3 and 5 of the script *)

Record outcome := {
  out_data : frame;
  out_X : frame;
  out_X_unscaled : frame;
  out_y : series;
  out_y_log : series;
  out_scaler : @scaler_state F;
  out_X_train : frame;
  out_X_test : frame;
  out_y_train : series;
  out_y_test : series;
  out_cocomo_pred : list F;
}.

(** Lines 29-80 and 143-147.  Fitting the three regressors (lines 89-104)
    reads [X_train] and [y_train] and writes neither table; it can raise,
    and the baseline is then not reached: what is stated of this definition
    is what holds of a run that gets through. *)
Definition preprocess_and_baseline (data : frame) : M' outcome :=
  run X <- build_features data;
  run y <- lift (getseries data "actual");
  run _ <- impute (columns X);
  run numeric_features <- numeric_labels (columns X);
  run X_unscaled <- copy X;
  run selected <- select X numeric_features;
  run features <- mapMM (fun ka => numeric_values (snd ka)) (columns selected);
  run '(scaler, scaled) <- lift (fit_transform features);
  run X <- setitem_many X numeric_features scaled;
  run y_log <- log1p_series y;
  run '(X_train, X_test, y_train, y_test) <-
    train_test_split X y_log test_size_0_2 (Some 42%Z);
  run effort <- apply_rows calculate_cocomo_effort data;
  run data <- setitem data "effort_cocomo" (NumCol effort);
  let test_indices := s_index y_test in
  run cocomo_pred <- loc_values data test_indices "effort_cocomo";
  ret {| out_data := data; out_X := X; out_X_unscaled := X_unscaled;
         out_y := y; out_y_log := y_log; out_scaler := scaler;
         out_X_train := X_train; out_X_test := X_test;
         out_y_train := y_train; out_y_test := y_test;
         out_cocomo_pred := cocomo_pred |}.

(** Lines 29-80 on their own, steps 2 and 3 of the script: what is handed
    to the regressors. *)
Definition preprocess_and_split (data : frame)
  : M' (frame * frame * series * series) :=
  run X <- build_features data;
  run y <- lift (getseries data "actual");
  run _ <- impute (columns X);
  run numeric_features <- numeric_labels (columns X);
  run X_unscaled <- copy X;
  run selected <- select X numeric_features;
  run features <- mapMM (fun ka => numeric_values (snd ka)) (columns selected);
  run '(scaler, scaled) <- lift (fit_transform features);
  run X <- setitem_many X numeric_features scaled;
  run y_log <- log1p_series y;
  train_test_split X y_log test_size_0_2 (Some 42%Z).

End Splitter.

(** ** Vocabulary of the statements about tables *)

Section TableVocabulary.
Context {F : Type} `{Scalar F} {G : Type} `{Generator G}.

Abbreviation column' := (@column F).
Abbreviation world' := (@world F G).
Abbreviation M' := (@M F G).

(** Memory only grows at its end. *)
Definition extends (w w' : world') : Prop :=
  exists new, mem w' = mem w ++ new.

(** A computation that allocates and never overwrites. *)
Definition grows {A} (m : M' A) : Prop :=
  forall w a w', m w = Ok (a, w') -> extends w w'.

(** What the columns of a table hold. *)
Definition contents (m : list column') (cols : list (string * addr))
  : list (option column') :=
  map (fun ka => m !! snd ka) cols.

(** Every column refers to a buffer. *)
Definition valid (m : list column') (cols : list (string * addr)) : Prop :=
  Forall (fun ka => snd ka < List.length m) cols.

(** Every column refers to a buffer of [n] entries. *)
Definition cols_ok (n : nat) (cs : list (option column')) : bool :=
  forallb (fun oc => match oc with
                     | Some c => Nat.eqb (col_length c) n
                     | None => false
                     end) cs.

(** A table laid out in memory: as many entries per column as labels. *)
Definition table_ok (m : list column') (fr : frame) : bool :=
  cols_ok (List.length (index fr)) (contents m (columns fr)).

(** The columns refer to buffers allocated after [w]. *)
Definition fresh (w : world') (cols : list (string * addr)) : Prop :=
  Forall (fun ka => List.length (mem w) <= snd ka) cols.

(** A buffer of floats, or not. *)
Definition is_numeric_at (m : list column') (ka : string * addr) : bool :=
  match m !! snd ka with
  | Some c => is_numeric c
  | None => false
  end.

(** The float columns among the contents of a table. *)
Definition numeric_part (cs : list (option column')) : list (list F) :=
  omap (fun oc => match oc with
                  | Some (NumCol xs) => Some xs
                  | _ => None
                  end) cs.

(** The first value filed under a label. *)
Fixpoint first_match {V} (k : string) (names : list string) (vs : list V)
  : option V :=
  match names, vs with
  | n :: names', v :: vs' =>
      if String.eqb n k then Some v else first_match k names' vs'
  | _, _ => None
  end.

(** The column labelled [k] of the table holds [c]. *)
Definition holds (m : list column') (fr : frame) (k : string) (c : column')
  : Prop :=
  exists a, getcol (columns fr) k = Ok a /\ m !! a = Some c.

(** None of the labels [ks] is a label of the table. *)
Definition unlabelled (cols : list (string * addr)) (ks : list string) : bool :=
  forallb (fun k => negb (existsb (String.eqb k) (map fst cols))) ks.

(** Line 34: the three indicator columns of the feature matrix. *)
Definition indicator_labels : list string :=
  ["mode_embedded"; "mode_organic"; "mode_semidetached"].

(** A Series laid out in memory. *)
Definition series_ok (m : list column') (y : series) : bool :=
  cols_ok (List.length (s_index y)) [m !! s_values y].

(** The same memory under another state of the global generator. *)
Definition with_rng (g : G) (w : world') : world' :=
  {| mem := mem w; np_random := g |}.

(** A computation that neither reads nor advances the global generator. *)
Definition rng_free {A} (m : M' A) : Prop :=
  forall w a w' g, m w = Ok (a, w') ->
                   m (with_rng g w) = Ok (a, with_rng g w').

End TableVocabulary.

(** ** Vocabulary of the statements about errors *)

(** The first of the labels [ks] that is not among [names]. *)
Definition missing_label (names ks : list string) : option string :=
  List.find (fun k => negb (existsb (String.eqb k) names)) ks.

(** Line 34 names the indicators of these three categories. *)
Definition categories : list string := ["embedded"; "organic"; "semidetached"].

(** ** Vocabulary of the statements about sizes *)

(** What [test_size=0.2] stands for: a fifth of the rows, rounded up, goes
    to the test partition and the rest to the train partition; a table of
    less than two rows cannot be split. *)
Definition fifth_sizes (n : nat) : result (nat * nat) :=
  if Nat.leb n 1 then Raise ValueError
  else Ok (n - (n + 4) / 5, (n + 4) / 5).

Definition same_sizes (a b : result (nat * nat)) : bool :=
  match a, b with
  | Ok (x, y), Ok (x', y') => Nat.eqb x x' && Nat.eqb y y'
  | Raise ValueError, Raise ValueError => true
  | _, _ => false
  end.

(** ** Vocabulary of the statements about rows *)

Section RowVocabulary.
Context {F : Type} `{Scalar F}.

(** The buffer [a'] holds the rows of the buffer [a] at the positions
    [idx]. *)
Definition rows_of (m : list (column (F:=F))) (idx : list nat) (a a' : addr)
  : Prop :=
  exists c c', m !! a = Some c /\ take_rows idx c = Ok c' /\ m !! a' = Some c'.

End RowVocabulary.

(** ** Vocabulary of the statements about the whole run *)

Section RunVocabulary.
Context {F : Type} `{Scalar F}.

(** A feature without infinite entry, its median included: imputation
    leaves it without infinite entry. *)
Definition finite_feature (xs : list F) : bool :=
  negb (existsb fisinf (median xs :: xs)).

End RunVocabulary.

(** ** An exact interpretation *)

(** Exact rational arithmetic with one NaN: no rounding.  A result that need
    not be rational (a power, a logarithm, the root of a non-square) is kept
    as a symbolic term, and so is whatever is computed from it; an order or
    equality test on a symbolic term answers [false].  The rationals are
    finite; the one infinity is the power of rationals whose value is beyond
    the range of binary64, 2^1024 and more, where [pow] overflows.  It serves
    to run the definitions on concrete tables. *)
Inductive op1 := Sqrt | Log1p.
Inductive op2 := Add | Sub | Mul | Div | Pow.

Inductive exact :=
  | Rat (q : Q)
  | Nan_e
  | Op1 (o : op1) (a : exact)
  | Op2 (o : op2) (a b : exact).

Definition exact_isnan (x : exact) : bool :=
  match x with
  | Nan_e => true
  | _ => false
  end.

Definition exact_op2 (o : op2) (x y : exact) : exact :=
  match x, y with
  | Nan_e, _ => Nan_e
  | _, Nan_e => Nan_e
  | Rat a, Rat b =>
      match o with
      | Add => Rat (Qred (a + b))
      | Sub => Rat (Qred (a - b))
      | Mul => Rat (Qred (a * b))
      | Div => if Qeq_bool b 0 then Nan_e else Rat (Qred (a / b))
      | Pow => Op2 Pow x y
      end
  | _, _ => Op2 o x y
  end.

(** The root of a rational that is a square, else a symbolic root. *)
Definition exact_sqrt (x : exact) : exact :=
  match x with
  | Nan_e => Nan_e
  | Rat q =>
      let r := Qred q in
      let n := Z.sqrt (Qnum r) in
      let d := Z.sqrt (Zpos (Qden r)) in
      if Z.ltb (Qnum r) 0 then Nan_e
      else if Z.eqb (n * n) (Qnum r) && Z.eqb (d * d) (Zpos (Qden r))
      then Rat (Qred (Qmake n (Z.to_pos d)))
      else Op1 Sqrt x
  | _ => Op1 Sqrt x
  end.

Definition exact_log1p (x : exact) : exact :=
  match x with
  | Nan_e => Nan_e
  | _ => Op1 Log1p x
  end.

(** [a ** (p / q)] for positive [a], [p] and [q] is at least 2^1024 when
    [a ^ p] is at least [2 ^ (1024 * q)]. *)
Definition exact_isinf (x : exact) : bool :=
  match x with
  | Op2 Pow (Rat a) (Rat b) =>
      match Qnum a, Qnum b with
      | Zpos n, Zpos p =>
          Z.leb (2 ^ (1024 * Zpos (Qden b)) * Zpos (Qden a) ^ Zpos p)
                (Zpos n ^ Zpos p)
      | _, _ => false
      end
  | _ => false
  end.

Definition exact_eqb (x y : exact) : bool :=
  match x, y with
  | Rat a, Rat b => Qeq_bool a b
  | _, _ => false
  end.

Definition exact_leb (x y : exact) : bool :=
  match x, y with
  | Rat a, Rat b => Qle_bool a b
  | _, _ => false
  end.

#[export] Instance exact_scalar : Scalar exact := {|
  lit q := Rat (Qred q);
  fnan := Nan_e;
  feps := Rat 0;
  fisnan := exact_isnan;
  fisinf := exact_isinf;
  fstr x := match x with
            | Rat _ => "rational"
            | Nan_e => "nan"
            | _ => "symbolic"
            end;
  of_nat n := Rat (inject_Z (Z.of_nat n));
  fadd := exact_op2 Add;
  fsub := exact_op2 Sub;
  fmul := exact_op2 Mul;
  fdiv := exact_op2 Div;
  fpow := exact_op2 Pow;
  fsqrt := exact_sqrt;
  flog1p := exact_log1p;
  feqb := exact_eqb;
  fleb := exact_leb;
|}.

(** A generator without state that reverses the range. *)
#[export] Instance reversing : Generator unit := {|
  RandomState _ := tt;
  permutation _ n := (rev (seq 0 n), tt);
|}.

(** A row of the loaded table with a single cost driver. *)
Definition sample_row : gmap string (cell exact) :=
  {[ "loc" := Num (Rat 10); "dev_mode" := Str "organic";
     "rely" := Num (Rat 2); "actual" := Num (Rat 50) ]}.

(** A row of the feature matrix: one-hot indicators, no [dev_mode]. *)
Definition one_hot_row : gmap string (cell exact) :=
  {[ "loc" := Num (Rat 10); "mode_embedded" := Num (Rat 0);
     "mode_organic" := Num (Rat 0); "mode_semidetached" := Num (Rat 1) ]}.

(** A row whose size is 1e300. *)
Definition huge_row : gmap string (cell exact) :=
  {[ "loc" := Num (Rat (10 ^ 300)); "dev_mode" := Str "organic" ]}.

(** A table of six projects: [loc], the fifteen cost drivers (all neutral,
    one entry missing), [dev_mode] (the three categories, a foreign value and
    a missing entry) and [actual]. *)
Definition neutral : column (F:=exact) := NumCol (repeat (Rat 1) 6).

Definition sample_memory : list (column (F:=exact)) :=
  [NumCol [Rat 10; Rat 20; Rat 30; Rat 40; Rat 50; Rat 60];
   neutral;
   NumCol [Rat 1; Rat 1; Rat 1; Rat 1; Rat 1; Nan_e];
   neutral; neutral; neutral; neutral; neutral; neutral; neutral;
   neutral; neutral; neutral; neutral; neutral; neutral;
   ObjCol [Some "organic"; Some "semidetached"; Some "embedded";
           Some "other"; None; Some "organic"];
   NumCol [Rat 24; Rat 60; Rat 120; Rat 200; Rat 300; Rat 150]].

Definition sample_world : world (F:=exact) (G:=unit) :=
  {| mem := sample_memory; np_random := tt |}.

Definition sample_data : frame :=
  {| index := seq 0 6;
     columns := imap (fun i k => (k, i))
                  (("loc" :: cost_drivers) ++ ["dev_mode"; "actual"]) |}.

(** A table of a hundred rows with its target. *)
Definition hundred_world : world (F:=exact) (G:=unit) :=
  {| mem := [NumCol (repeat (Rat 1) 100); NumCol (repeat (Rat 0) 100)];
     np_random := tt |}.

Definition hundred_X : frame :=
  {| index := seq 0 100; columns := [("loc", 0)] |}.

Definition hundred_y : series := {| s_index := seq 0 100; s_values := 1 |}.

(** Doubles for the worked instances: the literals [0.1], [0.2], [1e-200]
    and [1e200], that is 0x1.999999999999ap-4, 0x1.999999999999ap-3,
    0x1.87e92154ef7acp-665 and 0x1.4e718d7d7625ap+664. *)
Definition b64_tenth : spec_float :=
  S754_finite false 7205759403792794 (-56).

Definition b64_fifth : spec_float :=
  S754_finite false 7205759403792794 (-55).

Definition b64_tiny : spec_float :=
  S754_finite false 6894565328877484 (-717).

Definition b64_huge : spec_float :=
  S754_finite false 5883593420661338 612.

(** The metrics of a candidate whose errors are both [e]. *)
Definition with_error (e : R) : metrics :=
  {| mae := e; rmse := e; r2 := Real 0 |}.

(** * Properties *)

Lemma bind_Ok_inv {A B} (m : result A) (k : A -> result B) b :
  bind m k = Ok b -> exists a, m = Ok a /\ k a = Ok b.
Proof. destruct m as [a|e]; simpl; [eauto | discriminate]. Qed.

Lemma filter_all {A} (P : A -> Prop) `{forall x, Decision (P x)} (l : list A) :
  (forall x, x ∈ l -> P x) -> filter P l = l.
Proof.
  induction l as [|x l IH]; intros Hall; [reflexivity|].
  rewrite filter_cons_True by (apply Hall; by left).
  f_equal. apply IH. intros y Hy. apply Hall. by right.
Qed.

(** ** The parametric estimator *)

Section EstimatorFacts.
Context {F : Type} `{Scalar F}.

Local Abbreviation row := (gmap string (cell F)).

Lemma numeric_drivers_lookup (r : row) d s :
  numeric_drivers r = true -> d ∈ cost_drivers -> r !! d <> Some (Str s).
Proof.
  unfold numeric_drivers. rewrite forallb_forall. intros Hall Hd Hr.
  apply list_elem_of_In in Hd. specialize (Hall d Hd).
  rewrite Hr in Hall. discriminate.
Qed.

(** The loop multiplies the accumulator by the ratings of the drivers that
    label the row, in order, and skips the others. *)
Lemma effort_multiplier_present (r : row) (ds : list string) (em : F) :
  (forall d s, d ∈ ds -> r !! d <> Some (Str s)) ->
  effort_multiplier r ds em =
    Ok (fold_left fmul
          (omap (rating r) (filter (fun d => is_Some (r !! d)) ds)) em).
Proof.
  revert em. induction ds as [|d ds IH]; intros em Hnum; [reflexivity|].
  simpl effort_multiplier. rewrite filter_cons.
  assert (Hds : forall d' s, d' ∈ ds -> r !! d' <> Some (Str s)).
  { intros d' s Hd'. apply Hnum. by right. }
  destruct (r !! d) as [c|] eqn:Hd.
  - destruct (decide (is_Some (Some c))) as [_|Hn];
      [|exfalso; apply Hn; eauto].
    destruct c as [x|s].
    + simpl. unfold rating at 1. rewrite Hd. simpl. by apply IH.
    + exfalso. apply (Hnum d s); [by left | done].
  - destruct (decide (is_Some (@None (cell F)))) as [[? ?]|_];
      [discriminate|]. by apply IH.
Qed.

Lemma ratings_length (r : row) (ds : list string) :
  (forall d s, d ∈ ds -> r !! d <> Some (Str s)) ->
  List.length (omap (rating r) (filter (fun d => is_Some (r !! d)) ds)) =
  List.length (filter (fun d => is_Some (r !! d)) ds).
Proof.
  induction ds as [|d ds IH]; intros Hnum; [reflexivity|].
  assert (Hds : forall d' s, d' ∈ ds -> r !! d' <> Some (Str s)).
  { intros d' s Hd'. apply Hnum. by right. }
  rewrite filter_cons. destruct (decide (is_Some (r !! d))) as [[c Hc]|_].
  - simpl. unfold rating at 1. rewrite Hc. destruct c as [x|s].
    + simpl. f_equal. by apply IH.
    + exfalso. apply (Hnum d s); [by left | done].
  - by apply IH.
Qed.

(** C1. On a row that carries [loc] as a number and no string among its cost
    drivers, the estimator returns log1p(a * loc^b * EM) unless the power
    loc ** b overflows, in which case it raises OverflowError; (a, b) is the
    coefficient pair of the row and EM is the left-to-right product of the
    ratings of exactly those of the fifteen cost drivers that label the row:
    a driver absent from the row contributes no factor, and a row with all
    fifteen drivers has the fifteen-factor product. *)
Theorem cocomo_effort_formula (r : row) (kloc : F) :
  r !! "loc" = Some (Num kloc) ->
  numeric_drivers r = true ->
  (overflows kloc (lit (coefficients r).2) = false ->
   calculate_cocomo_effort r =
     Ok (flog1p (fmul (fmul (lit (coefficients r).1)
                            (fpow kloc (lit (coefficients r).2)))
                      (product (omap (rating r) (present_drivers r))))))
  /\ (overflows kloc (lit (coefficients r).2) = true ->
      calculate_cocomo_effort r = Raise OverflowError)
  /\ (forall d, d ∈ present_drivers r <->
                d ∈ cost_drivers /\ is_Some (r !! d))
  /\ List.length (omap (rating r) (present_drivers r)) =
     List.length (present_drivers r)
  /\ ((forall d, d ∈ cost_drivers -> is_Some (r !! d)) ->
      present_drivers r = cost_drivers /\
      List.length (omap (rating r) (present_drivers r)) = 15).
Proof.
  intros Hloc Hnum.
  assert (Hn : forall d s, d ∈ cost_drivers -> r !! d <> Some (Str s)).
  { intros d s. by apply numeric_drivers_lookup. }
  assert (Hlen := ratings_length r cost_drivers Hn).
  assert (Hrun : calculate_cocomo_effort r =
    if overflows kloc (lit (coefficients r).2) then Raise OverflowError
    else Ok (flog1p (fmul (fmul (lit (coefficients r).1)
                                (fpow kloc (lit (coefficients r).2)))
                          (product (omap (rating r) (present_drivers r)))))).
  { unfold calculate_cocomo_effort.
    rewrite (effort_multiplier_present r cost_drivers _ Hn).
    unfold getitem. rewrite Hloc.
    destruct (coefficients r) as [a b]. cbn [bind power fst snd].
    unfold overflows.
    by destruct (negb (fisinf kloc) && fisinf (fpow kloc (lit b))). }
  split; [|split; [|split; [|split]]].
  - intros Hfits. by rewrite Hrun, Hfits.
  - intros Hover. by rewrite Hrun, Hover.
  - intros d. unfold present_drivers. rewrite list_elem_of_filter. tauto.
  - exact Hlen.
  - intros Hall.
    assert (Hp : present_drivers r = cost_drivers).
    { unfold present_drivers.
      by apply filter_all. }
    split; [exact Hp|]. fold (present_drivers r) in Hlen.
    rewrite Hlen, Hp. reflexivity.
Qed.

Lemma flag_holds_one (r : row) k : holds_one (r !! k) -> flag r k = true.
Proof. unfold flag. by intros (x & -> & Hx). Qed.

Lemma flag_holds_no_one (r : row) k :
  holds_no_one (r !! k) -> flag r k = false.
Proof.
  unfold flag, holds_no_one. intros Hno.
  destruct (r !! k) as [[x|s]|]; [|reflexivity..].
  by apply Hno.
Qed.

(** C2. The coefficient pair follows the development mode.  On a one-hot
    row the first of the indicators [mode_organic], [mode_semidetached] and
    [mode_embedded] that the row holds as the number 1 decides: organic
    (2.4, 1.05), semidetached (3.0, 1.12), embedded (3.6, 1.20).  On a row
    that holds none of them as 1, [dev_mode] decides: "organic",
    "semidetached" and "embedded" give the same three pairs, and any other
    value of [dev_mode], or no [dev_mode] at all, gives the embedded pair. *)
Theorem coefficients_by_mode (r : row) :
  (holds_one (r !! "mode_organic") -> coefficients r = (2.4, 1.05)%Q) /\
  (holds_no_one (r !! "mode_organic") ->
   holds_one (r !! "mode_semidetached") ->
   coefficients r = (3.0, 1.12)%Q) /\
  (holds_no_one (r !! "mode_organic") ->
   holds_no_one (r !! "mode_semidetached") ->
   holds_one (r !! "mode_embedded") -> coefficients r = (3.6, 1.20)%Q) /\
  (holds_no_one (r !! "mode_organic") ->
   holds_no_one (r !! "mode_semidetached") ->
   holds_no_one (r !! "mode_embedded") ->
   (r !! "dev_mode" = Some (Str "organic") ->
    coefficients r = (2.4, 1.05)%Q) /\
   (r !! "dev_mode" = Some (Str "semidetached") ->
    coefficients r = (3.0, 1.12)%Q) /\
   (r !! "dev_mode" = Some (Str "embedded") ->
    coefficients r = (3.6, 1.20)%Q) /\
   (forall c, r !! "dev_mode" = Some c ->
              c <> Str "organic" -> c <> Str "semidetached" ->
              coefficients r = (3.6, 1.20)%Q) /\
   (r !! "dev_mode" = None -> coefficients r = (3.6, 1.20)%Q)).
Proof.
  unfold coefficients.
  split; [|split; [|split]].
  - intros Ho. by rewrite (flag_holds_one _ _ Ho).
  - intros Ho Hs.
    by rewrite (flag_holds_no_one _ _ Ho), (flag_holds_one _ _ Hs).
  - intros Ho Hs He.
    by rewrite (flag_holds_no_one _ _ Ho), (flag_holds_no_one _ _ Hs),
               (flag_holds_one _ _ He).
  - intros Ho Hs He.
    rewrite (flag_holds_no_one _ _ Ho), (flag_holds_no_one _ _ Hs),
            (flag_holds_no_one _ _ He).
    split; [|split; [|split; [|split]]].
    + intros ->. reflexivity.
    + intros ->. reflexivity.
    + intros ->. reflexivity.
    + intros c -> Hc1 Hc2. destruct c as [x|s]; [reflexivity|].
      simpl. destruct (String.eqb_spec s "organic") as [->|_];
        [congruence|].
      destruct (String.eqb_spec s "semidetached") as [->|_];
        [congruence|]. reflexivity.
    + intros ->. reflexivity.
Qed.

Lemma flag_agree (r1 r2 : row) k :
  r1 !! k = r2 !! k -> flag r1 k = flag r2 k.
Proof. unfold flag. by intros ->. Qed.

Lemma effort_multiplier_agree (r1 r2 : row) ds em :
  (forall d, d ∈ ds -> r1 !! d = r2 !! d) ->
  effort_multiplier r1 ds em = effort_multiplier r2 ds em.
Proof.
  revert em. induction ds as [|d ds IH]; intros em Hag; [reflexivity|].
  simpl. rewrite <- (Hag d) by (by left).
  assert (Hds : forall d', d' ∈ ds -> r1 !! d' = r2 !! d').
  { intros d' Hd'. apply Hag. by right. }
  destruct (r1 !! d) as [c|]; [|by apply IH].
  destruct (times em c) as [em'|e]; simpl; [by apply IH | reflexivity].
Qed.

(** C9. The estimator is a function of the mode, the size and the cost
    drivers of the row: two rows that agree on the mode labels, on [loc] and
    on the fifteen cost drivers, whatever else they hold, get the same
    result, be it a value or an exception. *)
Theorem cocomo_effort_deterministic (r1 r2 : row) :
  (forall k, k ∈ relevant_labels -> r1 !! k = r2 !! k) ->
  calculate_cocomo_effort r1 = calculate_cocomo_effort r2.
Proof.
  intros Hag.
  assert (Hco : coefficients r1 = coefficients r2).
  { unfold coefficients.
    rewrite (flag_agree r1 r2 "mode_organic"),
            (flag_agree r1 r2 "mode_semidetached"),
            (flag_agree r1 r2 "mode_embedded");
      try (apply Hag; unfold relevant_labels; set_solver).
    rewrite (Hag "dev_mode") by (unfold relevant_labels; set_solver).
    reflexivity. }
  unfold calculate_cocomo_effort. rewrite Hco.
  destruct (coefficients r2) as [a b].
  rewrite (effort_multiplier_agree r1 r2).
  - unfold getitem.
    rewrite (Hag "loc") by (unfold relevant_labels; set_solver).
    reflexivity.
  - intros d Hd. apply Hag. unfold relevant_labels.
    apply elem_of_app. by right.
Qed.

End EstimatorFacts.

(** ** Binary64: rounding keeps the sign *)

Section RoundingFacts.
Variables prec emax : Z.

Lemma iter_pos_invariant {A} (P : A -> Prop) (f : A -> A) :
  (forall x, P x -> P (f x)) -> forall n x, P x -> P (SpecFloat.iter_pos f n x).
Proof.
  intros Hf. induction n as [n IH|n IH|]; intros x Hx; simpl; auto.
Qed.

Lemma shr_1_nonneg mrs : (0 <= shr_m mrs -> 0 <= shr_m (shr_1 mrs))%Z.
Proof. destruct mrs as [[|[p|p|]|p] r s]; simpl; lia. Qed.

Lemma shr_fexp_nonneg m e l :
  (0 <= m -> 0 <= shr_m (fst (shr_fexp prec emax m e l)))%Z.
Proof.
  intros Hm. unfold shr_fexp, shr.
  assert (H0 : (0 <= shr_m (shr_record_of_loc m l))%Z)
    by (by destruct l as [|[]]).
  destruct (fexp prec emax (Zdigits2 m + e) - e)%Z as [|p|p]; simpl;
    [exact H0| |exact H0].
  apply (iter_pos_invariant (fun mrs => 0 <= shr_m mrs)%Z);
    [apply shr_1_nonneg | exact H0].
Qed.

Lemma round_nearest_even_nonneg m l :
  (0 <= m -> 0 <= round_nearest_even m l)%Z.
Proof.
  intros Hm. destruct l as [|[]]; simpl; try lia.
  destruct (Z.even m); lia.
Qed.

(** Rounding a magnitude never loses the sign: the result is a zero, a
    finite number or an infinity of the sign asked for. *)
Lemma binary_round_aux_sign sx mx ex lx :
  (0 <= mx)%Z -> of_sign sx (binary_round_aux prec emax sx mx ex lx).
Proof.
  intros Hm. unfold binary_round_aux.
  pose proof (shr_fexp_nonneg mx ex lx Hm) as H1.
  destruct (shr_fexp prec emax mx ex lx) as [mrs' e']. simpl in H1.
  pose proof (shr_fexp_nonneg _ e' loc_Exact
    (round_nearest_even_nonneg _ (loc_of_shr_record mrs') H1)) as H2.
  destruct (shr_fexp prec emax _ e' loc_Exact) as [mrs'' e'']. simpl in H2.
  destruct (shr_m mrs'') as [|m|m]; [reflexivity| |lia].
  by destruct (e'' <=? emax - prec)%Z.
Qed.

Lemma binary_round_sign sx mx ex :
  of_sign sx (binary_round prec emax sx mx ex).
Proof.
  unfold binary_round. destruct (shl_align _ _ _) as [mz ez].
  by apply binary_round_aux_sign.
Qed.

End RoundingFacts.

(** *** Signs through the operations *)

Lemma b64_nonneg_cases x :
  b64_nonneg x = true <->
  (exists s, x = S754_zero s) \/ of_sign false x.
Proof.
  unfold b64_nonneg, SFleb.
  destruct x as [s|[]| |[] m e]; simpl; split; eauto;
    try discriminate; intros [[s' ?]|?]; done.
Qed.

Lemma of_sign_nonneg x : of_sign false x -> b64_nonneg x = true.
Proof. intros Hx. apply b64_nonneg_cases. by right. Qed.

Lemma b64_isfinite_cases x :
  b64_isfinite x = true ->
  (exists s, x = S754_zero s) \/ exists s m e, x = S754_finite s m e.
Proof. destruct x; simpl; try discriminate; eauto. Qed.

(** The difference of two finite numbers is a number. *)
Lemma b64_sub_number x y :
  b64_isfinite x = true -> b64_isfinite y = true ->
  exists s, of_sign s (b64_sub x y).
Proof.
  intros [[sx ->]|(sx & mx & ex & ->)]%b64_isfinite_cases
         [[sy ->]|(sy & my & ey & ->)]%b64_isfinite_cases;
    unfold b64_sub; simpl.
  - destruct sx, sy; by eexists.
  - by eexists.
  - by eexists.
  - destruct (_ - _)%Z as [|m|m]; simpl.
    + by eexists.
    + exists false. apply binary_round_sign.
    + exists true. apply binary_round_sign.
Qed.

(** [x - x] is 0.0 for every finite [x]. *)
Lemma b64_sub_diag x :
  b64_isfinite x = true -> b64_sub x x = S754_zero false.
Proof.
  intros [[s ->]|(s & m & e & ->)]%b64_isfinite_cases; unfold b64_sub; simpl.
  - by destruct s.
  - by rewrite Z.sub_diag.
Qed.

Lemma SFabs_nonneg x s : of_sign s x -> b64_nonneg (SFabs x) = true.
Proof. by destruct x. Qed.

Lemma square_nonneg x s : of_sign s x -> b64_nonneg (square x) = true.
Proof.
  destruct x as [sx|sx| |sx m e]; simpl; intros Hs;
    [by destruct sx | by destruct sx | done |].
  apply of_sign_nonneg. unfold square, b64_mul. simpl.
  replace (xorb sx sx) with false by (by destruct sx).
  by apply binary_round_aux_sign.
Qed.

Lemma b64_add_nonneg x y :
  b64_nonneg x = true -> b64_nonneg y = true ->
  b64_nonneg (b64_add x y) = true.
Proof.
  intros [[sx ->]|Hx]%b64_nonneg_cases [[sy ->]|Hy]%b64_nonneg_cases.
  - by destruct sx, sy.
  - destruct y as [sy|sy| |sy m e]; simpl in Hy; subst; try done.
    by destruct sx.
  - destruct x as [sx|sx| |sx m e]; simpl in Hx; subst; try done.
    by destruct sy.
  - destruct x as [sx|sx| |sx mx ex]; simpl in Hx; subst; try done;
      destruct y as [sy|sy| |sy my ey]; simpl in Hy; subst; try done.
    apply of_sign_nonneg. unfold b64_add. simpl.
    apply binary_round_sign.
Qed.

Lemma b64_div_nonneg x m e :
  b64_nonneg x = true ->
  b64_nonneg (b64_div x (S754_finite false m e)) = true.
Proof.
  intros [[sx ->]|Hx]%b64_nonneg_cases; [by destruct sx|].
  destruct x as [sx|sx| |sx mx ex]; simpl in Hx; subst; try done.
  apply of_sign_nonneg. unfold b64_div, SFdiv.
  destruct (SFdiv_core_binary 53 1024 (Z.pos mx) ex (Z.pos m) e)
    as [[mz ez] lz] eqn:Hcore.
  apply binary_round_aux_sign.
  unfold SFdiv_core_binary in Hcore.
  set (m' := match (ex - e - _)%Z with
             | Z0 => Z.pos mx
             | Z.pos _ => Z.shiftl (Z.pos mx) _
             | Z.neg _ => 0%Z
             end) in Hcore.
  assert (Hm' : (0 <= m')%Z).
  { unfold m'. destruct (ex - e - _)%Z; [lia| |lia].
    by apply Z.shiftl_nonneg. }
  pose proof (Z_div_mod m' (Z.pos m) eq_refl) as Hdiv.
  destruct (Z.div_eucl m' (Z.pos m)) as [q r]. injection Hcore as <- _ _.
  nia.
Qed.

Lemma b64_sqrt_nonneg x : b64_nonneg x = true -> b64_nonneg (b64_sqrt x) = true.
Proof.
  intros [[sx ->]|Hx]%b64_nonneg_cases; [done|].
  destruct x as [sx|sx| |sx mx ex]; simpl in Hx; subst; try done.
  apply of_sign_nonneg. unfold b64_sqrt, SFsqrt.
  destruct (SFsqrt_core_binary 53 1024 (Z.pos mx) ex)
    as [[mz ez] lz] eqn:Hcore.
  apply binary_round_aux_sign.
  unfold SFsqrt_core_binary in Hcore.
  set (m' := match (ex - 2 * _)%Z with
             | Z0 => Z.pos mx
             | Z.pos _ => Z.shiftl (Z.pos mx) _
             | Z.neg _ => 0%Z
             end) in Hcore.
  pose proof (Z.sqrtrem_sqrt m') as Hs.
  destruct (Z.sqrtrem m') as [q r]. injection Hcore as <- _ _.
  simpl in Hs. rewrite Hs. apply Z.sqrt_nonneg.
Qed.

(** *** The count of a vector as a double *)

Lemma digits2_pos_bound (p : positive) : forall k,
  (0 <= k -> Z.pos p < 2 ^ k -> Z.pos (digits2_pos p) <= k)%Z.
Proof.
  induction p as [p IH|p IH|]; intros k Hk Hp; simpl.
  - destruct (Z.eq_dec k 0%Z) as [->|Hk0]; [simpl in Hp; lia|].
    replace k with (Z.succ (k - 1)) in Hp by lia.
    rewrite Z.pow_succ_r in Hp by lia.
    specialize (IH (k - 1)%Z). lia.
  - destruct (Z.eq_dec k 0%Z) as [->|Hk0]; [simpl in Hp; lia|].
    replace k with (Z.succ (k - 1)) in Hp by lia.
    rewrite Z.pow_succ_r in Hp by lia.
    specialize (IH (k - 1)%Z). lia.
  - destruct (Z.eq_dec k 0%Z) as [->|Hk0]; [simpl in Hp; lia|]. lia.
Qed.

Lemma digits2_pos_shift (p : positive) (d : positive) :
  Z.pos (digits2_pos (Pos.iter xO p d)) = (Z.pos (digits2_pos p) + Z.pos d)%Z.
Proof.
  induction d as [|d IH] using Pos.peano_ind.
  - simpl. lia.
  - rewrite Pos.iter_succ. simpl. lia.
Qed.

(** A magnitude of 53 digits within the exponent range is its own
    rounding. *)
Lemma binary_round_aux_canonical s (m : positive) (e : Z) :
  Z.pos (digits2_pos m) = 53%Z -> (-1074 <= e <= 971)%Z ->
  binary_round_aux 53 1024 s (Z.pos m) e loc_Exact = S754_finite s m e.
Proof.
  intros Hd He.
  assert (Hshr : shr_fexp 53 1024 (Z.pos m) e loc_Exact =
                 ({| shr_m := Z.pos m; shr_r := false; shr_s := false |}, e)).
  { unfold shr_fexp, shr, fexp, emin. simpl Zdigits2. rewrite Hd.
    replace (Z.max (53 + e - 53) (3 - 1024 - 53) - e)%Z with 0%Z by lia.
    reflexivity. }
  unfold binary_round_aux. rewrite Hshr. simpl round_nearest_even.
  rewrite Hshr. simpl shr_m.
  destruct (Z.leb_spec e (1024 - 53)); [reflexivity | lia].
Qed.

(** A count below 2^53 is a positive double. *)
Lemma b64_of_nat_positive (n : nat) :
  0 < n -> (Z.of_nat n < 2 ^ 53)%Z ->
  exists m e, b64_of_nat n = S754_finite false m e.
Proof.
  intros Hn Hlt. unfold b64_of_nat.
  destruct (Z.of_nat n) as [|p|p] eqn:Hp; [lia| |lia].
  unfold binary_normalize, binary_round.
  pose proof (digits2_pos_bound p 53 ltac:(lia) Hlt) as Hd.
  assert (Hfexp : fexp 53 1024 (Z.pos (digits2_pos p) + 0) =
                  (Z.pos (digits2_pos p) - 53)%Z).
  { unfold fexp, emin. lia. }
  rewrite Hfexp. unfold shl_align.
  destruct (Z.pos (digits2_pos p) - 53 - 0)%Z as [|d|d] eqn:Hshift; [|lia|].
  - eexists _, _. apply binary_round_aux_canonical; lia.
  - eexists _, _. apply binary_round_aux_canonical.
    + rewrite digits2_pos_shift. lia.
    + lia.
Qed.

(** ** The evaluator *)

(** *** Sums *)

Section SumFacts.
Variable P : spec_float -> Prop.
Hypothesis P_add : forall x y, P x -> P y -> P (b64_add x y).
Hypothesis P_seed : forall x, P x -> P (b64_add (S754_zero true) x).

Lemma sum_loop_closed (xs : list spec_float) : forall acc,
  P acc -> Forall P xs -> P (fold_left b64_add xs acc).
Proof.
  induction xs as [|x xs IH]; intros acc Hacc Hxs; simpl; [exact Hacc|].
  destruct (proj1 (Forall_cons _ _ _) Hxs) as [Hx Hxs'].
  apply IH; [by apply P_add | exact Hxs'].
Qed.

Lemma sum_loop_seed (xs : list spec_float) :
  xs <> [] -> Forall P xs -> P (fold_left b64_add xs (S754_zero true)).
Proof.
  destruct xs as [|x xs]; [done|]. intros _ [Hx Hxs]%Forall_cons. simpl.
  apply sum_loop_closed; [by apply P_seed | exact Hxs].
Qed.

Lemma sum_unrolled_closed (n : nat) : forall xs r0 r1 r2 r3 r4 r5 r6 r7,
  List.length xs <= n ->
  P r0 -> P r1 -> P r2 -> P r3 -> P r4 -> P r5 -> P r6 -> P r7 ->
  Forall P xs ->
  P (sum_unrolled (r0, r1, r2, r3, r4, r5, r6, r7) xs).
Proof.
  induction n as [|n IH]; intros xs r0 r1 r2 r3 r4 r5 r6 r7 Hn
    H0 H1 H2 H3 H4 H5 H6 H7 Hxs.
  { destruct xs; [|simpl in Hn; lia]. simpl. auto. }
  do 8 (destruct xs as [|? xs];
        [cbn [sum_unrolled]; apply sum_loop_closed; auto|]).
  cbn [sum_unrolled]. repeat match goal with
         | H : Forall P (_ :: _) |- _ =>
             apply Forall_cons in H as [? H]
         end.
  apply IH; auto. simpl in Hn. lia.
Qed.

Lemma pairwise_sum_closed (fuel : nat) : forall xs,
  xs <> [] -> Forall P xs -> P (pairwise_sum fuel xs).
Proof.
  induction fuel as [|fuel IH]; intros xs Hne Hxs.
  - destruct xs as [|x0 xs]; [done|].
    pose proof Hxs as Hall.
    apply Forall_cons in Hxs as [H0 Hxs].
    do 7 (destruct xs as [|? xs];
          [cbn [pairwise_sum]; by apply sum_loop_seed|
           apply Forall_cons in Hxs as [? Hxs]]).
    cbn [pairwise_sum]. by apply (sum_unrolled_closed (List.length xs)).
  - destruct xs as [|x0 xs]; [done|].
    pose proof Hxs as Hall.
    apply Forall_cons in Hxs as [H0 Hxs].
    do 7 (destruct xs as [|? xs];
          [cbn [pairwise_sum]; by apply sum_loop_seed|
           apply Forall_cons in Hxs as [? Hxs]]).
    cbn [pairwise_sum].
    match goal with
    | |- context [Nat.leb (List.length ?l) 128] => set (ys := l) in *
    end.
    destruct (Nat.leb_spec (List.length ys) 128) as [Hle|Hgt].
    + by apply (sum_unrolled_closed (List.length xs)).
    + clearbody ys.
      set (n2 := List.length ys / 2 - (List.length ys / 2) mod 8).
      assert (Hn2 : 0 < n2 < List.length ys).
      { unfold n2. pose proof (Nat.Div0.mod_le (List.length ys / 2) 8).
        pose proof (Nat.mod_upper_bound (List.length ys / 2) 8).
        pose proof (Nat.Div0.div_le_upper_bound (List.length ys) 2 (List.length ys)).
        assert (64 <= List.length ys / 2).
        { apply Nat.div_le_lower_bound; lia. }
        assert (List.length ys / 2 < List.length ys)
          by (apply Nat.div_lt; lia).
        lia. }
      apply P_add; apply IH.
      * intros Hnil. apply (f_equal (@List.length _)) in Hnil.
        rewrite length_take in Hnil. simpl in Hnil. lia.
      * by apply Forall_take.
      * intros Hnil. apply (f_equal (@List.length _)) in Hnil.
        rewrite length_drop in Hnil. simpl in Hnil. lia.
      * by apply Forall_drop.
Qed.

(** What holds of the elements of a vector and is kept by addition holds
    of its sum.  The statements about the metrics rest on this alone: they
    hold for whatever order the elements are added in. *)
Lemma np_sum_closed (xs : list spec_float) :
  xs <> [] -> Forall P xs -> P (np_sum xs).
Proof.
  intros Hne Hxs. unfold np_sum. destruct xs as [|x xs]; [done|].
  apply P_seed. by apply pairwise_sum_closed.
Qed.

End SumFacts.

Lemma pairwise_sum_fuel (fuel : nat) : forall fuel' xs,
  List.length xs <= fuel -> List.length xs <= fuel' ->
  pairwise_sum fuel xs = pairwise_sum fuel' xs.
Proof.
  induction fuel as [|fuel IH]; intros fuel' xs Hf Hf'.
  { destruct xs; [|simpl in Hf; lia]. by destruct fuel'. }
  destruct fuel' as [|fuel']; [destruct xs; [done | simpl in Hf'; lia]|].
  do 8 (destruct xs as [|? xs]; [reflexivity|]).
  cbn [pairwise_sum].
  match goal with
  | |- context [Nat.leb (List.length ?l) 128] => set (ys := l) in *
  end.
  destruct (Nat.leb_spec (List.length ys) 128) as [Hle|Hgt]; [reflexivity|].
  clearbody ys.
  set (n2 := List.length ys / 2 - (List.length ys / 2) mod 8).
  assert (Hn2 : 0 < n2 < List.length ys).
  { unfold n2. pose proof (Nat.Div0.mod_le (List.length ys / 2) 8).
    pose proof (Nat.mod_upper_bound (List.length ys / 2) 8).
    assert (64 <= List.length ys / 2)
      by (apply Nat.div_le_lower_bound; lia).
    assert (List.length ys / 2 < List.length ys)
      by (apply Nat.div_lt; lia).
    lia. }
  f_equal; apply IH; rewrite ?length_take, ?length_drop; lia.
Qed.

(** *** The metrics *)

Section EvaluatorFacts.

Lemma np_sum_nonneg (xs : list spec_float) :
  xs <> [] -> Forall (fun x => b64_nonneg x = true) xs ->
  b64_nonneg (np_sum xs) = true.
Proof.
  apply (np_sum_closed (fun x => b64_nonneg x = true)).
  - apply b64_add_nonneg.
  - intros x Hx. by apply b64_add_nonneg.
Qed.

Lemma np_sum_zeros (xs : list spec_float) :
  xs <> [] -> Forall (fun x => x = S754_zero false) xs ->
  np_sum xs = S754_zero false.
Proof.
  apply (np_sum_closed (fun x => x = S754_zero false)).
  - by intros x y -> ->.
  - by intros x ->.
Qed.

Lemma average_nonneg (xs : list spec_float) :
  xs <> [] -> (Z.of_nat (List.length xs) < 2 ^ 53)%Z ->
  Forall (fun x => b64_nonneg x = true) xs ->
  b64_nonneg (average xs) = true.
Proof.
  intros Hne Hn Hxs. unfold average.
  destruct (b64_of_nat_positive (List.length xs)) as (m & e & ->);
    [destruct xs; [done | simpl; lia] | exact Hn|].
  by apply b64_div_nonneg, np_sum_nonneg.
Qed.

Lemma average_zeros (xs : list spec_float) :
  xs <> [] -> (Z.of_nat (List.length xs) < 2 ^ 53)%Z ->
  Forall (fun x => x = S754_zero false) xs ->
  average xs = S754_zero false.
Proof.
  intros Hne Hn Hxs. unfold average.
  destruct (b64_of_nat_positive (List.length xs)) as (m & e & ->);
    [destruct xs; [done | simpl; lia] | exact Hn|].
  by rewrite np_sum_zeros.
Qed.

(** The residuals of finite vectors are numbers. *)
Lemma residuals_numbers (xs ys : list spec_float) :
  forallb b64_isfinite xs = true -> forallb b64_isfinite ys = true ->
  Forall (fun d => exists s, of_sign s d) (zip_with b64_sub xs ys).
Proof.
  revert ys. induction xs as [|x xs IH]; intros [|y ys]; simpl;
    [constructor..|].
  intros [Hx Hxs]%andb_true_iff [Hy Hys]%andb_true_iff.
  constructor; [by apply b64_sub_number | by apply IH].
Qed.

Lemma residuals_self (xs : list spec_float) :
  forallb b64_isfinite xs = true ->
  Forall (fun d => d = S754_zero false) (zip_with b64_sub xs xs).
Proof.
  induction xs as [|x xs IH]; simpl; [constructor|].
  intros [Hx Hxs]%andb_true_iff.
  constructor; [by apply b64_sub_diag | by apply IH].
Qed.

Lemma residuals_nonempty (xs ys : list spec_float) :
  List.length xs = List.length ys -> 0 < List.length xs ->
  zip_with b64_sub xs ys <> [].
Proof. destruct xs, ys; simpl; intros; (lia || done). Qed.

Lemma map_nonempty {A B} (f : A -> B) (l : list A) : l <> [] -> map f l <> [].
Proof. by destruct l. Qed.

Lemma residuals_length (xs ys : list spec_float) :
  List.length xs = List.length ys ->
  List.length (zip_with b64_sub xs ys) = List.length xs.
Proof. intros Hl. rewrite length_zip_with. lia. Qed.

Lemma check_reg_targets_ok (y_true y_pred : list spec_float) :
  List.length y_true = List.length y_pred ->
  0 < List.length y_true ->
  forallb b64_isfinite y_true = true ->
  forallb b64_isfinite y_pred = true ->
  check_reg_targets y_true y_pred = Ok tt.
Proof.
  intros Hlen Hn Ht Hp. unfold check_reg_targets.
  rewrite Hlen, Nat.eqb_refl, Ht, Hp. simpl.
  destruct (Nat.eqb_spec (List.length y_pred) 0); [lia | reflexivity].
Qed.

Lemma check_reg_targets_inv (y_true y_pred : list spec_float) u :
  check_reg_targets y_true y_pred = Ok u ->
  List.length y_true = List.length y_pred /\
  0 < List.length y_true /\
  forallb b64_isfinite y_true = true /\
  forallb b64_isfinite y_pred = true.
Proof.
  unfold check_reg_targets.
  destruct (Nat.eqb_spec (List.length y_true) (List.length y_pred));
    [|discriminate].
  destruct (Nat.eqb_spec (List.length y_true) 0); [discriminate|].
  destruct (forallb b64_isfinite y_true); [|discriminate].
  destruct (forallb b64_isfinite y_pred); [|discriminate].
  intros _. repeat split; (done || lia).
Qed.

Lemma check_reg_targets_outcome (y_true y_pred : list spec_float) :
  check_reg_targets y_true y_pred = Ok tt \/
  check_reg_targets y_true y_pred = Raise ValueError.
Proof.
  unfold check_reg_targets.
  repeat match goal with
         | |- context [if ?b then _ else _] => destruct b
         end; auto.
Qed.

(** The score of [r2_score] on checked vectors of two samples or more. *)
Lemma r2_score_cases (y_true y_pred : list spec_float) :
  check_reg_targets y_true y_pred = Ok tt ->
  2 <= List.length y_pred ->
  r2_score y_true y_pred =
    Ok (if nonzero (ss_res y_true y_pred) && nonzero (ss_tot y_true)
        then b64_sub b64_one
               (b64_div (ss_res y_true y_pred) (ss_tot y_true))
        else if nonzero (ss_res y_true y_pred) then S754_zero false
        else b64_one).
Proof.
  intros Hok Hn. unfold r2_score. rewrite Hok. simpl bind.
  destruct (Nat.ltb_spec (List.length y_pred) 2); [lia|].
  fold (ss_res y_true y_pred). fold (ss_tot y_true).
  by repeat match goal with
            | |- context [if ?b then _ else _] => destruct b
            end.
Qed.

Lemma r2_score_single (y_true y_pred : list spec_float) :
  check_reg_targets y_true y_pred = Ok tt ->
  List.length y_pred = 1 ->
  r2_score y_true y_pred = Ok S754_nan.
Proof.
  intros Hok Hn. unfold r2_score. rewrite Hok, Hn. reflexivity.
Qed.

Lemma evaluate_model_checked (y_true y_pred : list spec_float) name :
  check_reg_targets y_true y_pred = Ok tt ->
  exists r,
    r2_score y_true y_pred = Ok r /\
    evaluate_model y_true y_pred name =
      Ok {| MAE := average (map SFabs (zip_with b64_sub y_pred y_true));
            RMSE := b64_sqrt
                      (average (map square (zip_with b64_sub y_true y_pred)));
            R2 := r |}.
Proof.
  intros Hok.
  assert (Hr : exists r, r2_score y_true y_pred = Ok r).
  { unfold r2_score. rewrite Hok. simpl bind.
    repeat match goal with
           | |- context [if ?b then _ else _] => destruct b
           end; by eexists. }
  destruct Hr as [r Hr]. exists r. split; [exact Hr|].
  unfold evaluate_model, mean_absolute_error, mean_squared_error.
  rewrite Hok. simpl bind. rewrite Hr. reflexivity.
Qed.

Lemma ss_res_self (ys : list spec_float) :
  ys <> [] -> forallb b64_isfinite ys = true ->
  ss_res ys ys = S754_zero false.
Proof.
  intros Hne Hfin. unfold ss_res. apply np_sum_zeros.
  - apply map_nonempty. by destruct ys.
  - apply Forall_fmap. eapply Forall_impl; [by apply residuals_self|].
    by intros d ->.
Qed.

Lemma np_sum_of_zeros (xs : list spec_float) :
  xs <> [] -> Forall (fun x => exists s, x = S754_zero s) xs ->
  exists s, np_sum xs = S754_zero s.
Proof.
  apply (np_sum_closed (fun x => exists s, x = S754_zero s)).
  - intros x y [sx ->] [sy ->]. destruct sx, sy; by eexists.
  - intros x [sx ->]. destruct sx; by eexists.
Qed.

(** A number equal to a finite one differs from it by zero. *)
Lemma b64_sub_equal (c m : spec_float) :
  b64_isfinite c = true -> SFeqb m c = true ->
  exists s, b64_sub c m = S754_zero s.
Proof.
  intros Hc Heq.
  destruct c as [sc|sc| |sc mc ec]; try discriminate;
    destruct m as [sm|sm| |sm mm em];
    try (by simpl in Heq); try (by destruct sm; simpl in Heq);
    try (by destruct sc; simpl in Heq).
  - unfold b64_sub. destruct sc, sm; by eexists.
  - assert (Hsame : S754_finite sm mm em = S754_finite sc mc ec).
    { unfold SFeqb in Heq. simpl in Heq.
      destruct sm, sc; try discriminate;
        destruct (Z.compare_spec em ec) as [->| |]; try discriminate;
        change (Pos.compare_cont Eq mm mc) with (Pos.compare mm mc) in Heq;
        destruct (Pos.compare_spec mm mc) as [->| |]; (done || discriminate). }
    rewrite Hsame. exists false. by apply b64_sub_diag.
Qed.

(** When the computed mean of a constant vector is the constant, the total
    sum of squares is 0.0. *)
Lemma ss_tot_constant (c : spec_float) (ys : list spec_float) :
  ys <> [] -> b64_isfinite c = true -> Forall (fun y => y = c) ys ->
  SFeqb (average ys) c = true ->
  ss_tot ys = S754_zero false.
Proof.
  intros Hne Hc Hall Hmean. unfold ss_tot. apply np_sum_zeros.
  - by apply map_nonempty.
  - apply Forall_fmap. eapply Forall_impl; [exact Hall|]. simpl.
    intros y ->. destruct (b64_sub_equal c _ Hc Hmean) as [s ->].
    by destruct s.
Qed.

Lemma b64_is_zero_inv (c : spec_float) :
  b64_is_zero c = true -> exists s, c = S754_zero s.
Proof. destruct c as [s|[]| |[] m e]; try discriminate. by exists s. Qed.

(** The computed mean of a vector of zeros is zero. *)
Lemma average_of_zeros (c : spec_float) (ys : list spec_float) :
  ys <> [] -> (Z.of_nat (List.length ys) < 2 ^ 53)%Z ->
  b64_is_zero c = true -> Forall (fun y => y = c) ys ->
  SFeqb (average ys) c = true.
Proof.
  intros Hne Hn [sc ->]%b64_is_zero_inv Hall. unfold average.
  destruct (b64_of_nat_positive (List.length ys)) as (m & e & ->);
    [destruct ys; [done | simpl; lia] | exact Hn|].
  destruct (np_sum_of_zeros ys Hne) as [s ->]; [|reflexivity].
  eapply Forall_impl; [exact Hall|]. simpl. intros y ->. by eexists.
Qed.

End EvaluatorFacts.

Section EvaluatorClaims.

(** C6. On two vectors of one length, of at least one and fewer than 2^53
    samples, all finite, the evaluator returns; MAE is the mean absolute
    deviation and RMSE the square root of the mean squared deviation, both
    as computed in binary64, and both are at least 0.  When the prediction
    equals the truth MAE and RMSE are 0.0 and, with two samples or more, R2
    is 1.0.  With two samples or more R2 is 1 minus the quotient of the sum
    of squared residuals by the total sum of squares whenever neither
    computed sum is zero.  That RMSE is at least MAE is no part of the
    statement: rounding breaks it. *)
Theorem evaluate_model_metrics (y_true y_pred : list spec_float)
    (model_name : string) :
  List.length y_true = List.length y_pred ->
  0 < List.length y_true ->
  (Z.of_nat (List.length y_true) < 2 ^ 53)%Z ->
  forallb b64_isfinite y_true = true ->
  forallb b64_isfinite y_pred = true ->
  exists m,
    evaluate_model y_true y_pred model_name = Ok m /\
    MAE m = average (map SFabs (zip_with b64_sub y_pred y_true)) /\
    RMSE m =
      b64_sqrt (average (map square (zip_with b64_sub y_true y_pred))) /\
    b64_nonneg (MAE m) = true /\
    b64_nonneg (RMSE m) = true /\
    (y_pred = y_true ->
     MAE m = S754_zero false /\ RMSE m = S754_zero false) /\
    (2 <= List.length y_true ->
     (y_pred = y_true -> R2 m = b64_one) /\
     (nonzero (ss_res y_true y_pred) = true ->
      nonzero (ss_tot y_true) = true ->
      R2 m = b64_sub b64_one
               (b64_div (ss_res y_true y_pred) (ss_tot y_true)))).
Proof.
  intros Hlen Hn Hcount Ht Hp.
  pose proof (check_reg_targets_ok _ _ Hlen Hn Ht Hp) as Hok.
  destruct (evaluate_model_checked _ _ model_name Hok) as (r & Hr & Hm).
  eexists. split; [exact Hm|]. simpl.
  split; [reflexivity|]. split; [reflexivity|].
  assert (Hne : zip_with b64_sub y_true y_pred <> [])
    by (by apply residuals_nonempty).
  assert (Hne' : zip_with b64_sub y_pred y_true <> [])
    by (apply residuals_nonempty; lia).
  split; [|split; [|split]].
  - apply average_nonneg.
    + by apply map_nonempty.
    + rewrite length_map, residuals_length by done. by rewrite <- Hlen.
    + apply Forall_fmap. eapply Forall_impl; [by apply residuals_numbers|].
      intros d [s Hs]. by apply (SFabs_nonneg d s).
  - apply b64_sqrt_nonneg, average_nonneg.
    + by apply map_nonempty.
    + by rewrite length_map, residuals_length.
    + apply Forall_fmap. eapply Forall_impl; [by apply residuals_numbers|].
      intros d [s Hs]. by apply (square_nonneg d s).
  - intros ->. rewrite !average_zeros; [done|..].
    + by apply map_nonempty.
    + by rewrite length_map, residuals_length.
    + apply Forall_fmap. eapply Forall_impl; [by apply residuals_self|].
      by intros d ->.
    + by apply map_nonempty.
    + by rewrite length_map, residuals_length.
    + apply Forall_fmap. eapply Forall_impl; [by apply residuals_self|].
      by intros d ->.
  - intros Hn2. rewrite r2_score_cases in Hr by (done || lia).
    injection Hr as <-. split.
    + intros ->. rewrite ss_res_self; [done | by destruct y_true | done].
    + by intros -> ->.
Qed.

(** C7. When all true values equal one finite number and the predictions
    are finite, the evaluator does not raise.  With a single sample the R2
    it returns is NaN.  With two samples or more R2 is 1.0 for a perfect
    prediction; when the computed mean of the true values is the constant,
    as it is for a constant zero, the total sum of squares is 0.0 and R2 is
    1.0 or 0.0 according to whether the sum of squared residuals is zero;
    when rounding makes both sums differ from zero, R2 is 1 minus their
    quotient. *)
Theorem evaluate_model_constant_truth (y_true y_pred : list spec_float)
    (c : spec_float) (model_name : string) :
  List.length y_true = List.length y_pred ->
  0 < List.length y_true ->
  b64_isfinite c = true ->
  Forall (fun y => y = c) y_true ->
  forallb b64_isfinite y_pred = true ->
  exists m,
    evaluate_model y_true y_pred model_name = Ok m /\
    (List.length y_true = 1 -> R2 m = S754_nan) /\
    (2 <= List.length y_true ->
     (y_pred = y_true -> R2 m = b64_one) /\
     (SFeqb (average y_true) c = true ->
      ss_tot y_true = S754_zero false /\
      R2 m = if nonzero (ss_res y_true y_pred)
             then S754_zero false else b64_one) /\
     (b64_is_zero c = true ->
      (Z.of_nat (List.length y_true) < 2 ^ 53)%Z ->
      SFeqb (average y_true) c = true) /\
     (nonzero (ss_res y_true y_pred) = true ->
      nonzero (ss_tot y_true) = true ->
      R2 m = b64_sub b64_one
               (b64_div (ss_res y_true y_pred) (ss_tot y_true)))).
Proof.
  intros Hlen Hn Hc Hall Hp.
  assert (Ht : forallb b64_isfinite y_true = true).
  { apply forallb_forall. intros y Hy. rewrite Forall_forall in Hall.
    by rewrite (Hall y (proj2 (list_elem_of_In _ _) Hy)). }
  assert (Hne : y_true <> []) by (destruct y_true; [simpl in Hn; lia | done]).
  pose proof (check_reg_targets_ok _ _ Hlen Hn Ht Hp) as Hok.
  destruct (evaluate_model_checked _ _ model_name Hok) as (r & Hr & Hm).
  eexists. split; [exact Hm|]. simpl. split.
  - intros H1. rewrite r2_score_single in Hr by (done || lia).
    by injection Hr as <-.
  - intros Hn2. rewrite r2_score_cases in Hr by (done || lia).
    injection Hr as <-. split; [|split; [|split]].
    + intros ->. by rewrite ss_res_self.
    + intros Hmean. rewrite (ss_tot_constant c) by done.
      split; [reflexivity|]. by rewrite andb_false_r.
    + intros Hzero Hcount. by apply average_of_zeros.
    + by intros -> ->.
Qed.

End EvaluatorClaims.

(** ** The reporter *)

Section ReporterFacts.
Variables Model Scaler_state : Type.
Open Scope R_scope.

Lemma collect_results_eq (cocomo lr dt rf : metrics) :
  collect_results cocomo lr dt rf =
  [("COCOMO I", cocomo); ("Linear Regression", lr);
   ("Decision Tree", dt); ("Random Forest", rf)].
Proof. reflexivity. Qed.

(** The first minimum of the four RMSEs, by name. *)
Lemma best_model_cases (cocomo lr dt rf : metrics) :
  let results := collect_results cocomo lr dt rf in
  exists best,
    best_model results = Ok best /\
    (forall k, k ∈ keys results -> rmse_of results best <= rmse_of results k) /\
    ((best = "COCOMO I" /\
      rmse cocomo <= rmse lr /\ rmse cocomo <= rmse dt /\
      rmse cocomo <= rmse rf) \/
     (best = "Linear Regression" /\ rmse lr < rmse cocomo) \/
     (best = "Decision Tree" /\ rmse dt < rmse cocomo) \/
     (best = "Random Forest" /\ rmse rf < rmse cocomo)).
Proof.
  intros results. unfold results. rewrite collect_results_eq.
  unfold best_model, py_min. simpl keys. cbn [min_from].
  assert (Hc : rmse_of [("COCOMO I", cocomo); ("Linear Regression", lr);
                        ("Decision Tree", dt); ("Random Forest", rf)]
                 "COCOMO I" = rmse cocomo) by reflexivity.
  assert (Hl : rmse_of [("COCOMO I", cocomo); ("Linear Regression", lr);
                        ("Decision Tree", dt); ("Random Forest", rf)]
                 "Linear Regression" = rmse lr) by reflexivity.
  assert (Hd : rmse_of [("COCOMO I", cocomo); ("Linear Regression", lr);
                        ("Decision Tree", dt); ("Random Forest", rf)]
                 "Decision Tree" = rmse dt) by reflexivity.
  assert (Hr : rmse_of [("COCOMO I", cocomo); ("Linear Regression", lr);
                        ("Decision Tree", dt); ("Random Forest", rf)]
                 "Random Forest" = rmse rf) by reflexivity.
  rewrite Hc, Hl, Hd, Hr.
  assert (Hkeys : forall (P : string -> Prop),
    P "COCOMO I" -> P "Linear Regression" -> P "Decision Tree" ->
    P "Random Forest" ->
    forall k, k ∈ ["COCOMO I"; "Linear Regression"; "Decision Tree";
                   "Random Forest"] -> P k).
  { intros P H1 H2 H3 H4 k Hk.
    repeat (apply elem_of_cons in Hk as [->|Hk]); try assumption.
    by apply elem_of_nil in Hk. }
  destruct (Rlt_dec (rmse lr) (rmse cocomo));
    [rewrite ?Hl; destruct (Rlt_dec (rmse dt) (rmse lr))
    |rewrite ?Hc; destruct (Rlt_dec (rmse dt) (rmse cocomo))];
    rewrite ?Hd, ?Hl, ?Hc;
    match goal with
    | |- context [Rlt_dec ?a ?b] => destruct (Rlt_dec a b)
    end;
    eexists; (split; [reflexivity|]);
    (split; [apply Hkeys; rewrite ?Hc, ?Hl, ?Hd, ?Hr; lra|]);
    first [ left; split; [reflexivity|]; lra
          | right; left; split; [reflexivity|]; lra
          | right; right; left; split; [reflexivity|]; lra
          | right; right; right; split; [reflexivity|]; lra ].
Qed.

(** C5. The reporter picks, among the formula and the three learned models,
    a candidate whose RMSE on the test partition is minimal.  When the RMSE
    of the formula is minimal the disk is left as it was; otherwise the
    winner is a learned model, and the disk changes in exactly two files:
    the winning estimator and the scaler. *)
Theorem save_best_persists_winner (cocomo lr dt rf : metrics)
    (lr_model dt_model rf_model : Model) (scaler : Scaler_state)
    (fs : gmap string (artifact Model Scaler_state)) :
  let results := collect_results cocomo lr dt rf in
  exists best fs',
    save_best Model Scaler_state results lr_model dt_model rf_model scaler fs
      = Ok (best, fs') /\
    best ∈ keys results /\
    (forall k, k ∈ keys results -> rmse_of results best <= rmse_of results k) /\
    (rmse cocomo <= rmse lr /\ rmse cocomo <= rmse dt /\
     rmse cocomo <= rmse rf ->
     best = "COCOMO I" /\ fs' = fs) /\
    (~ (rmse cocomo <= rmse lr /\ rmse cocomo <= rmse dt /\
        rmse cocomo <= rmse rf) ->
     exists model,
       (best, model) ∈ [("Linear Regression", lr_model);
                        ("Decision Tree", dt_model);
                        ("Random Forest", rf_model)] /\
       fs' = <["scaler.pkl" := Pickled_scaler Model Scaler_state scaler]>
               (<["trained_model.pkl" :=
                    Pickled_model Model Scaler_state (Some model)]> fs)).
Proof.
  intros results.
  destruct (best_model_cases cocomo lr dt rf) as (best & Hbest & Hmin & Hcase).
  fold results in Hbest, Hmin.
  unfold save_best. rewrite Hbest. simpl bind.
  destruct Hcase as [(-> & H1 & H2 & H3)
                    |[(-> & H1)|[(-> & H1)|(-> & H1)]]].
  - eexists _, _. split; [reflexivity|].
    split; [unfold results; rewrite collect_results_eq; set_solver|].
    split; [exact Hmin|]. split; [done|]. intros Hn. tauto.
  - eexists _, _. split; [reflexivity|].
    split; [unfold results; rewrite collect_results_eq; set_solver|].
    split; [exact Hmin|]. split; [intros (? & ? & ?); lra|].
    intros _. exists lr_model. split; [set_solver | reflexivity].
  - eexists _, _. split; [reflexivity|].
    split; [unfold results; rewrite collect_results_eq; set_solver|].
    split; [exact Hmin|]. split; [intros (? & ? & ?); lra|].
    intros _. exists dt_model. split; [set_solver | reflexivity].
  - eexists _, _. split; [reflexivity|].
    split; [unfold results; rewrite collect_results_eq; set_solver|].
    split; [exact Hmin|]. split; [intros (? & ? & ?); lra|].
    intros _. exists rf_model. split; [set_solver | reflexivity].
Qed.

End ReporterFacts.

(** ** Tables: what an operation leaves in memory *)

Section MemoryFacts.
Context {F : Type} `{Scalar F} {G : Type} `{Generator G}.

Abbreviation column' := (@column F).
Abbreviation world' := (@world F G).
Abbreviation M' := (@M F G).
Local Abbreviation Grows m := (@grows F G _ m).

Lemma mbind_inv {A B} (m : M' A) (k : A -> M' B) w b w'' :
  mbind m k w = Ok (b, w'') ->
  exists a w', m w = Ok (a, w') /\ k a w' = Ok (b, w'').
Proof.
  unfold mbind. destruct (m w) as [[a w']|e]; [eauto | discriminate].
Qed.

Lemma lift_inv {A} (r : result A) (w : world') a w' :
  lift r w = Ok (a, w') -> r = Ok a /\ w' = w.
Proof. unfold lift. destruct r; [|discriminate]. by intros [= -> ->]. Qed.

Lemma ret_inv {A} (x : A) (w : world') a w' :
  ret x w = Ok (a, w') -> a = x /\ w' = w.
Proof. unfold ret. by intros [= -> ->]. Qed.

Lemma load_inv (a : addr) (w : world') c w' :
  load a w = Ok (c, w') -> mem w !! a = Some c /\ w' = w.
Proof.
  unfold load. destruct (mem w !! a); [|discriminate]. by intros [= -> ->].
Qed.

Lemma alloc_inv (c : column') (w : world') a w' :
  alloc c w = Ok (a, w') ->
  a = List.length (mem w) /\ mem w' = mem w ++ [c] /\
  np_random w' = np_random w.
Proof. unfold alloc. by intros [= <- <-]. Qed.

Lemma extends_refl (w : world') : extends w w.
Proof. exists []. by rewrite app_nil_r. Qed.

Lemma extends_trans (w1 w2 w3 : world') :
  extends w1 w2 -> extends w2 w3 -> extends w1 w3.
Proof.
  intros [n1 H1] [n2 H2]. exists (n1 ++ n2). by rewrite H2, H1, app_assoc.
Qed.

Lemma extends_lookup (w w' : world') a c :
  extends w w' -> mem w !! a = Some c -> mem w' !! a = Some c.
Proof. intros [new ->] Ha. by apply lookup_app_l_Some. Qed.

Lemma extends_lookup_lt (w w' : world') a :
  extends w w' -> a < List.length (mem w) -> mem w' !! a = mem w !! a.
Proof. intros [new ->] Ha. by apply lookup_app_l. Qed.

Lemma extends_length (w w' : world') :
  extends w w' -> List.length (mem w) <= List.length (mem w').
Proof. intros [new ->]. rewrite length_app. lia. Qed.

Lemma grows_ret {A} (x : A) : Grows (ret x).
Proof. intros w a w' [_ ->]%ret_inv. apply extends_refl. Qed.

Lemma grows_lift {A} (r : result A) : Grows (lift r).
Proof. intros w a w' [_ ->]%lift_inv. apply extends_refl. Qed.

Lemma grows_load a : Grows (load a).
Proof. intros w c w' [_ ->]%load_inv. apply extends_refl. Qed.

Lemma grows_get_mem : Grows get_mem.
Proof. intros w c w'. unfold get_mem. intros [= _ <-]. apply extends_refl. Qed.

Lemma grows_alloc c : Grows (alloc c).
Proof. intros w a w' (_ & Hm & _)%alloc_inv. by exists [c]. Qed.

Lemma grows_bind {A B} (m : M' A) (k : A -> M' B) :
  Grows m -> (forall a, Grows (k a)) -> Grows (mbind m k).
Proof.
  intros Hm Hk w b w'' (a & w' & H1 & H2)%mbind_inv.
  eapply extends_trans; [by eapply Hm | by eapply Hk].
Qed.

Lemma grows_mapMM {A B} (f : A -> M' B) (l : list A) :
  (forall x, Grows (f x)) -> Grows (mapMM f l).
Proof.
  intros Hf. induction l as [|x l IH]; simpl; [apply grows_ret|].
  apply grows_bind; [apply Hf|]. intros y.
  apply grows_bind; [exact IH|]. intros ys. apply grows_ret.
Qed.

Lemma grows_rng_permutation rs n : Grows (rng_permutation rs n).
Proof.
  intros w p w'. unfold rng_permutation. destruct rs as [seed|].
  - intros [= _ <-]. apply extends_refl.
  - destruct (permutation (np_random w) n) as [q g].
    intros [= _ <-]. exists []. simpl. by rewrite app_nil_r.
Qed.

End MemoryFacts.

Create HintDb grows discriminated.
#[export] Hint Resolve grows_ret grows_lift grows_load grows_get_mem
  grows_alloc grows_rng_permutation : grows.

(** Decomposes a computation into its steps. *)
Ltac grows_step :=
  first
    [ apply grows_ret | apply grows_lift | apply grows_load
    | apply grows_get_mem | apply grows_alloc | apply grows_rng_permutation
    | apply grows_mapMM; intros
    | apply grows_bind; [|intros]
    | match goal with
      | |- grows (match ?x with _ => _ end) => destruct x
      | |- grows (let '(_, _) := ?x in _) => destruct x
      end
    | solve [auto with grows] ].

Ltac grows_tac := repeat grows_step.

Section OperationFacts.
Context {F : Type} `{Scalar F} {G : Type} `{Generator G}.

Abbreviation column' := (@column F).
Abbreviation world' := (@world F G).
Abbreviation M' := (@M F G).
Local Abbreviation Grows m := (@grows F G _ m).

Lemma grows_copy_column ka : Grows (copy_column ka).
Proof. unfold copy_column. grows_tac. Qed.

Lemma grows_copy fr : Grows (copy fr).
Proof. unfold copy. grows_tac. Qed.

Lemma grows_select fr ks : Grows (select fr ks).
Proof. unfold select. grows_tac. Qed.

Lemma grows_concat a b : Grows (concat a b).
Proof. unfold concat. grows_tac. Qed.

Lemma grows_setitem fr k c : Grows (setitem fr k c).
Proof. unfold setitem. grows_tac. Qed.

Lemma grows_get_dummies data col prefix :
  Grows (get_dummies data col prefix).
Proof.
  unfold get_dummies. grows_tac.
Qed.

Lemma grows_build_features data : Grows (build_features data).
Proof.
  unfold build_features.
  apply grows_bind; [apply grows_get_dummies|]. intros data_encoded.
  apply grows_bind; [apply grows_select|]. intros l.
  apply grows_bind; [apply grows_select|]. intros r.
  apply grows_concat.
Qed.

Lemma grows_numeric_labels cols : Grows (numeric_labels cols).
Proof.
  induction cols as [|[k a] cols IH]; simpl; [apply grows_ret|].
  apply grows_bind; [apply grows_load|]. intros c.
  apply grows_bind; [exact IH|]. intros ks. apply grows_ret.
Qed.

Lemma grows_numeric_values a : Grows (numeric_values a).
Proof. unfold numeric_values. grows_tac. Qed.

Lemma grows_setitem_many fr ks features :
  Grows (setitem_many fr ks features).
Proof.
  revert fr features. induction ks as [|k ks IH]; intros fr [|xs features];
    simpl; try apply grows_ret.
  apply grows_bind; [apply grows_setitem|]. intros fr'. apply IH.
Qed.

Lemma grows_log1p_series y : Grows (log1p_series y).
Proof. unfold log1p_series. grows_tac. Qed.

Lemma grows_take_frame fr idx : Grows (take_frame fr idx).
Proof. unfold take_frame. grows_tac. Qed.

Lemma grows_take_series s idx : Grows (take_series s idx).
Proof. unfold take_series. grows_tac. Qed.

Lemma grows_train_test_split X y test_size rs :
  Grows (train_test_split X y test_size rs).
Proof.
  unfold train_test_split.
  apply grows_bind; [apply grows_lift|]. intros _.
  apply grows_bind; [apply grows_lift|]. intros [n_train n_test].
  apply grows_bind; [apply grows_rng_permutation|]. intros perm.
  apply grows_bind; [apply grows_take_frame|]. intros X_train.
  apply grows_bind; [apply grows_take_frame|]. intros X_test.
  apply grows_bind; [apply grows_take_series|]. intros y_train.
  apply grows_bind; [apply grows_take_series|]. intros y_test.
  apply grows_ret.
Qed.

Lemma grows_apply_rows f data : Grows (apply_rows f data).
Proof. unfold apply_rows. grows_tac. Qed.

Lemma grows_loc_values data labels k :
  Grows (loc_values data labels k).
Proof.
  unfold loc_values. grows_tac.
Qed.

Lemma cols_ok_valid n (m : list column') cols : cols_ok n (contents m cols) = true -> valid m cols.
Proof.
  unfold cols_ok, contents, valid. rewrite forallb_forall, Forall_forall.
  intros Hok ka Hka. apply list_elem_of_In in Hka.
  specialize (Hok (m !! snd ka)).
  destruct (m !! snd ka) as [c|] eqn:Hc.
  - by apply lookup_lt_Some in Hc.
  - discriminate Hok. apply in_map_iff. eauto.
Qed.

Lemma contents_extends (w w' : world') cols :
  extends w w' -> valid (mem w) cols ->
  contents (mem w') cols = contents (mem w) cols.
Proof.
  intros Hext Hv. unfold contents. apply map_ext_Forall.
  eapply Forall_impl; [exact Hv|]. intros ka Hka. simpl.
  by apply extends_lookup_lt.
Qed.

Lemma valid_extends (w w' : world') cols :
  extends w w' -> valid (mem w) cols -> valid (mem w') cols.
Proof.
  intros Hext%extends_length Hv. eapply Forall_impl; [exact Hv|].
  simpl. intros. lia.
Qed.

Lemma copy_column_inv ka (w : world') ka' w' :
  copy_column ka w = Ok (ka', w') ->
  exists c, mem w !! snd ka = Some c /\ mem w' = mem w ++ [c] /\
            ka' = (fst ka, List.length (mem w)).
Proof.
  unfold copy_column.
  intros (c & w1 & [Hc ->]%load_inv & H1)%mbind_inv.
  apply mbind_inv in H1 as (a' & w2 & (-> & Hm & _)%alloc_inv & H2).
  apply ret_inv in H2 as [-> ->]. eauto.
Qed.

(** Copies hold what the originals hold, under the same labels, in new
    buffers. *)
Lemma copy_columns_inv cols : forall (w : world') cols' w',
  valid (mem w) cols ->
  mapMM copy_column cols w = Ok (cols', w') ->
  extends w w' /\ map fst cols' = map fst cols /\
  contents (mem w') cols' = contents (mem w) cols /\
  valid (mem w') cols' /\ fresh w cols'.
Proof.
  induction cols as [|ka cols IH]; intros w cols' w' Hv; simpl.
  - intros [-> ->]%ret_inv. repeat split; try constructor.
    apply extends_refl.
  - intros (ka' & w1 & Hc & H1)%mbind_inv.
    apply mbind_inv in H1 as (rest & w2 & Hrest & H2).
    apply ret_inv in H2 as [-> ->].
    apply copy_column_inv in Hc as (c & Hc & Hm1 & ->).
    inversion Hv as [|? ? Hka Hv']; subst.
    assert (Hext1 : extends w w1) by (by exists [c]).
    destruct (IH w1 rest w2 (valid_extends _ _ _ Hext1 Hv') Hrest)
      as (Hext2 & Hn & Hcont & Hval & Hfresh).
    assert (Hlen : List.length (mem w) < List.length (mem w1)).
    { rewrite Hm1, length_app. simpl. lia. }
    split; [by eapply extends_trans|].
    split; [simpl; by f_equal|].
    split; [|split].
    + simpl. f_equal.
      * rewrite (extends_lookup_lt w1 w2 _ Hext2 Hlen), Hm1.
        rewrite lookup_app_r by lia. by rewrite Nat.sub_diag, Hc.
      * rewrite Hcont. by apply contents_extends.
    + constructor; [|exact Hval]. simpl.
      apply extends_length in Hext2. lia.
    + constructor; [simpl; lia|].
      eapply Forall_impl; [exact Hfresh|]. simpl. intros. lia.
Qed.

Lemma mapM_Forall2 {A B} (f : A -> result B) l ys :
  mapM f l = Ok ys -> Forall2 (fun x y => f x = Ok y) l ys.
Proof.
  revert ys. induction l as [|x l IH]; simpl; intros ys.
  - intros [= <-]. constructor.
  - intros (y & Hy & H1)%bind_Ok_inv.
    apply bind_Ok_inv in H1 as (ys' & Hys & [= <-]).
    constructor; [exact Hy | by apply IH].
Qed.

Lemma Forall2_mapM {A B} (f : A -> result B) l ys :
  Forall2 (fun x y => f x = Ok y) l ys -> mapM f l = Ok ys.
Proof.
  induction 1 as [|x y l ys Hxy _ IH]; simpl; [reflexivity|].
  by rewrite Hxy, IH.
Qed.

Lemma mapM_length {A B} (f : A -> result B) l ys :
  mapM f l = Ok ys -> List.length ys = List.length l.
Proof. intros Hm%mapM_Forall2. symmetry. by eapply Forall2_length. Qed.

Lemma mapM_ext {A B} (f g : A -> result B) l :
  Forall (fun x => f x = g x) l -> mapM f l = mapM g l.
Proof.
  induction 1 as [|x l Hx _ IH]; simpl; [reflexivity|].
  by rewrite Hx, IH.
Qed.

Lemma getcol_elem cols k a : getcol cols k = Ok a -> (k, a) ∈ cols.
Proof.
  induction cols as [|[k' a'] cols IH]; simpl; [discriminate|].
  destruct (String.eqb_spec k' k) as [->|Hne].
  - intros [= ->]. by left.
  - intros Hg. right. by apply IH.
Qed.

Lemma getcol_unique cols k a :
  NoDup (map fst cols) -> (k, a) ∈ cols -> getcol cols k = Ok a.
Proof.
  induction cols as [|[k' a'] cols IH]; simpl; intros Hnd Hin.
  - by apply elem_of_nil in Hin.
  - inversion Hnd as [|? ? Hk' Hnd']; subst.
    destruct (String.eqb_spec k' k) as [->|Hne].
    + apply elem_of_cons in Hin as [[= ->]|Hin]; [reflexivity|].
      exfalso. apply Hk'. apply list_elem_of_fmap. by exists (k, a).
    + apply elem_of_cons in Hin as [[= -> ->]|Hin]; [done|]. by apply IH.
Qed.

Lemma getcol_dict_set cols k (a : addr) : getcol (dict_set cols k a) k = Ok a.
Proof.
  induction cols as [|[k' a'] cols IH]; simpl.
  - by rewrite String.eqb_refl.
  - destruct (String.eqb_spec k' k) as [->|Hne]; simpl.
    + by rewrite String.eqb_refl.
    + destruct (String.eqb_spec k' k); [done | exact IH].
Qed.

(** What [fr[[ks]]] picks: one column per label, each from the table. *)
Lemma pick_inv cols ks picked :
  mapM (fun k => do a <- getcol cols k; Ok (k, a)) ks = Ok picked ->
  map fst picked = ks /\ Forall (fun ka => ka ∈ cols) picked.
Proof.
  intros Hm%mapM_Forall2.
  induction Hm as [|k ka ks picked Hk _ [IH1 IH2]]; [by split|].
  apply bind_Ok_inv in Hk as (a & Ha & [= <-]).
  split; [simpl; by f_equal|].
  constructor; [by apply getcol_elem | exact IH2].
Qed.

Lemma pick_sub cols sub :
  NoDup (map fst cols) -> Forall (fun ka => ka ∈ cols) sub ->
  mapM (fun k => do a <- getcol cols k; Ok (k, a)) (map fst sub) = Ok sub.
Proof.
  intros Hnd. induction 1 as [|[k a] sub Hka _ IH]; simpl; [reflexivity|].
  rewrite (getcol_unique cols k a Hnd Hka). simpl. by rewrite IH.
Qed.

Lemma cols_ok_Forall n (m : list column') cols :
  cols_ok n (contents m cols) = true <->
  Forall (fun ka => exists c, m !! snd ka = Some c /\ col_length c = n) cols.
Proof.
  unfold cols_ok, contents. induction cols as [|ka cols IH]; simpl.
  - split; [constructor | reflexivity].
  - rewrite andb_true_iff, IH, Forall_cons.
    destruct (m !! snd ka) as [c|].
    + rewrite Nat.eqb_eq. split.
      * intros [Hc Hr]. split; [eauto | exact Hr].
      * intros [(c' & [= <-] & Hc) Hr]. by split.
    + split; [intros [[=] _] | intros [(c' & [=] & _) _]].
Qed.

Lemma valid_sub (m : list column') cols sub :
  valid m cols -> Forall (fun ka => ka ∈ cols) sub -> valid m sub.
Proof.
  unfold valid. rewrite !Forall_forall. intros Hv Hs ka Hka.
  apply Hv. by apply Hs.
Qed.

Lemma cols_ok_sub n (m : list column') cols sub :
  cols_ok n (contents m cols) = true -> Forall (fun ka => ka ∈ cols) sub ->
  cols_ok n (contents m sub) = true.
Proof.
  rewrite !cols_ok_Forall, !Forall_forall. intros Hv Hs ka Hka.
  apply Hv. by apply Hs.
Qed.

Lemma cols_ok_app n (cs1 cs2 : list (option column')) :
  cols_ok n (cs1 ++ cs2) = cols_ok n cs1 && cols_ok n cs2.
Proof. unfold cols_ok. apply forallb_app. Qed.

Lemma contents_app (m : list column') cols1 cols2 :
  contents m (cols1 ++ cols2) = contents m cols1 ++ contents m cols2.
Proof. unfold contents. apply map_app. Qed.

Lemma select_inv fr ks (w : world') fr' w' :
  valid (mem w) (columns fr) ->
  select fr ks w = Ok (fr', w') ->
  exists picked,
    mapM (fun k => do a <- getcol (columns fr) k; Ok (k, a)) ks = Ok picked /\
    index fr' = index fr /\ map fst (columns fr') = ks /\
    extends w w' /\
    contents (mem w') (columns fr') = contents (mem w) picked /\
    valid (mem w') (columns fr') /\ fresh w (columns fr').
Proof.
  intros Hv. unfold select.
  intros (picked & w1 & [Hp ->]%lift_inv & H1)%mbind_inv.
  apply mbind_inv in H1 as (cols & w2 & Hc & H2).
  apply ret_inv in H2 as [-> ->].
  destruct (pick_inv _ _ _ Hp) as [Hn Hsub].
  apply copy_columns_inv in Hc as (Hext & Hn' & Hcont & Hval & Hfr);
    [|by eapply valid_sub].
  exists picked. simpl. rewrite Hn', Hn. by repeat split.
Qed.

Lemma filter_sub {A} (f : A -> bool) (l : list A) :
  Forall (fun x => x ∈ l) (List.filter f l).
Proof.
  apply Forall_forall. intros x Hx. apply list_elem_of_In.
  apply list_elem_of_In in Hx. by apply filter_In in Hx as [Hx _].
Qed.

Lemma dummy_columns_length prefix (c : column') :
  Forall (fun kb => List.length (snd kb) = col_length c)
         (dummy_columns prefix c).
Proof.
  destruct c as [xs|xs|xs]; simpl; apply Forall_forall; intros kb Hkb;
    apply list_elem_of_fmap in Hkb as (l & -> & _); simpl;
    by rewrite length_map.
Qed.

Lemma alloc_dummies_inv kbs : forall (w : world') cols w',
  mapMM alloc_dummy kbs w = Ok (cols, w') ->
  extends w w' /\ map fst cols = map fst kbs /\
  contents (mem w') cols = map (fun kb => Some (BoolCol (snd kb))) kbs /\
  valid (mem w') cols /\ fresh w cols.
Proof.
  induction kbs as [|kb kbs IH]; intros w cols w'; simpl.
  - intros [-> ->]%ret_inv. repeat split; try constructor.
    apply extends_refl.
  - intros (ka & w1' & Hd & H1)%mbind_inv.
    apply mbind_inv in H1 as (rest & w2 & Hrest & H2).
    apply ret_inv in H2 as [-> ->].
    unfold alloc_dummy in Hd.
    apply mbind_inv in Hd as (a & w1 & (-> & Hm1 & _)%alloc_inv & H2).
    apply ret_inv in H2 as [-> ->].
    assert (Hext1 : extends w w1) by (by eexists).
    destruct (IH w1 rest w2 Hrest) as (Hext2 & Hn & Hcont & Hval & Hfresh).
    assert (Hlen : List.length (mem w) < List.length (mem w1)).
    { rewrite Hm1, length_app. simpl. lia. }
    split; [by eapply extends_trans|].
    split; [simpl; by f_equal|].
    split; [|split].
    + simpl. f_equal; [|exact Hcont].
      rewrite (extends_lookup_lt w1 w2 _ Hext2 Hlen), Hm1.
      rewrite lookup_app_r by lia. by rewrite Nat.sub_diag.
    + constructor; [|exact Hval]. simpl.
      apply extends_length in Hext2. lia.
    + constructor; [simpl; lia|].
      eapply Forall_impl; [exact Hfresh|]. simpl. intros. lia.
Qed.

Lemma fresh_extends (w w' : world') cols :
  extends w w' -> fresh w' cols -> fresh w cols.
Proof.
  intros Hext%extends_length Hf. eapply Forall_impl; [exact Hf|].
  simpl. intros. lia.
Qed.

Lemma table_ok_valid (m : list column') fr :
  table_ok m fr = true -> valid m (columns fr).
Proof. apply cols_ok_valid. Qed.

(** Line 29 leaves a table over the same index: the other columns, copied,
    then the indicators of the encoded column. *)
Lemma get_dummies_inv data col prefix (w : world') enc w' :
  table_ok (mem w) data = true ->
  get_dummies data col prefix w = Ok (enc, w') ->
  exists a c,
    getcol (columns data) col = Ok a /\ mem w !! a = Some c /\
    extends w w' /\ index enc = index data /\
    map fst (columns enc) =
      map fst (List.filter (fun ka => negb (String.eqb (fst ka) col))
                           (columns data))
      ++ map fst (dummy_columns prefix c) /\
    contents (mem w') (columns enc) =
      contents (mem w)
        (List.filter (fun ka => negb (String.eqb (fst ka) col)) (columns data))
      ++ map (fun kb => Some (BoolCol (snd kb))) (dummy_columns prefix c) /\
    table_ok (mem w') enc = true /\ fresh w (columns enc).
Proof.
  intros Hok. unfold get_dummies.
  intros (a & w1 & [Ha ->]%lift_inv & H1)%mbind_inv.
  apply mbind_inv in H1 as (c & w2 & [Hc ->]%load_inv & H1).
  apply mbind_inv in H1 as (kept & w2 & Hkept & H1).
  apply mbind_inv in H1 as (dummies & w3 & Hdum & H1).
  apply ret_inv in H1 as [-> ->].
  pose proof (table_ok_valid _ _ Hok) as Hv.
  apply copy_columns_inv in Hkept as (Hext1 & Hn1 & Hc1 & Hv1 & Hf1);
    [|eapply valid_sub; [exact Hv | apply filter_sub]].
  apply alloc_dummies_inv in Hdum as (Hext2 & Hn2 & Hc2 & Hv2 & Hf2).
  assert (Hcont : contents (mem w3) (kept ++ dummies) =
    contents (mem w)
      (List.filter (fun ka => negb (String.eqb (fst ka) col)) (columns data))
    ++ map (fun kb => Some (BoolCol (snd kb))) (dummy_columns prefix c)).
  { rewrite contents_app, Hc2.
    by rewrite (contents_extends w2 w3 kept Hext2 Hv1), Hc1. }
  exists a, c. simpl.
  split; [exact Ha|]. split; [exact Hc|].
  split; [by eapply extends_trans|]. split; [reflexivity|].
  split; [by rewrite map_app, Hn1, Hn2|]. split; [exact Hcont|].
  split.
  - unfold table_ok. simpl. rewrite Hcont, cols_ok_app.
    apply andb_true_iff. split.
    + eapply cols_ok_sub; [exact Hok | apply filter_sub].
    + assert (Hlc : col_length c = List.length (index data)).
      { apply cols_ok_Forall in Hok. rewrite Forall_forall in Hok.
        destruct (Hok (col, a) (getcol_elem _ _ _ Ha)) as (c' & Hc' & Hl).
        simpl in Hc'. congruence. }
      unfold cols_ok. rewrite forallb_forall. intros oc Hoc.
      apply in_map_iff in Hoc as (kb & <- & Hkb).
      apply Nat.eqb_eq. simpl. rewrite <- Hlc.
      pose proof (dummy_columns_length prefix c) as Hd.
      rewrite Forall_forall in Hd. apply Hd. by apply list_elem_of_In.
  - apply Forall_app. split; [exact Hf1|].
    by eapply fresh_extends.
Qed.

Lemma concat_inv a b (w : world') fr w' :
  valid (mem w) (columns a) -> valid (mem w) (columns b) ->
  concat a b w = Ok (fr, w') ->
  extends w w' /\ index fr = index a /\
  map fst (columns fr) = map fst (columns a) ++ map fst (columns b) /\
  contents (mem w') (columns fr) =
    contents (mem w) (columns a) ++ contents (mem w) (columns b) /\
  valid (mem w') (columns fr) /\ fresh w (columns fr).
Proof.
  intros Ha Hb. unfold concat.
  intros (cols & w1 & Hc & H1)%mbind_inv.
  apply ret_inv in H1 as [-> ->]. simpl.
  apply copy_columns_inv in Hc as (Hext & Hn & Hcont & Hv & Hf);
    [|by apply Forall_app].
  rewrite Hn, Hcont, map_app, contents_app. by repeat split.
Qed.

(** Lines 29-35 leave a table over the index of [data], with the nineteen
    feature labels, in buffers of its own. *)
Lemma build_features_inv data (w : world') X w' :
  table_ok (mem w) data = true ->
  build_features data w = Ok (X, w') ->
  extends w w' /\ index X = index data /\
  map fst (columns X) =
    ("loc" :: cost_drivers)
    ++ ["mode_embedded"; "mode_organic"; "mode_semidetached"] /\
  table_ok (mem w') X = true /\ fresh w (columns X).
Proof.
  intros Hok. unfold build_features.
  intros (enc & w1 & Henc & H1)%mbind_inv.
  apply mbind_inv in H1 as (l & w2 & Hl & H1).
  apply mbind_inv in H1 as (r & w3 & Hr & H1).
  apply get_dummies_inv in Henc
    as (a & c & _ & _ & Hext1 & Hi1 & _ & _ & Hok1 & _); [|exact Hok].
  pose proof (table_ok_valid _ _ Hok) as Hv.
  apply select_inv in Hl
    as (pl & Hpl & Hil & Hnl & Hext2 & Hcl & Hvl & Hfl);
    [|by eapply valid_extends].
  assert (Hok1' : table_ok (mem w2) enc = true).
  { unfold table_ok.
    rewrite (contents_extends w1 w2 _ Hext2 (table_ok_valid _ _ Hok1)).
    exact Hok1. }
  apply select_inv in Hr
    as (pr & Hpr & Hir & Hnr & Hext3 & Hcr & Hvr & Hfr);
    [|by apply table_ok_valid].
  apply concat_inv in H1 as (Hext4 & Hi & Hn & Hcont & Hvx & Hfx);
    [|by eapply valid_extends|exact Hvr].
  assert (Hext : extends w w3).
  { eapply extends_trans; [exact Hext1|].
    eapply extends_trans; [exact Hext2 | exact Hext3]. }
  split; [by eapply extends_trans|].
  split; [by rewrite Hi, Hil|].
  split; [by rewrite Hn, Hnl, Hnr|].
  split; [|by eapply fresh_extends].
  unfold table_ok. rewrite Hcont, cols_ok_app, Hi, Hil.
  apply andb_true_iff. split.
  - rewrite (contents_extends w2 w3 _ Hext3 Hvl), Hcl.
    destruct (pick_inv _ _ _ Hpl) as [_ Hsub].
    rewrite (contents_extends w w1 pl Hext1) by (by eapply valid_sub).
    eapply cols_ok_sub; [exact Hok | exact Hsub].
  - rewrite Hcr. destruct (pick_inv _ _ _ Hpr) as [_ Hsub].
    rewrite <- Hi1. eapply cols_ok_sub; [exact Hok1' | exact Hsub].
Qed.

Lemma store_inv (a : addr) (c : column') (w : world') u w' :
  store a c w = Ok (u, w') ->
  mem w' = <[a := c]> (mem w) /\ np_random w' = np_random w.
Proof. unfold store. by intros [= _ <-]. Qed.

Lemma impute_column_length (c c' : column') :
  impute_column c = Ok c' -> col_length c' = col_length c.
Proof.
  destruct c as [xs|xs|xs]; simpl.
  - intros [= <-]. simpl. apply length_map.
  - destruct (most_frequent (strings_of xs)); [|discriminate].
    intros [= <-]. simpl. apply length_map.
  - by intros [= <-].
Qed.

(** The imputer writes into the buffers it is given and nowhere else, and
    keeps the length of every buffer. *)
Lemma impute_inv cols : forall (w : world') u w',
  impute cols w = Ok (u, w') ->
  List.length (mem w') = List.length (mem w) /\
  (forall a, a ∉ map snd cols -> mem w' !! a = mem w !! a) /\
  (forall a c, mem w !! a = Some c ->
     exists c', mem w' !! a = Some c' /\ col_length c' = col_length c).
Proof.
  induction cols as [|[k a] cols IH]; intros w u w'; simpl.
  - intros [_ ->]%ret_inv. repeat split; eauto.
  - intros (c & w0 & [Hc ->]%load_inv & H1)%mbind_inv.
    apply mbind_inv in H1 as (c1 & w0 & [Hc1 ->]%lift_inv & H1).
    apply mbind_inv in H1 as (u1 & w1 & [Hm1 _]%store_inv & H1).
    destruct (IH w1 u w' H1) as (Hlen & Hout & Hkeep).
    pose proof (lookup_lt_Some _ _ _ Hc) as Ha.
    split; [by rewrite Hlen, Hm1, length_insert|]. split.
    + intros b Hb. rewrite not_elem_of_cons in Hb. destruct Hb as [Hne Hb].
      rewrite (Hout b Hb), Hm1. by apply list_lookup_insert_ne.
    + intros b cb Hcb. destruct (decide (a = b)) as [<-|Hne].
      * destruct (Hkeep a c1) as (c' & Hc' & Hl).
        { rewrite Hm1. by apply list_lookup_insert_eq. }
        exists c'. split; [exact Hc'|].
        rewrite Hl, (impute_column_length _ _ Hc1). congruence.
      * apply Hkeep. rewrite Hm1. by rewrite list_lookup_insert_ne.
Qed.

Lemma impute_table_ok fr (w : world') u w' :
  table_ok (mem w) fr = true -> impute (columns fr) w = Ok (u, w') ->
  table_ok (mem w') fr = true.
Proof.
  intros Hok (_ & _ & Hkeep)%impute_inv. unfold table_ok in *.
  apply cols_ok_Forall. apply cols_ok_Forall in Hok.
  eapply Forall_impl; [exact Hok|]. simpl.
  intros ka (c & Hc & Hl). destruct (Hkeep _ _ Hc) as (c' & Hc' & Hl').
  exists c'. split; [exact Hc' | congruence].
Qed.

Lemma numeric_labels_inv cols : forall (w : world') ks w',
  numeric_labels cols w = Ok (ks, w') ->
  w' = w /\ ks = map fst (List.filter (is_numeric_at (mem w)) cols).
Proof.
  induction cols as [|[k a] cols IH]; intros w ks w'; simpl.
  - by intros [-> ->]%ret_inv.
  - intros (c & w0 & [Hc ->]%load_inv & H1)%mbind_inv.
    apply mbind_inv in H1 as (ks' & w1 & Hks & H1).
    apply ret_inv in H1 as [-> ->].
    destruct (IH _ _ _ Hks) as [-> ->]. split; [reflexivity|].
    assert (Hn : is_numeric_at (mem w) (k, a) = is_numeric c).
    { unfold is_numeric_at. simpl. by rewrite Hc. }
    rewrite Hn. by destruct (is_numeric c).
Qed.

Lemma numeric_values_inv cols : forall (w : world') features w',
  mapMM (fun ka => numeric_values (snd ka)) cols w = Ok (features, w') ->
  w' = w /\ contents (mem w) cols = map (fun xs => Some (NumCol xs)) features.
Proof.
  induction cols as [|[k a] cols IH]; intros w features w'; simpl.
  - by intros [-> ->]%ret_inv.
  - intros (xs & w0 & Hxs & H1)%mbind_inv.
    apply mbind_inv in H1 as (rest & w1 & Hrest & H1).
    apply ret_inv in H1 as [-> ->].
    unfold numeric_values in Hxs.
    apply mbind_inv in Hxs as (c & w2 & [Hc ->]%load_inv & Hxs).
    destruct c as [ys|ys|ys];
      try (apply lift_inv in Hxs as [[=] _]).
    apply ret_inv in Hxs as [-> ->].
    destruct (IH _ _ _ Hrest) as [-> Hcont].
    split; [reflexivity|]. simpl. by rewrite Hc, Hcont.
Qed.

Lemma numeric_part_cons (m : list column') ka cols :
  numeric_part (contents m (ka :: cols)) =
  match m !! snd ka with
  | Some (NumCol xs) => xs :: numeric_part (contents m cols)
  | _ => numeric_part (contents m cols)
  end.
Proof.
  unfold numeric_part, contents. simpl.
  by destruct (m !! snd ka) as [[xs|xs|xs]|].
Qed.

Lemma numeric_part_filter (m : list column') cols :
  numeric_part (contents m (List.filter (is_numeric_at m) cols)) =
  numeric_part (contents m cols).
Proof.
  induction cols as [|ka cols IH]; [reflexivity|].
  rewrite numeric_part_cons. simpl. unfold is_numeric_at at 1.
  destruct (m !! snd ka) as [[xs|xs|xs]|] eqn:Hc; simpl;
    rewrite ?numeric_part_cons, ?Hc; by rewrite IH.
Qed.

Lemma numeric_part_floats (features : list (list F)) :
  numeric_part (map (fun xs => Some (NumCol xs)) features) = features.
Proof.
  induction features as [|xs features IH]; [reflexivity|].
  simpl. f_equal. exact IH.
Qed.

Lemma numeric_part_lengths n (cs : list (option column')) :
  cols_ok n cs = true ->
  Forall (fun xs => List.length xs = n) (numeric_part cs).
Proof.
  induction cs as [|oc cs IH]; simpl; [constructor|].
  rewrite andb_true_iff. intros [Hoc Hcs].
  destruct oc as [[xs|xs|xs]|]; simpl; try (by apply IH).
  constructor; [by apply Nat.eqb_eq | by apply IH].
Qed.

Lemma fit_transform_inv (features : list (list F)) s scaled :
  fit_transform features = Ok (s, scaled) ->
  s = fit features /\ scaled = transform (fit features) features.
Proof.
  unfold fit_transform. intros (u & _ & [= <- <-])%bind_Ok_inv. by split.
Qed.

Lemma dict_set_snd (Q : addr -> Prop) cols k (a : addr) :
  Forall (fun ka => Q (snd ka)) cols -> Q a ->
  Forall (fun ka => Q (snd ka)) (dict_set cols k a).
Proof.
  intros Hall Ha. induction Hall as [|[k' a'] cols Hk Hrest IH]; simpl.
  - by repeat constructor.
  - destruct (String.eqb k' k); constructor; assumption.
Qed.

Lemma setitem_inv fr k (c : column') (w : world') fr' w' :
  setitem fr k c w = Ok (fr', w') ->
  index fr' = index fr /\
  columns fr' = dict_set (columns fr) k (List.length (mem w)) /\
  mem w' = mem w ++ [c].
Proof.
  unfold setitem.
  intros (a & w1 & (-> & Hm & _)%alloc_inv & H1)%mbind_inv.
  by apply ret_inv in H1 as [-> ->].
Qed.

Lemma setitem_many_inv ks : forall fr features (w : world') fr' w' n,
  setitem_many fr ks features w = Ok (fr', w') ->
  n <= List.length (mem w) ->
  Forall (fun ka => n <= snd ka) (columns fr) ->
  index fr' = index fr /\ Forall (fun ka => n <= snd ka) (columns fr').
Proof.
  induction ks as [|k ks IH]; intros fr [|xs features] w fr' w' n; simpl;
    try (intros [-> ->]%ret_inv; by split).
  intros (fr1 & w1 & (Hi & Hc & Hm)%setitem_inv & H1)%mbind_inv Hn Hfr.
  destruct (IH fr1 features w1 fr' w' n H1) as [Hi' Hf'].
  - rewrite Hm, length_app. lia.
  - rewrite Hc. by apply (dict_set_snd (fun a => n <= a)).
  - split; [congruence | exact Hf'].
Qed.

Lemma log1p_series_inv y (w : world') y' w' :
  log1p_series y w = Ok (y', w') -> s_index y' = s_index y.
Proof.
  unfold log1p_series.
  intros (c & w1 & _ & H1)%mbind_inv.
  destruct c as [xs|xs|xs].
  - apply mbind_inv in H1 as (a & w2 & _ & H1).
    by apply ret_inv in H1 as [-> _].
  - by apply lift_inv in H1 as [[=] _].
  - apply mbind_inv in H1 as (a & w2 & _ & H1).
    by apply ret_inv in H1 as [-> _].
Qed.

Lemma take_frame_index fr idx (w : world') fr' w' :
  take_frame fr idx w = Ok (fr', w') ->
  mapM (at_pos (index fr)) idx = Ok (index fr').
Proof.
  unfold take_frame.
  intros (labels & w1 & [Hl ->]%lift_inv & H1)%mbind_inv.
  apply mbind_inv in H1 as (cols & w2 & _ & H1).
  by apply ret_inv in H1 as [-> _].
Qed.

Lemma take_series_index sr idx (w : world') sr' w' :
  take_series sr idx w = Ok (sr', w') ->
  mapM (at_pos (s_index sr)) idx = Ok (s_index sr').
Proof.
  unfold take_series.
  intros (labels & w1 & [Hl ->]%lift_inv & H1)%mbind_inv.
  apply mbind_inv in H1 as (c & w2 & _ & H1).
  apply mbind_inv in H1 as (c' & w3 & _ & H1).
  apply mbind_inv in H1 as (a & w4 & _ & H1).
  by apply ret_inv in H1 as [-> _].
Qed.

(** The four partitions are taken at the positions the permutation gives:
    the first [n_test] for the test side, the next [n_train] for the train
    side. *)
Lemma train_test_split_inv X y test_size rs (w : world')
    X_train X_test y_train y_test w' :
  train_test_split X y test_size rs w =
    Ok ((X_train, X_test, y_train, y_test), w') ->
  exists n_train n_test perm,
    List.length (s_index y) = List.length (index X) /\
    validate_shuffle_split (List.length (index X)) test_size =
      Ok (n_train, n_test) /\
    (forall seed, rs = Some seed ->
       perm = fst (permutation (RandomState seed) (List.length (index X)))) /\
    mapM (at_pos (index X)) (take n_train (drop n_test perm)) =
      Ok (index X_train) /\
    mapM (at_pos (index X)) (take n_test perm) = Ok (index X_test) /\
    mapM (at_pos (s_index y)) (take n_train (drop n_test perm)) =
      Ok (s_index y_train) /\
    mapM (at_pos (s_index y)) (take n_test perm) = Ok (s_index y_test).
Proof.
  unfold train_test_split.
  intros (u & w1 & [Hlen ->]%lift_inv & H1)%mbind_inv.
  apply mbind_inv in H1 as ([n_train n_test] & w1 & [Hv ->]%lift_inv & H1).
  apply mbind_inv in H1 as (perm & w2 & Hperm & H1).
  apply mbind_inv in H1 as (Xtr & w3 & Htr & H1).
  apply mbind_inv in H1 as (Xte & w4 & Hte & H1).
  apply mbind_inv in H1 as (ytr & w5 & Hytr & H1).
  apply mbind_inv in H1 as (yte & w6 & Hyte & H1).
  apply ret_inv in H1 as [[= -> -> -> ->] ->].
  exists n_train, n_test, perm.
  split.
  { destruct (Nat.eqb_spec (List.length (s_index y))
                           (List.length (index X))); [done | discriminate]. }
  split; [exact Hv|]. split.
  { intros seed ->. unfold rng_permutation in Hperm. by injection Hperm. }
  split; [by eapply take_frame_index|].
  split; [by eapply take_frame_index|].
  split; by eapply take_series_index.
Qed.

Lemma at_pos_elem {A} (xs : list A) i x : at_pos xs i = Ok x -> x ∈ xs.
Proof.
  unfold at_pos. destruct (xs !! i) eqn:Hi; [|discriminate].
  intros [= <-]. by eapply list_elem_of_lookup_2.
Qed.

Lemma mapM_at_pos_elem {A} (xs : list A) idx ys :
  mapM (at_pos xs) idx = Ok ys -> Forall (fun y => y ∈ xs) ys.
Proof.
  intros Hm%mapM_Forall2.
  induction Hm as [|i y idx ys Hy _ IH]; constructor;
    [by eapply at_pos_elem | exact IH].
Qed.

(** A row depends on memory through the buffers of the table only. *)
Lemma row_at_contents (m m' : list column') cols i :
  contents m cols = contents m' cols -> row_at m cols i = row_at m' cols i.
Proof.
  intros Hc. unfold row_at. f_equal. apply mapM_ext.
  unfold contents in Hc. induction cols as [|ka cols IH]; constructor.
  - injection Hc as Hka _. unfold at_pos. by rewrite Hka.
  - apply IH. by injection Hc.
Qed.

Lemma apply_rows_inv f data (w : world') effort w' :
  apply_rows f data w = Ok (effort, w') ->
  w' = w /\
  mapM (fun i => do r <- row_at (mem w) (columns data) i; f r)
       (seq 0 (List.length (index data))) = Ok effort.
Proof.
  unfold apply_rows, get_mem.
  intros (m & w1 & [= <- <-] & H1)%mbind_inv.
  by apply lift_inv in H1 as [Hm ->].
Qed.

Lemma loc_values_inv fr labels k (w : world') preds w' :
  loc_values fr labels k w = Ok (preds, w') ->
  w' = w /\
  exists a xs,
    getcol (columns fr) k = Ok a /\ mem w !! a = Some (NumCol xs) /\
    mapM (fun l => do p <- position l (index fr); at_pos xs p) labels
      = Ok preds.
Proof.
  unfold loc_values.
  intros (a & w1 & [Ha ->]%lift_inv & H1)%mbind_inv.
  apply mbind_inv in H1 as (xs & w2 & Hxs & H1).
  unfold numeric_values in Hxs.
  apply mbind_inv in Hxs as (c & w3 & [Hc ->]%load_inv & Hxs).
  destruct c as [ys|ys|ys]; try (by apply lift_inv in Hxs as [[=] _]).
  apply ret_inv in Hxs as [-> ->].
  apply lift_inv in H1 as [Hm ->]. split; [reflexivity|]. eauto.
Qed.

Lemma copy_inv fr (w : world') fr' w' :
  valid (mem w) (columns fr) ->
  copy fr w = Ok (fr', w') ->
  extends w w' /\ index fr' = index fr /\
  contents (mem w') (columns fr') = contents (mem w) (columns fr) /\
  valid (mem w') (columns fr') /\ fresh w (columns fr').
Proof.
  intros Hv. unfold copy.
  intros (cols & w1 & Hc & H1)%mbind_inv.
  apply ret_inv in H1 as [-> ->]. simpl.
  apply copy_columns_inv in Hc as (Hext & _ & Hcont & Hval & Hf);
    [|exact Hv].
  by repeat split.
Qed.

Lemma feature_labels_NoDup :
  NoDup (("loc" :: cost_drivers)
         ++ ["mode_embedded"; "mode_organic"; "mode_semidetached"]).
Proof. apply (bool_decide_unpack _). by vm_compute. Qed.

Lemma mapM_seq_lookup {B} (g : nat -> result B) n ys p y :
  mapM g (seq 0 n) = Ok ys -> ys !! p = Some y -> g p = Ok y.
Proof.
  intros Hm%mapM_Forall2 Hp.
  destruct (Forall2_lookup_r _ _ _ _ _ Hm Hp) as (i & Hi & Hg).
  apply lookup_seq in Hi as [-> _]. exact Hg.
Qed.

(** Reading the new column at the labels of the test partition gives the
    formula on the rows of the table at these labels. *)
Lemma loc_of_applied (f : gmap string (cell F) -> result F)
    (m : list column') cols idx effort labels preds :
  mapM (fun i => do r <- row_at m cols i; f r) (seq 0 (List.length idx))
    = Ok effort ->
  mapM (fun l => do p <- position l idx; at_pos effort p) labels = Ok preds ->
  mapM (fun l => do p <- position l idx; do r <- row_at m cols p; f r) labels
    = Ok preds.
Proof.
  intros He Hl%mapM_Forall2. apply Forall2_mapM.
  eapply Forall2_impl; [exact Hl|]. simpl.
  intros l pred (p & Hp & Hat)%bind_Ok_inv. rewrite Hp. simpl.
  unfold at_pos in Hat. destruct (effort !! p) as [y|] eqn:Hy; [|discriminate].
  injection Hat as ->. by apply (mapM_seq_lookup _ _ _ _ _ He Hy).
Qed.

(** The run of the script, step by step. *)
Lemma pipeline_inv data (w : world') out w' :
  table_ok (mem w) data = true ->
  preprocess_and_baseline data w = Ok (out, w') ->
  (forall a, a < List.length (mem w) -> mem w' !! a = mem w !! a) /\
  (index (out_data out) = index data /\
   exists a_e, columns (out_data out) =
                 dict_set (columns data) "effort_cocomo" a_e /\
               List.length (mem w) <= a_e) /\
  (getcol (columns data) "actual" = Ok (s_values (out_y out)) /\
   s_index (out_y out) = index data) /\
  (fresh w (columns (out_X out)) /\ fresh w (columns (out_X_unscaled out)) /\
   index (out_X out) = index data) /\
  (index (out_X_unscaled out) = index data /\
   table_ok (mem w') (out_X_unscaled out) = true /\
   out_scaler out =
     fit (numeric_part (contents (mem w') (columns (out_X_unscaled out))))) /\
  (exists n_train n_test,
     validate_shuffle_split (List.length (index data)) test_size_0_2 =
       Ok (n_train, n_test) /\
     let perm :=
       fst (permutation (RandomState 42%Z) (List.length (index data))) in
     mapM (at_pos (index data)) (take n_train (drop n_test perm)) =
       Ok (index (out_X_train out)) /\
     mapM (at_pos (index data)) (take n_test perm) =
       Ok (index (out_X_test out)) /\
     mapM (at_pos (index data)) (take n_train (drop n_test perm)) =
       Ok (s_index (out_y_train out)) /\
     mapM (at_pos (index data)) (take n_test perm) =
       Ok (s_index (out_y_test out))) /\
  mapM (fun l => do p <- position l (index data);
                 do r <- row_at (mem w) (columns data) p;
                 calculate_cocomo_effort r)
       (s_index (out_y_test out)) = Ok (out_cocomo_pred out).
Proof.
  intros Hok. unfold preprocess_and_baseline.
  intros (X & w1 & HX & H1)%mbind_inv.
  apply mbind_inv in H1 as (y & w1' & [Hy ->]%lift_inv & H1).
  apply mbind_inv in H1 as (u & w2 & Himp & H1).
  apply mbind_inv in H1 as (ks & w2' & [-> ->]%numeric_labels_inv & H1).
  apply mbind_inv in H1 as (Xu & w3 & HXu & H1).
  apply mbind_inv in H1 as (sel & w4 & Hsel & H1).
  apply mbind_inv in H1 as (features & w4' & [-> Hfeat]%numeric_values_inv & H1).
  apply mbind_inv in H1
    as ([scaler scaled] & w4' & [[Hfit _]%fit_transform_inv ->]%lift_inv & H1).
  apply mbind_inv in H1 as (X' & w5 & HX' & H1).
  apply mbind_inv in H1 as (ylog & w6 & Hylog & H1).
  apply mbind_inv in H1
    as ([[[Xtr Xte] ytr] yte] & w7 & Hsplit & H1).
  apply mbind_inv in H1 as (effort & w7' & [-> Heff]%apply_rows_inv & H1).
  apply mbind_inv in H1 as (data' & w8 & (Hdi & Hdc & Hm8)%setitem_inv & H1).
  apply mbind_inv in H1 as (preds & w8' & [-> Hloc]%loc_values_inv & H1).
  apply ret_inv in H1 as [-> ->]. simpl.
  (* the feature matrix *)
  destruct (build_features_inv _ _ _ _ Hok HX)
    as (Hext1 & HiX & HnX & HokX & HfX).
  pose proof (table_ok_valid _ _ Hok) as Hvd.
  (* the imputer *)
  pose proof (impute_table_ok _ _ _ _ HokX Himp) as HokX2.
  destruct (impute_inv _ _ _ _ Himp) as (Hlen2 & Hout2 & _).
  pose proof (table_ok_valid _ _ HokX2) as HvX2.
  (* the copy and the selection *)
  destruct (copy_inv _ _ _ _ HvX2 HXu) as (Hext3 & HiXu & HcXu & HvXu & HfXu).
  destruct (select_inv _ _ _ _ _ (valid_extends _ _ _ Hext3 HvX2) Hsel)
    as (picked & Hpick & _ & _ & Hext4 & Hcsel & _ & _).
  assert (Hnd : NoDup (map fst (columns X))).
  { rewrite HnX. apply feature_labels_NoDup. }
  rewrite (pick_sub _ _ Hnd (filter_sub _ _)) in Hpick.
  injection Hpick as <-.
  assert (Hfeatures :
    numeric_part (contents (mem w2) (columns X)) = features).
  { rewrite <- numeric_part_filter.
    rewrite <- (contents_extends w2 w3) by
      (exact Hext3 || (eapply valid_sub; [exact HvX2 | apply filter_sub])).
    by rewrite <- Hcsel, Hfeat, numeric_part_floats. }
  (* what follows only allocates *)
  pose proof (grows_setitem_many _ _ _ _ _ _ HX') as Hext5.
  pose proof (grows_log1p_series _ _ _ _ Hylog) as Hext6.
  pose proof (grows_train_test_split _ _ _ _ _ _ _ Hsplit) as Hext7.
  assert (Hext8 : extends w7 w8) by (by eexists).
  assert (Hext37 : extends w3 w7).
  { eapply extends_trans; [exact Hext4|].
    eapply extends_trans; [exact Hext5|].
    eapply extends_trans; [exact Hext6 | exact Hext7]. }
  assert (Hext38 : extends w3 w8) by (by eapply extends_trans).
  assert (Hext27 : extends w2 w7) by (by eapply extends_trans).
  assert (Hext28 : extends w2 w8) by (by eapply extends_trans).
  assert (Hlen7 : List.length (mem w) <= List.length (mem w7)).
  { apply extends_length in Hext1, Hext27. lia. }
  assert (Hlen1 : List.length (mem w) <= List.length (mem w1))
    by (by apply extends_length).
  assert (Hbelow2 : forall a, a < List.length (mem w) ->
                              mem w2 !! a = mem w !! a).
  { intros a Ha. rewrite Hout2.
    - by apply extends_lookup_lt.
    - intros Hin. apply list_elem_of_fmap in Hin as (ka & -> & Hka).
      unfold fresh in HfX. rewrite Forall_forall in HfX.
      specialize (HfX ka Hka). lia. }
  assert (Hbelow : forall a, a < List.length (mem w) ->
                             mem w8 !! a = mem w !! a).
  { intros a Ha. rewrite <- (Hbelow2 a Ha).
    apply extends_lookup_lt; [exact Hext28|]. lia. }
  assert (Hcd : forall m', (forall a, a < List.length (mem w) ->
                                       m' !! a = mem w !! a) ->
                           contents m' (columns data) =
                           contents (mem w) (columns data)).
  { intros m' Hm'. unfold contents. apply map_ext_Forall.
    eapply Forall_impl; [exact Hvd|]. simpl. intros ka Hka. by apply Hm'. }
  split; [exact Hbelow|].
  split.
  { split; [exact Hdi|]. eexists. split; [exact Hdc | exact Hlen7]. }
  split.
  { unfold getseries in Hy. apply bind_Ok_inv in Hy as (a & Ha & [= <-]).
    by split. }
  (* the scaled matrix *)
  destruct (setitem_many_inv _ _ _ _ _ _ (List.length (mem w)) HX')
    as [HiX' HfX'].
  { apply extends_length in Hext3, Hext4. lia. }
  { exact HfX. }
  split.
  { split; [exact HfX'|]. split; [|congruence].
    eapply Forall_impl; [exact HfXu|]. simpl. intros. lia. }
  split.
  { assert (Hc8 : contents (mem w8) (columns Xu) =
                  contents (mem w2) (columns X)).
    { by rewrite (contents_extends w3 w8 _ Hext38 HvXu). }
    split; [congruence|]. split.
    - unfold table_ok. rewrite Hc8, HiXu. exact HokX2.
    - by rewrite Hc8, Hfeatures. }
  (* the split *)
  destruct (train_test_split_inv _ _ _ _ _ _ _ _ _ _ Hsplit)
    as (n_train & n_test & perm & _ & Hval & Hperm & Htr & Hte & Hytr & Hyte).
  specialize (Hperm _ eq_refl). subst perm.
  assert (Hiy : s_index ylog = index data).
  { rewrite (log1p_series_inv _ _ _ _ Hylog).
    unfold getseries in Hy. by apply bind_Ok_inv in Hy as (a & _ & [= <-]). }
  rewrite HiX', HiX in Hval, Htr, Hte. rewrite Hiy in Hytr, Hyte.
  rewrite HiX', HiX in Hytr, Hyte.
  split.
  { exists n_train, n_test. by repeat split. }
  (* the baseline *)
  destruct Hloc as (a & xs & Ha & Hxs & Hpreds).
  rewrite Hdc, getcol_dict_set in Ha. injection Ha as <-.
  rewrite Hm8, lookup_app_r, Nat.sub_diag in Hxs by lia.
  injection Hxs as <-. rewrite Hdi in Hpreds.
  assert (Hrows : contents (mem w7) (columns data) =
                  contents (mem w) (columns data)).
  { apply Hcd. intros a Ha. rewrite <- (Hbelow2 a Ha).
    apply extends_lookup_lt; [exact Hext27 | lia]. }
  apply (loc_of_applied _ _ _ _ effort); [|exact Hpreds].
  rewrite <- Heff. apply mapM_ext, Forall_forall. intros i _.
  by rewrite (row_at_contents _ _ _ i Hrows).
Qed.

(** C3, as amended.  The scaler is fit on the float columns of the imputed
    feature matrix, each holding one entry per row of the dataset, the rows
    later assigned to the test partition included; the split is drawn
    afterwards.  The retained mean of a feature is its mean over all rows;
    the retained scale is its standard deviation over all rows, except for a
    constant feature, whose retained scale is 1. *)
Theorem scaler_fit_on_whole_table data (w : world') out w' :
  table_ok (mem w) data = true ->
  preprocess_and_baseline data w = Ok (out, w') ->
  let features :=
    numeric_part (contents (mem w') (columns (out_X_unscaled out))) in
  index (out_X_unscaled out) = index data /\
  Forall (fun xs => List.length xs = List.length (index data)) features /\
  Forall (fun l => l ∈ index data) (index (out_X_test out)) /\
  mean_ (out_scaler out) = map col_mean features /\
  scale_ (out_scaler out) =
    map (fun xs => if is_constant_feature (col_var xs) (col_mean xs)
                        (List.length (observed xs))
                   then lit 1 else col_std xs) features.
Proof.
  intros Hok Hrun features.
  destruct (pipeline_inv _ _ _ _ Hok Hrun)
    as (_ & _ & _ & _ & (Hi & Htab & Hfit) & Hsplit & _).
  destruct Hsplit as (n_train & n_test & _ & _ & Hte & _ & _).
  split; [exact Hi|]. split.
  { unfold features. rewrite <- Hi. by apply numeric_part_lengths. }
  split; [by eapply mapM_at_pos_elem|].
  fold features in Hfit. rewrite Hfit. by split.
Qed.

(** C10. Imputation and standardisation leave the loaded table as it was:
    every buffer that existed before the run, those of the table and of the
    target among them, holds what it held; the feature matrix, unscaled and
    scaled, lives in buffers allocated during the run; the table only gains
    the column [effort_cocomo].  The baseline predictions are the formula on
    the raw rows of the table at the labels of the test partition, whatever
    the rest of memory, the feature matrix included, holds. *)
Theorem baseline_reads_raw_table data (w : world') out w' :
  table_ok (mem w) data = true ->
  preprocess_and_baseline data w = Ok (out, w') ->
  (forall a, a < List.length (mem w) -> mem w' !! a = mem w !! a) /\
  contents (mem w') (columns data) = contents (mem w) (columns data) /\
  index (out_data out) = index data /\
  (exists a_e, columns (out_data out) =
                 dict_set (columns data) "effort_cocomo" a_e /\
               List.length (mem w) <= a_e) /\
  getcol (columns data) "actual" = Ok (s_values (out_y out)) /\
  mem w' !! s_values (out_y out) = mem w !! s_values (out_y out) /\
  fresh w (columns (out_X out)) /\
  fresh w (columns (out_X_unscaled out)) /\
  forall m', contents m' (columns data) = contents (mem w) (columns data) ->
    mapM (fun l => do p <- position l (index data);
                   do r <- row_at m' (columns data) p;
                   calculate_cocomo_effort r)
         (s_index (out_y_test out)) = Ok (out_cocomo_pred out).
Proof.
  intros Hok Hrun.
  destruct (pipeline_inv _ _ _ _ Hok Hrun)
    as (Hbelow & (Hdi & Hdc) & (Hy & _) & (HfX & HfXu & _) & _ & _ & Hpred).
  pose proof (table_ok_valid _ _ Hok) as Hvd.
  split; [exact Hbelow|]. split.
  { unfold contents. apply map_ext_Forall.
    eapply Forall_impl; [exact Hvd|]. simpl. intros ka Hka.
    by apply Hbelow. }
  split; [exact Hdi|]. split; [exact Hdc|]. split; [exact Hy|]. split.
  { apply Hbelow. apply getcol_elem in Hy.
    unfold valid in Hvd. rewrite Forall_forall in Hvd.
    exact (Hvd _ Hy). }
  split; [exact HfX|]. split; [exact HfXu|].
  intros m' Hm'. rewrite <- Hpred. apply mapM_ext, Forall_forall.
  intros l _. destruct (position l (index data)) as [p|e]; [|reflexivity].
  simpl. by rewrite (row_at_contents _ _ _ p Hm').
Qed.

Lemma getcol_first (m : list column') cols k a :
  getcol cols k = Ok a ->
  first_match k (map fst cols) (contents m cols) = Some (m !! a).
Proof.
  induction cols as [|[k' a'] cols IH]; simpl; [discriminate|].
  destruct (String.eqb k' k); [by intros [= ->] | exact IH].
Qed.

Lemma first_getcol (m : list column') cols k oc :
  first_match k (map fst cols) (contents m cols) = Some oc ->
  exists a, getcol cols k = Ok a /\ m !! a = oc.
Proof.
  induction cols as [|[k' a'] cols IH]; simpl; [discriminate|].
  destruct (String.eqb k' k); [intros [= <-]; eauto | exact IH].
Qed.

Lemma first_match_app_r {V} k (n1 n2 : list string) (v1 v2 : list V) :
  existsb (String.eqb k) n1 = false -> List.length n1 = List.length v1 ->
  first_match k (n1 ++ n2) (v1 ++ v2) = first_match k n2 v2.
Proof.
  revert v1. induction n1 as [|n n1 IH]; intros [|v v1]; simpl;
    try discriminate; [reflexivity|].
  rewrite orb_false_iff. intros [Hn Hn1] [= Hlen].
  rewrite String.eqb_sym, Hn. by apply IH.
Qed.

Lemma first_match_dummy prefix vs k (x : option column') :
  first_match k (map fst (dummy_columns prefix (ObjCol vs)))
    (map (fun kb => Some (BoolCol (snd kb)))
         (dummy_columns prefix (ObjCol vs))) = Some x ->
  exists l, k = prefix +:+ "_" +:+ l /\
            x = Some (BoolCol (map (fun v => bool_decide (v = Some l)) vs)).
Proof.
  unfold dummy_columns.
  generalize (levels String.leb String.eqb (strings_of vs)) as lvls.
  induction lvls as [|l lvls IH]; simpl; [discriminate|].
  destruct (String.eqb_spec (prefix +:+ "_" +:+ l) k) as [<-|_].
  - intros [= <-]. by exists l.
  - exact IH.
Qed.

Lemma mode_label_inj l l' :
  "mode" +:+ "_" +:+ l = "mode" +:+ "_" +:+ l' -> l = l'.
Proof. intros Heq. simpl in Heq. injection Heq as Heq. exact Heq. Qed.

Lemma indicator_labels_elem k :
  k ∈ indicator_labels ->
  k = "mode_embedded" \/ k = "mode_organic" \/ k = "mode_semidetached".
Proof.
  unfold indicator_labels. intros Hk.
  repeat (apply elem_of_cons in Hk as [->|Hk]); try tauto.
  by apply elem_of_nil in Hk.
Qed.

Lemma unlabelled_filter cols ks (f : string * addr -> bool) k :
  unlabelled cols ks = true -> k ∈ ks ->
  existsb (String.eqb k) (map fst (List.filter f cols)) = false.
Proof.
  unfold unlabelled. rewrite forallb_forall. intros Hall Hk.
  apply list_elem_of_In in Hk. specialize (Hall k Hk).
  apply negb_true_iff in Hall.
  apply not_true_is_false. intros Hex.
  apply existsb_exists in Hex as (n & Hn & Heq).
  apply in_map_iff in Hn as (ka & <- & Hka).
  apply filter_In in Hka as [Hka _].
  assert (Hex' : existsb (String.eqb k) (map fst cols) = true).
  { apply existsb_exists. exists (fst ka). split; [|exact Heq].
    apply in_map_iff. eauto. }
  congruence.
Qed.

(** The three indicator columns of the feature matrix, by content. *)
Lemma build_features_indicators data (w : world') X w' a vs k :
  table_ok (mem w) data = true ->
  getcol (columns data) "dev_mode" = Ok a ->
  mem w !! a = Some (ObjCol vs) ->
  unlabelled (columns data) indicator_labels = true ->
  build_features data w = Ok (X, w') ->
  forall l, k = "mode" +:+ "_" +:+ l -> k ∈ indicator_labels ->
  holds (mem w') X k (BoolCol (map (fun v => bool_decide (v = Some l)) vs)).
Proof.
  intros Hok Ha Hvs Hun. unfold build_features.
  intros (enc & w1 & Henc & H1)%mbind_inv.
  apply mbind_inv in H1 as (lf & w2 & Hl & H1).
  apply mbind_inv in H1 as (r & w3 & Hr & H1).
  intros l Hk Hin.
  apply get_dummies_inv in Henc
    as (a' & c & Ha' & Hc & Hext1 & _ & Hnenc & Hcenc & Hok1 & _);
    [|exact Hok].
  rewrite Ha in Ha'. injection Ha' as <-.
  rewrite Hvs in Hc. injection Hc as <-.
  pose proof (table_ok_valid _ _ Hok) as Hv.
  pose proof (table_ok_valid _ _ Hok1) as Hv1.
  apply select_inv in Hl
    as (pl & Hpl & _ & Hnl & Hext2 & _ & Hvl & _);
    [|by eapply valid_extends].
  apply select_inv in Hr
    as (pr & Hpr & _ & Hnr & Hext3 & Hcr & Hvr & _);
    [|by eapply valid_extends].
  apply concat_inv in H1 as (_ & _ & Hn & Hcont & _ & _);
    [|by eapply valid_extends|exact Hvr].
  (* the indicator found in the encoded table *)
  assert (Henc_k : forall k' l' a_k,
    k' ∈ indicator_labels -> k' = "mode" +:+ "_" +:+ l' ->
    getcol (columns enc) k' = Ok a_k ->
    mem w2 !! a_k =
      Some (BoolCol (map (fun v => bool_decide (v = Some l')) vs))).
  { intros k' l' a_k Hin' Hk' Hg.
    pose proof (getcol_first (mem w1) _ _ _ Hg) as Hf.
    rewrite Hnenc, Hcenc in Hf.
    rewrite first_match_app_r in Hf.
    - apply first_match_dummy in Hf as (l'' & Hk'' & Hx).
      subst k'. apply mode_label_inj in Hk''. subst l''.
      rewrite <- Hx. apply extends_lookup_lt; [exact Hext2|].
      apply getcol_elem in Hg. unfold valid in Hv1.
      rewrite Forall_forall in Hv1. exact (Hv1 _ Hg).
    - by eapply unlabelled_filter.
    - unfold contents. by rewrite !length_map. }
  (* the three columns picked from it *)
  simpl in Hpr.
  apply bind_Ok_inv in Hpr as (p1 & Hp1 & Hpr).
  apply bind_Ok_inv in Hp1 as (a1 & Ha1 & [= <-]).
  apply bind_Ok_inv in Hpr as (rest & Hpr & [= <-]).
  apply bind_Ok_inv in Hpr as (p2 & Hp2 & Hpr).
  apply bind_Ok_inv in Hp2 as (a2 & Ha2 & [= <-]).
  apply bind_Ok_inv in Hpr as (rest' & Hpr & [= <-]).
  apply bind_Ok_inv in Hpr as (p3 & Hp3 & [= <-]).
  apply bind_Ok_inv in Hp3 as (a3 & Ha3 & [= <-]).
  unfold contents at 2 in Hcr. simpl in Hcr.
  rewrite (Henc_k "mode_embedded" "embedded" a1) in Hcr;
    [|apply list_elem_of_In; simpl; tauto|reflexivity|exact Ha1].
  rewrite (Henc_k "mode_organic" "organic" a2) in Hcr;
    [|apply list_elem_of_In; simpl; tauto|reflexivity|exact Ha2].
  rewrite (Henc_k "mode_semidetached" "semidetached" a3) in Hcr;
    [|apply list_elem_of_In; simpl; tauto|reflexivity|exact Ha3].
  (* and found again in the feature matrix *)
  assert (Hfirst : first_match k (map fst (columns X))
                     (contents (mem w') (columns X)) =
                   Some (Some (BoolCol
                     (map (fun v => bool_decide (v = Some l)) vs)))).
  { rewrite Hn, Hcont, Hnl, Hnr, Hcr.
    rewrite first_match_app_r.
    - destruct (indicator_labels_elem _ Hin) as [-> | [-> | ->]];
        apply mode_label_inj in Hk; subst l; reflexivity.
    - by destruct (indicator_labels_elem _ Hin) as [-> | [-> | ->]].
    - unfold contents. rewrite <- Hnl. by rewrite !length_map. }
  apply first_getcol in Hfirst as (a_k & Hg & Hm). by exists a_k.
Qed.

Lemma indicator_row vs l i (v : option string) :
  vs !! i = Some v ->
  map (fun v => bool_decide (v = Some l)) vs !! i =
  Some (bool_decide (v = Some l)).
Proof. intros Hi. by rewrite list_lookup_fmap, Hi. Qed.

(** C4. On a table whose [dev_mode] column holds strings or missing
    entries, the feature matrix carries the three indicator columns over the
    rows of the table, and on every row: exactly the indicator of the row's
    mode is 1 ([true], as [get_dummies] gives booleans) when the mode is one
    of the three categories, and the three indicators are 0 for any other
    value, a missing one included. *)
Theorem one_hot_mode_encoding data (w : world') X w' a vs :
  table_ok (mem w) data = true ->
  getcol (columns data) "dev_mode" = Ok a ->
  mem w !! a = Some (ObjCol vs) ->
  unlabelled (columns data) indicator_labels = true ->
  build_features data w = Ok (X, w') ->
  exists e o s,
    index X = index data /\
    holds (mem w') X "mode_embedded" (BoolCol e) /\
    holds (mem w') X "mode_organic" (BoolCol o) /\
    holds (mem w') X "mode_semidetached" (BoolCol s) /\
    forall i v, vs !! i = Some v ->
      exists be bo bs,
        e !! i = Some be /\ o !! i = Some bo /\ s !! i = Some bs /\
        (v = Some "embedded" -> (be, bo, bs) = (true, false, false)) /\
        (v = Some "organic" -> (be, bo, bs) = (false, true, false)) /\
        (v = Some "semidetached" -> (be, bo, bs) = (false, false, true)) /\
        (v <> Some "embedded" -> v <> Some "organic" ->
         v <> Some "semidetached" -> (be, bo, bs) = (false, false, false)).
Proof.
  intros Hok Ha Hvs Hun Hrun.
  pose proof (build_features_indicators data w X w' a vs) as Hind.
  exists (map (fun v => bool_decide (v = Some "embedded")) vs),
         (map (fun v => bool_decide (v = Some "organic")) vs),
         (map (fun v => bool_decide (v = Some "semidetached")) vs).
  split; [by destruct (build_features_inv _ _ _ _ Hok Hrun) as (_ & ? & _)|].
  split; [apply (Hind "mode_embedded"); try done;
          apply list_elem_of_In; simpl; tauto|].
  split; [apply (Hind "mode_organic"); try done;
          apply list_elem_of_In; simpl; tauto|].
  split; [apply (Hind "mode_semidetached"); try done;
          apply list_elem_of_In; simpl; tauto|].
  intros i v Hi. eexists _, _, _.
  split; [by apply indicator_row|].
  split; [by apply indicator_row|].
  split; [by apply indicator_row|].
  split; [intros ->; reflexivity|].
  split; [intros ->; reflexivity|].
  split; [intros ->; reflexivity|].
  intros He Ho Hs. by rewrite !bool_decide_eq_false_2.
Qed.

End OperationFacts.

(** ** The splitter *)

Section SplitterFacts.
Context {F : Type} `{Scalar F} {G : Type} `{Generator G}.

Abbreviation column' := (@column F).
Abbreviation world' := (@world F G).
Abbreviation M' := (@M F G).
Local Abbreviation Rng_free m := (@rng_free F G _ m).

(** NumPy's [permutation(n)] is a permutation of [0 .. n-1]. *)
Hypothesis permutation_law :
  forall (g : G) n, Permutation (fst (permutation g n)) (seq 0 n).

Lemma rng_free_ret {A} (x : A) : Rng_free (ret x).
Proof. intros w a w' g [-> ->]%ret_inv. reflexivity. Qed.

Lemma rng_free_lift {A} (r : result A) : Rng_free (lift r).
Proof. intros w a w' g [-> ->]%lift_inv. reflexivity. Qed.

Lemma rng_free_load a : Rng_free (load a).
Proof.
  intros w c w' g [Hc ->]%load_inv. unfold load. simpl. by rewrite Hc.
Qed.

Lemma rng_free_alloc c : Rng_free (alloc c).
Proof. intros w a w' g. unfold alloc. by intros [= <- <-]. Qed.

Lemma rng_free_bind {A B} (m : M' A) (k : A -> M' B) :
  Rng_free m -> (forall a, Rng_free (k a)) -> Rng_free (mbind m k).
Proof.
  intros Hm Hk w b w'' g (a & w' & H1 & H2)%mbind_inv.
  unfold mbind. rewrite (Hm _ _ _ g H1). by apply Hk.
Qed.

Lemma rng_free_mapMM {A B} (f : A -> M' B) (l : list A) :
  (forall x, Rng_free (f x)) -> Rng_free (mapMM f l).
Proof.
  intros Hf. induction l as [|x l IH]; simpl; [apply rng_free_ret|].
  apply rng_free_bind; [apply Hf|]. intros y.
  apply rng_free_bind; [exact IH|]. intros ys. apply rng_free_ret.
Qed.

Lemma rng_free_seeded seed n : Rng_free (rng_permutation (Some seed) n).
Proof. intros w a w' g. unfold rng_permutation. by intros [= <- <-]. Qed.

Lemma rng_free_take_frame fr idx : Rng_free (take_frame fr idx).
Proof.
  unfold take_frame.
  apply rng_free_bind; [apply rng_free_lift|]. intros labels.
  apply rng_free_bind; [|intros; apply rng_free_ret].
  apply rng_free_mapMM. intros ka. unfold take_column.
  apply rng_free_bind; [apply rng_free_load|]. intros c.
  apply rng_free_bind; [apply rng_free_lift|]. intros c'.
  apply rng_free_bind; [apply rng_free_alloc|]. intros a'.
  apply rng_free_ret.
Qed.

Lemma rng_free_take_series sr idx : Rng_free (take_series sr idx).
Proof.
  unfold take_series.
  apply rng_free_bind; [apply rng_free_lift|]. intros labels.
  apply rng_free_bind; [apply rng_free_load|]. intros c.
  apply rng_free_bind; [apply rng_free_lift|]. intros c'.
  apply rng_free_bind; [apply rng_free_alloc|]. intros a'.
  apply rng_free_ret.
Qed.

(** With an integer seed the split does not touch the global generator. *)
Lemma rng_free_train_test_split X y test_size seed :
  Rng_free (train_test_split X y test_size (Some seed)).
Proof.
  unfold train_test_split.
  apply rng_free_bind; [apply rng_free_lift|]. intros _.
  apply rng_free_bind; [apply rng_free_lift|]. intros [n_train n_test].
  apply rng_free_bind; [apply rng_free_seeded|]. intros perm.
  apply rng_free_bind; [apply rng_free_take_frame|]. intros X_train.
  apply rng_free_bind; [apply rng_free_take_frame|]. intros X_test.
  apply rng_free_bind; [apply rng_free_take_series|]. intros y_train.
  apply rng_free_bind; [apply rng_free_take_series|]. intros y_test.
  apply rng_free_ret.
Qed.

Lemma mbind_ok {A B} (m : M' A) (k : A -> M' B) w a w' :
  m w = Ok (a, w') -> mbind m k w = k a w'.
Proof. unfold mbind. by intros ->. Qed.

Lemma mapM_at_pos_ok {A} (xs : list A) idx :
  Forall (fun i => i < List.length xs) idx ->
  exists ys, mapM (at_pos xs) idx = Ok ys /\
             List.length ys = List.length idx.
Proof.
  induction 1 as [|i idx Hi _ (ys & Hys & Hlen)]; simpl.
  - by exists [].
  - destruct (lookup_lt_is_Some_2 xs i Hi) as [x Hx].
    exists (x :: ys). unfold at_pos at 1. rewrite Hx. simpl.
    rewrite Hys. simpl. split; [reflexivity | by f_equal].
Qed.

Lemma take_rows_ok idx (c : column') :
  Forall (fun i => i < col_length c) idx ->
  exists c', take_rows idx c = Ok c' /\ col_length c' = List.length idx.
Proof.
  intros Hidx. destruct c as [xs|xs|xs]; simpl in *;
    destruct (mapM_at_pos_ok xs idx Hidx) as (ys & -> & Hlen);
    eexists; split; reflexivity || exact Hlen.
Qed.

Lemma take_columns_ok idx n cols : forall (w : world'),
  cols_ok n (contents (mem w) cols) = true ->
  Forall (fun i => i < n) idx ->
  exists cols' w',
    mapMM (take_column idx) cols w = Ok (cols', w') /\
    extends w w' /\
    cols_ok (List.length idx) (contents (mem w') cols') = true.
Proof.
  induction cols as [|[k a] cols IH]; intros w Hok Hidx.
  - exists [], w. repeat split. apply extends_refl.
  - pose proof (cols_ok_valid _ _ _ Hok) as Hv.
    inversion Hv as [|? ? Ha Hv']; subst.
    unfold contents in Hok. simpl in Hok.
    apply andb_true_iff in Hok as [Hc Hrest].
    destruct (mem w !! a) as [c|] eqn:Hma; [|discriminate].
    apply Nat.eqb_eq in Hc.
    destruct (take_rows_ok idx c) as (c' & Hc' & Hlen').
    { by rewrite Hc. }
    set (w1 := {| mem := mem w ++ [c']; np_random := np_random w |}).
    assert (Hext1 : extends w w1) by (by exists [c']).
    destruct (IH w1) as (cols' & w' & Hrun & Hext & Hok').
    { fold (contents (mem w) cols) in Hrest.
      by rewrite (contents_extends w w1 cols Hext1 Hv'). }
    { exact Hidx. }
    exists ((k, List.length (mem w)) :: cols'), w'.
    split; [|split].
    + simpl. unfold take_column at 1. simpl.
      rewrite (mbind_ok _ _ w (k, List.length (mem w)) w1).
      * by rewrite (mbind_ok _ _ _ _ _ Hrun).
      * unfold mbind, load, lift, alloc, ret. rewrite Hma, Hc'. reflexivity.
    + by eapply extends_trans.
    + unfold contents. simpl. apply andb_true_iff. split; [|exact Hok'].
      rewrite (extends_lookup w1 w' (List.length (mem w)) c' Hext).
      * by apply Nat.eqb_eq.
      * simpl. rewrite lookup_app_r by lia. by rewrite Nat.sub_diag.
Qed.

Lemma take_frame_ok fr idx (w : world') :
  table_ok (mem w) fr = true ->
  Forall (fun i => i < List.length (index fr)) idx ->
  exists fr' w',
    take_frame fr idx w = Ok (fr', w') /\ extends w w' /\
    List.length (index fr') = List.length idx /\
    table_ok (mem w') fr' = true.
Proof.
  intros Hok Hidx.
  destruct (mapM_at_pos_ok (index fr) idx Hidx) as (labels & Hl & Hlen).
  destruct (take_columns_ok idx _ (columns fr) w Hok Hidx)
    as (cols & w' & Hrun & Hext & Hok').
  exists {| index := labels; columns := cols |}, w'.
  split; [|split; [exact Hext|split; [exact Hlen|]]].
  - unfold take_frame. rewrite Hl. unfold lift at 1.
    unfold mbind at 1. by rewrite (mbind_ok _ _ _ _ _ Hrun).
  - unfold table_ok. simpl. by rewrite Hlen.
Qed.

Lemma take_series_ok sr idx (w : world') :
  series_ok (mem w) sr = true ->
  Forall (fun i => i < List.length (s_index sr)) idx ->
  exists sr' w',
    take_series sr idx w = Ok (sr', w') /\ extends w w' /\
    List.length (s_index sr') = List.length idx /\
    series_ok (mem w') sr' = true.
Proof.
  intros Hok Hidx.
  destruct (mapM_at_pos_ok (s_index sr) idx Hidx) as (labels & Hl & Hlen).
  unfold series_ok in Hok. simpl in Hok. rewrite andb_true_r in Hok.
  destruct (mem w !! s_values sr) as [c|] eqn:Hc; [|discriminate].
  apply Nat.eqb_eq in Hok.
  destruct (take_rows_ok idx c) as (c' & Hc' & Hlen').
  { by rewrite Hok. }
  exists {| s_index := labels; s_values := List.length (mem w) |},
         {| mem := mem w ++ [c']; np_random := np_random w |}.
  split; [|split; [by exists [c']|split; [exact Hlen|]]].
  - unfold take_series. rewrite Hl.
    unfold mbind, lift, load, alloc, ret. by rewrite Hc, Hc'.
  - unfold series_ok. simpl. rewrite lookup_app_r by lia.
    rewrite Nat.sub_diag. simpl. rewrite andb_true_r, Hlen.
    by apply Nat.eqb_eq.
Qed.

Lemma table_ok_extends fr (w w' : world') :
  extends w w' -> table_ok (mem w) fr = true -> table_ok (mem w') fr = true.
Proof.
  intros Hext Hok. unfold table_ok.
  by rewrite (contents_extends w w' _ Hext (table_ok_valid _ _ Hok)).
Qed.

Lemma series_ok_extends sr (w w' : world') :
  extends w w' -> series_ok (mem w) sr = true -> series_ok (mem w') sr = true.
Proof.
  intros Hext. unfold series_ok. simpl. rewrite !andb_true_r.
  destruct (mem w !! s_values sr) as [c|] eqn:Hc; [|discriminate].
  by rewrite (extends_lookup w w' _ c Hext Hc).
Qed.

Lemma permutation_positions (g : G) n :
  List.length (fst (permutation g n)) = n /\
  Forall (fun i => i < n) (fst (permutation g n)).
Proof.
  pose proof (permutation_law g n) as Hp. split.
  - rewrite (Permutation_length Hp). apply length_seq.
  - apply Forall_forall. intros i Hi.
    apply list_elem_of_In in Hi. apply (Permutation_in _ Hp) in Hi.
    apply in_seq in Hi. lia.
Qed.

(** C8. With [test_size=0.2] and an integer seed, a table of 100 rows with
    its target is split into a train partition of exactly 80 rows and a test
    partition of exactly 20 rows; a second run with the same seed on the
    same memory returns the same four partitions and leaves the same memory,
    whatever the state of the global generator. *)
Theorem split_100_rows X y (w : world') seed :
  List.length (index X) = 100 ->
  List.length (s_index y) = 100 ->
  table_ok (mem w) X = true ->
  series_ok (mem w) y = true ->
  exists X_train X_test y_train y_test w',
    train_test_split X y test_size_0_2 (Some seed) w =
      Ok ((X_train, X_test, y_train, y_test), w') /\
    List.length (index X_train) = 80 /\ List.length (index X_test) = 20 /\
    List.length (s_index y_train) = 80 /\ List.length (s_index y_test) = 20 /\
    table_ok (mem w') X_train = true /\ table_ok (mem w') X_test = true /\
    series_ok (mem w') y_train = true /\ series_ok (mem w') y_test = true /\
    forall w2, mem w2 = mem w ->
      train_test_split X y test_size_0_2 (Some seed) w2 =
        Ok ((X_train, X_test, y_train, y_test), with_rng (np_random w2) w').
Proof.
  intros HnX Hny HokX Hoky.
  destruct (permutation_positions (RandomState seed) 100) as [Hlen Hpos].
  set (perm := fst (permutation (RandomState seed) 100)) in *.
  assert (Htest : Forall (fun i => i < List.length (index X)) (take 20 perm)).
  { rewrite HnX. by apply Forall_take. }
  assert (Htrain : Forall (fun i => i < List.length (index X))
                          (take 80 (drop 20 perm))).
  { rewrite HnX. by apply Forall_take, Forall_drop. }
  destruct (take_frame_ok X _ w HokX Htrain)
    as (X_train & w1 & H1 & Hext1 & Hl1 & Hok1).
  destruct (take_frame_ok X _ w1 (table_ok_extends _ _ _ Hext1 HokX) Htest)
    as (X_test & w2 & H2 & Hext2 & Hl2 & Hok2).
  assert (Hext02 : extends w w2) by (by eapply extends_trans).
  rewrite HnX, <- Hny in Htrain, Htest.
  destruct (take_series_ok y _ w2 (series_ok_extends _ _ _ Hext02 Hoky) Htrain)
    as (y_train & w3 & H3 & Hext3 & Hl3 & Hok3).
  assert (Hext03 : extends w w3) by (by eapply extends_trans).
  destruct (take_series_ok y _ w3 (series_ok_extends _ _ _ Hext03 Hoky) Htest)
    as (y_test & w4 & H4 & Hext4 & Hl4 & Hok4).
  assert (Hrun : train_test_split X y test_size_0_2 (Some seed) w =
                 Ok ((X_train, X_test, y_train, y_test), w4)).
  { unfold train_test_split. rewrite Hny, HnX. simpl Nat.eqb.
    unfold mbind at 1. unfold lift at 1.
    assert (Hv : validate_shuffle_split 100 test_size_0_2 = Ok (80, 20))
      by (by vm_compute).
    rewrite Hv. unfold mbind at 1. unfold lift at 1.
    unfold mbind at 1. unfold rng_permutation at 1. fold perm.
    rewrite (mbind_ok _ _ _ _ _ H1), (mbind_ok _ _ _ _ _ H2).
    by rewrite (mbind_ok _ _ _ _ _ H3), (mbind_ok _ _ _ _ _ H4). }
  exists X_train, X_test, y_train, y_test, w4.
  split; [exact Hrun|].
  rewrite length_take, length_drop, Hlen in Hl1, Hl3.
  rewrite length_take, Hlen in Hl2, Hl4.
  split; [exact Hl1|]. split; [exact Hl2|].
  split; [exact Hl3|]. split; [exact Hl4|].
  split.
  { eapply table_ok_extends; [|exact Hok1].
    eapply extends_trans; [exact Hext2|].
    by eapply extends_trans. }
  split.
  { eapply table_ok_extends; [|exact Hok2]. by eapply extends_trans. }
  split; [by eapply series_ok_extends|]. split; [exact Hok4|].
  intros w' Hm.
  assert (Hw : w' = with_rng (np_random w') w).
  { destruct w' as [m g]. unfold with_rng. simpl in *. by subst m. }
  rewrite Hw at 1. by apply rng_free_train_test_split.
Qed.

End SplitterFacts.

(** ** Worked instances *)

Lemma cocomo_effort_on_sample_row :
  calculate_cocomo_effort sample_row =
  Ok (Op1 Log1p
        (Op2 Mul (Op2 Mul (Rat (12 # 5)) (Op2 Pow (Rat 10) (Rat (21 # 20))))
                 (Rat 2))).
Proof.
  destruct (cocomo_effort_formula sample_row (Rat 10)) as [Hf _].
  - vm_compute. reflexivity.
  - vm_compute. reflexivity.
  - rewrite Hf; vm_compute; reflexivity.
Defined.

(** C1 as stated fails on a row of size 1e300: the power 1e300 ** 1.05 is
    beyond the range of the floats and the estimator raises OverflowError
    instead of returning a value.  It also fails on a row without [loc],
    with KeyError, and on a row with a string for a cost driver, with
    TypeError. *)
Lemma cocomo_effort_overflows :
  (huge_row !! "loc" = Some (Num (Rat (10 ^ 300))) /\
   numeric_drivers huge_row = true /\
   calculate_cocomo_effort huge_row = Raise OverflowError /\
   ~ (exists v, calculate_cocomo_effort huge_row = Ok v)) /\
  calculate_cocomo_effort (delete "loc" sample_row) = Raise (KeyError "loc") /\
  calculate_cocomo_effort (<["rely" := Str "high"]> sample_row) =
    Raise TypeError.
Proof.
  assert (Hrun : calculate_cocomo_effort huge_row = Raise OverflowError)
    by (vm_compute; reflexivity).
  split; [|split; vm_compute; reflexivity].
  split; [vm_compute; reflexivity|]. split; [vm_compute; reflexivity|].
  split; [exact Hrun|]. intros [v Hv]. rewrite Hrun in Hv. discriminate.
Qed.

Lemma coefficients_of_sample_rows :
  coefficients one_hot_row = (3.0, 1.12)%Q /\
  coefficients sample_row = (2.4, 1.05)%Q.
Proof.
  split.
  - destruct (coefficients_by_mode one_hot_row) as (_ & Hsemi & _).
    apply Hsemi.
    + intros x [= <-]. vm_compute. reflexivity.
    + exists (Rat 1). split; vm_compute; reflexivity.
  - destruct (coefficients_by_mode sample_row) as (_ & _ & _ & Hraw).
    destruct Hraw as (Ho & _).
    + intros x Hx. vm_compute in Hx. discriminate.
    + intros x Hx. vm_compute in Hx. discriminate.
    + intros x Hx. vm_compute in Hx. discriminate.
    + apply Ho. vm_compute. reflexivity.
Defined.

Lemma actual_is_not_read : "actual" ∉ relevant_labels.
Proof. apply (bool_decide_unpack _). vm_compute. reflexivity. Qed.

Lemma cocomo_effort_ignores_actual :
  calculate_cocomo_effort sample_row =
  calculate_cocomo_effort (<["actual" := Num (Rat 99)]> sample_row).
Proof.
  apply (cocomo_effort_deterministic sample_row).
  intros k Hk. rewrite lookup_insert_ne; [reflexivity|].
  intros <-. exact (actual_is_not_read Hk).
Defined.

Lemma save_best_keeps_disk_for_formula :
  exists best,
    save_best unit unit
      (collect_results (with_error 1) (with_error 2) (with_error 3)
                       (with_error 4)) tt tt tt tt ∅ = Ok (best, ∅) /\
    best = "COCOMO I".
Proof.
  destruct (save_best_persists_winner unit unit (with_error 1) (with_error 2)
              (with_error 3) (with_error 4) tt tt tt tt ∅)
    as (best & fs' & Hrun & _ & _ & Hformula & _).
  destruct Hformula as [-> ->]; [simpl; lra|].
  exists "COCOMO I". split; [exact Hrun | reflexivity].
Defined.

Lemma evaluate_model_on_two_samples :
  exists m,
    evaluate_model [b64_of_nat 1; b64_of_nat 2] [b64_of_nat 1; b64_of_nat 3]
      "Linear Regression" = Ok m /\
    b64_nonneg (MAE m) = true /\ b64_nonneg (RMSE m) = true.
Proof.
  destruct (evaluate_model_metrics
              [b64_of_nat 1; b64_of_nat 2] [b64_of_nat 1; b64_of_nat 3]
              "Linear Regression")
    as (m & Hm & _ & _ & Hmae & Hrmse & _).
  - reflexivity.
  - simpl. lia.
  - vm_compute. reflexivity.
  - vm_compute. reflexivity.
  - vm_compute. reflexivity.
  - exists m. split; [exact Hm|]. split; [exact Hmae | exact Hrmse].
Defined.

(** C6 as stated fails twice.  For the truth [0, 0, 0] and the prediction
    [0.1, 0.1, 0.1] the sum of the absolute errors is rounded up and MAE,
    0.10000000000000002, exceeds RMSE, 0.1.  On a single sample the
    prediction equals the truth and R2 is NaN, not 1. *)
Lemma rmse_below_mae :
  (exists m,
     evaluate_model (repeat (S754_zero false) 3) (repeat b64_tenth 3)
       "COCOMO I" = Ok m /\
     MAE m = S754_finite false 7205759403792795 (-56) /\
     RMSE m = b64_tenth /\
     SFltb (RMSE m) (MAE m) = true /\ SFleb (MAE m) (RMSE m) = false) /\
  (exists m,
     evaluate_model [b64_one] [b64_one] "COCOMO I" = Ok m /\
     R2 m = S754_nan /\ R2 m <> b64_one).
Proof.
  split; eexists; (split; [vm_compute; reflexivity|]).
  - repeat split; vm_compute; reflexivity.
  - split; [reflexivity | discriminate].
Qed.

Lemma evaluate_model_on_constant_truth :
  exists m,
    evaluate_model [b64_of_nat 3; b64_of_nat 3] [b64_of_nat 3; b64_of_nat 4]
      "Decision Tree" = Ok m /\
    R2 m = S754_zero false.
Proof.
  destruct (evaluate_model_constant_truth
              [b64_of_nat 3; b64_of_nat 3] [b64_of_nat 3; b64_of_nat 4]
              (b64_of_nat 3) "Decision Tree")
    as (m & Hm & _ & Htwo).
  - reflexivity.
  - simpl. lia.
  - vm_compute. reflexivity.
  - repeat constructor.
  - vm_compute. reflexivity.
  - exists m. split; [exact Hm|].
    destruct Htwo as (_ & Hmean & _); [simpl; lia|].
    destruct Hmean as [_ ->]; vm_compute; reflexivity.
Defined.

(** C7 as stated fails on two samples: for the truth [3, 3] and the
    prediction [3, 4] the R2 that is returned is the number 0.0, not NaN. *)
Lemma r2_of_constant_truth_is_a_number :
  exists m,
    evaluate_model [b64_of_nat 3; b64_of_nat 3] [b64_of_nat 3; b64_of_nat 4]
      "COCOMO I" = Ok m /\
    R2 m = S754_zero false /\ R2 m <> S754_nan.
Proof.
  eexists. split; [vm_compute; reflexivity|].
  split; [reflexivity | discriminate].
Qed.

Lemma scaler_on_sample_table :
  exists out w',
    preprocess_and_baseline sample_data sample_world = Ok (out, w') /\
    index (out_X_unscaled out) = seq 0 6 /\
    mean_ (out_scaler out) =
      map col_mean
        (numeric_part (contents (mem w') (columns (out_X_unscaled out)))).
Proof.
  eexists _, _. split; [vm_compute; reflexivity|].
  edestruct (scaler_fit_on_whole_table sample_data sample_world)
    as (Hi & _ & _ & Hmean & _).
  - vm_compute. reflexivity.
  - vm_compute. reflexivity.
  - split; [exact Hi | exact Hmean].
Defined.

(** C3 as stated fails on a constant feature: the cost drivers of the sample
    table are all 1, their standard deviation over all rows is 0, and the
    scale the scaler retains is 1. *)
Lemma scaler_scale_of_constant_feature :
  exists out w',
    preprocess_and_baseline sample_data sample_world = Ok (out, w') /\
    scale_ (out_scaler out) <>
      map col_std
        (numeric_part (contents (mem w') (columns (out_X_unscaled out)))).
Proof.
  eexists _, _. split; [vm_compute; reflexivity|].
  vm_compute. discriminate.
Qed.

Lemma one_hot_on_sample_table :
  exists X w' e o s,
    build_features sample_data sample_world = Ok (X, w') /\
    holds (mem w') X "mode_embedded" (BoolCol e) /\
    holds (mem w') X "mode_organic" (BoolCol o) /\
    holds (mem w') X "mode_semidetached" (BoolCol s).
Proof.
  eexists _, _.
  edestruct (one_hot_mode_encoding sample_data sample_world)
    as (e & o & s & _ & He & Ho & Hs & _).
  - vm_compute. reflexivity.
  - vm_compute. reflexivity.
  - vm_compute. reflexivity.
  - vm_compute. reflexivity.
  - vm_compute. reflexivity.
  - exists e, o, s. split; [vm_compute; reflexivity|].
    split; [exact He|]. split; [exact Ho | exact Hs].
Defined.

Lemma reversing_law (g : unit) n :
  Permutation (fst (permutation g n)) (seq 0 n).
Proof. simpl. symmetry. apply Permutation_rev. Qed.

Lemma split_of_hundred_rows :
  exists X_train X_test y_train y_test w',
    train_test_split hundred_X hundred_y test_size_0_2 (Some 42%Z)
      hundred_world = Ok ((X_train, X_test, y_train, y_test), w') /\
    List.length (index X_train) = 80 /\ List.length (index X_test) = 20.
Proof.
  destruct (split_100_rows reversing_law hundred_X hundred_y hundred_world
              42%Z)
    as (X_train & X_test & y_train & y_test & w' & Hrun & H80 & H20 & _).
  - reflexivity.
  - reflexivity.
  - vm_compute. reflexivity.
  - vm_compute. reflexivity.
  - exists X_train, X_test, y_train, y_test, w'.
    split; [exact Hrun|]. split; [exact H80 | exact H20].
Defined.

Lemma baseline_on_sample_table :
  exists out w',
    preprocess_and_baseline sample_data sample_world = Ok (out, w') /\
    contents (mem w') (columns sample_data) =
      contents sample_memory (columns sample_data) /\
    out_cocomo_pred out =
      [Nan_e;
       Op1 Log1p
         (Op2 Mul (Op2 Mul (Rat (18 # 5)) (Op2 Pow (Rat 50) (Rat (6 # 5))))
                  (Rat 1))].
Proof.
  eexists _, _. split; [vm_compute; reflexivity|].
  edestruct (baseline_reads_raw_table sample_data sample_world)
    as (_ & Hdata & _).
  - vm_compute. reflexivity.
  - vm_compute. reflexivity.
  - split; [exact Hdata|]. vm_compute. reflexivity.
Defined.

(** ** More on the evaluator *)

Section EvaluatorExtras.

Lemma binary_round_opp prec emax m e :
  binary_round prec emax true m e = SFopp (binary_round prec emax false m e).
Proof.
  unfold binary_round. destruct (shl_align _ _ _) as [mz ez].
  unfold binary_round_aux.
  destruct (shr_fexp prec emax (Z.pos mz) ez loc_Exact) as [mrs' e'].
  destruct (shr_fexp prec emax _ e' loc_Exact) as [mrs'' e''].
  destruct (shr_m mrs'') as [|p|p]; [reflexivity| |reflexivity].
  by destruct (e'' <=? emax - prec)%Z.
Qed.

Lemma SFabs_opp z : SFabs (SFopp z) = SFabs z.
Proof. by destruct z. Qed.

Lemma square_opp z : square (SFopp z) = square z.
Proof. destruct z as [[]|[]| |[] m e]; reflexivity. Qed.

(** The two differences of a pair of finite numbers are opposite, or both
    0.0. *)
Lemma b64_sub_swap x y :
  b64_isfinite x = true -> b64_isfinite y = true ->
  b64_sub y x = SFopp (b64_sub x y) \/
  (b64_sub y x = S754_zero false /\ b64_sub x y = S754_zero false).
Proof.
  intros [[sx ->]|(sx & mx & ex & ->)]%b64_isfinite_cases
         [[sy ->]|(sy & my & ey & ->)]%b64_isfinite_cases;
    unfold b64_sub; simpl.
  - destruct sx, sy; auto.
  - left. by rewrite negb_involutive.
  - by left.
  - rewrite (Z.min_comm ey ex).
    set (a := cond_Zopp sx (Z.pos (shl_align mx ex (Z.min ex ey)).1)).
    set (b := cond_Zopp sy (Z.pos (shl_align my ey (Z.min ex ey)).1)).
    replace (b - a)%Z with (- (a - b))%Z by lia.
    destruct (a - b)%Z as [|p|p]; simpl.
    + by right.
    + left. apply binary_round_opp.
    + left. rewrite binary_round_opp.
      by destruct (binary_round 53 1024 false p (Z.min ex ey)) as [[]|[]| |[]].
Qed.

Lemma residuals_swap (f : spec_float -> spec_float) (xs ys : list spec_float) :
  (forall z, f (SFopp z) = f z) ->
  forallb b64_isfinite xs = true -> forallb b64_isfinite ys = true ->
  map f (zip_with b64_sub ys xs) = map f (zip_with b64_sub xs ys).
Proof.
  intros Hf. revert ys. induction xs as [|x xs IH]; intros [|y ys]; simpl;
    [reflexivity..|].
  intros [Hx Hxs]%andb_true_iff [Hy Hys]%andb_true_iff.
  f_equal; [|by apply IH].
  destruct (b64_sub_swap x y Hx Hy) as [-> | [-> ->]]; [apply Hf | done].
Qed.

(** X1. The evaluator returns exactly when the two vectors have the same
    length, at least one sample, and neither NaN nor infinity among their
    entries; otherwise it raises ValueError. *)
Theorem evaluate_model_returns_iff (y_true y_pred : list spec_float)
    (name : string) :
  ((exists m, evaluate_model y_true y_pred name = Ok m) <->
   List.length y_true = List.length y_pred /\
   1 <= List.length y_true /\
   forallb b64_isfinite y_true = true /\
   forallb b64_isfinite y_pred = true) /\
  (~ (List.length y_true = List.length y_pred /\
      1 <= List.length y_true /\
      forallb b64_isfinite y_true = true /\
      forallb b64_isfinite y_pred = true) ->
   evaluate_model y_true y_pred name = Raise ValueError).
Proof.
  assert (Hret : (exists m, evaluate_model y_true y_pred name = Ok m) ->
                 check_reg_targets y_true y_pred = Ok tt).
  { intros [m Hm]. unfold evaluate_model, mean_absolute_error in Hm.
    destruct (check_reg_targets_outcome y_true y_pred) as [Hok|Hraise];
      [exact Hok|]. rewrite Hraise in Hm. discriminate. }
  split; [split|].
  - intros Hm. by apply check_reg_targets_inv in Hret.
  - intros (Hlen & Hn & Ht & Hp).
    destruct (evaluate_model_checked y_true y_pred name) as (r & _ & Hm);
      [by apply check_reg_targets_ok | by eexists].
  - intros Hnot.
    destruct (check_reg_targets_outcome y_true y_pred) as [Hok|Hraise].
    + by apply check_reg_targets_inv in Hok.
    + unfold evaluate_model, mean_absolute_error. by rewrite Hraise.
Qed.

(** X22. Swapping truth and prediction leaves MAE and RMSE as they are: in
    binary64 the two differences of a pair of finite numbers are opposite,
    rounding included. *)
Theorem errors_are_symmetric (y_true y_pred : list spec_float)
    (name : string) (m m' : scores) :
  evaluate_model y_true y_pred name = Ok m ->
  evaluate_model y_pred y_true name = Ok m' ->
  MAE m' = MAE m /\ RMSE m' = RMSE m.
Proof.
  intros Hm Hm'.
  assert (Hok : check_reg_targets y_true y_pred = Ok tt).
  { destruct (check_reg_targets_outcome y_true y_pred) as [Hok|Hraise];
      [exact Hok|].
    unfold evaluate_model, mean_absolute_error in Hm.
    rewrite Hraise in Hm. discriminate. }
  destruct (check_reg_targets_inv _ _ _ Hok) as (Hlen & Hn & Ht & Hp).
  assert (Hok' : check_reg_targets y_pred y_true = Ok tt)
    by (apply check_reg_targets_ok; (done || lia)).
  destruct (evaluate_model_checked _ _ name Hok) as (r & _ & Heq).
  destruct (evaluate_model_checked _ _ name Hok') as (r' & _ & Heq').
  rewrite Heq in Hm. rewrite Heq' in Hm'.
  injection Hm as <-. injection Hm' as <-. simpl.
  rewrite (residuals_swap SFabs y_pred y_true SFabs_opp Hp Ht).
  rewrite (residuals_swap square y_pred y_true square_opp Hp Ht).
  done.
Qed.

End EvaluatorExtras.

Lemma evaluate_model_rejects_nan :
  evaluate_model [b64_of_nat 1; b64_of_nat 2] [b64_of_nat 1; S754_nan]
    "COCOMO I" = Raise ValueError.
Proof.
  apply evaluate_model_returns_iff.
  intros (_ & _ & _ & Hfinite). vm_compute in Hfinite. discriminate.
Defined.

Lemma errors_of_swapped_samples :
  exists m m',
    evaluate_model [b64_tenth; b64_of_nat 2] [b64_of_nat 1; b64_tiny]
      "Random Forest" = Ok m /\
    evaluate_model [b64_of_nat 1; b64_tiny] [b64_tenth; b64_of_nat 2]
      "Random Forest" = Ok m' /\
    MAE m' = MAE m /\ RMSE m' = RMSE m.
Proof.
  eexists _, _. split; [vm_compute; reflexivity|].
  split; [vm_compute; reflexivity|].
  apply (errors_are_symmetric
           [b64_tenth; b64_of_nat 2] [b64_of_nat 1; b64_tiny]
           "Random Forest"); vm_compute; reflexivity.
Defined.

(** X2. A zero RMSE does not tell a perfect prediction: squares underflow.
    For the truth [0, 0] and the prediction [1e-200, 1e-200] the squared
    errors are rounded to 0.0, so RMSE is 0.0 and R2 is 1.0 although the
    prediction differs from the truth, and MAE, 1e-200, exceeds RMSE. *)
Theorem squares_underflow :
  exists m,
    evaluate_model (repeat (S754_zero false) 2) (repeat b64_tiny 2)
      "Linear Regression" = Ok m /\
    MAE m = b64_tiny /\ RMSE m = S754_zero false /\ R2 m = b64_one.
Proof.
  eexists. split; [vm_compute; reflexivity|]. repeat split.
Qed.

(** X3. With two finite samples R2 can still be NaN: squares overflow.
    For the truth [1e200, -1e200] and the prediction [0, 0] both sums of
    squares are infinite, their quotient is NaN and so is R2, while RMSE is
    infinite. *)
Theorem r2_is_nan_on_overflow :
  exists m,
    evaluate_model [b64_huge; SFopp b64_huge] (repeat (S754_zero false) 2)
      "Decision Tree" = Ok m /\
    MAE m = b64_huge /\ RMSE m = S754_infinity false /\ R2 m = S754_nan.
Proof.
  eexists. split; [vm_compute; reflexivity|]. repeat split.
Qed.

(** X4. Predicting the computed mean of the truth does not always score 0:
    for the truth [0, 1e-200] the mean is 5e-201, the squared residuals
    underflow, the sum of squared residuals is 0.0 and R2 is 1.0. *)
Theorem r2_of_mean_prediction_underflows :
  exists m,
    evaluate_model [S754_zero false; b64_tiny]
      (repeat (average [S754_zero false; b64_tiny]) 2) "Random Forest" =
      Ok m /\
    ss_res [S754_zero false; b64_tiny]
      (repeat (average [S754_zero false; b64_tiny]) 2) = S754_zero false /\
    R2 m = b64_one.
Proof.
  eexists. split; [vm_compute; reflexivity|]. repeat split.
Qed.

(** X23. The mean of a constant vector need not be the constant: for the
    truth [0.1, 0.1, 0.1] the computed mean is 0.10000000000000002, the
    total sum of squares is not zero, and with the prediction
    [0.1, 0.1, 0.2] the evaluator returns a negative R2 of about -1.7e31,
    neither NaN nor 0.0. *)
Theorem r2_of_rounded_mean :
  average (repeat b64_tenth 3) = S754_finite false 7205759403792795 (-56) /\
  nonzero (ss_tot (repeat b64_tenth 3)) = true /\
  exists m,
    evaluate_model (repeat b64_tenth 3) [b64_tenth; b64_tenth; b64_fifth]
      "COCOMO I" = Ok m /\
    R2 m = S754_finite true 7686143364045648 51 /\
    SFltb (R2 m) (S754_zero false) = true.
Proof.
  split; [vm_compute; reflexivity|]. split; [vm_compute; reflexivity|].
  eexists. split; [vm_compute; reflexivity|]. repeat split.
Qed.

(** ** More on the reporter *)

Section ReporterExtras.
Open Scope R_scope.

(** The running best of [min] is either the seed, with nothing smaller
    after it, or the first element that beats everything before it. *)
Lemma min_from_first {A} (key : A -> R) (xs : list A) : forall best,
  let r := min_from key best (key best) xs in
  (r = best /\ forall y, y ∈ xs -> key best <= key y) \/
  (exists l1 l2, xs = l1 ++ r :: l2 /\ key r < key best /\
     (forall y, y ∈ l1 -> key r < key y) /\
     (forall y, y ∈ l2 -> key r <= key y)).
Proof.
  induction xs as [|x xs IH]; intros best; simpl.
  - left. split; [reflexivity|]. intros y Hy. by apply elem_of_nil in Hy.
  - destruct (Rlt_dec (key x) (key best)) as [Hlt|Hge].
    + right. destruct (IH x) as [[Hr Hall]|(l1 & l2 & Hxs & Hk & H1 & H2)].
      * exists [], xs. simpl in *. rewrite Hr.
        split; [reflexivity|]. split; [exact Hlt|].
        split; [intros y Hy; by apply elem_of_nil in Hy | exact Hall].
      * exists (x :: l1), l2. simpl in *.
        split; [by rewrite Hxs at 1|]. split; [lra|].
        split; [|exact H2]. intros y [->|Hy]%elem_of_cons; [lra | by apply H1].
    + destruct (IH best) as [[Hr Hall]|(l1 & l2 & Hxs & Hk & H1 & H2)].
      * left. simpl in *. split; [exact Hr|].
        intros y [->|Hy]%elem_of_cons; [lra | by apply Hall].
      * right. exists (x :: l1), l2. simpl in *.
        split; [by rewrite Hxs at 1|]. split; [exact Hk|].
        split; [|exact H2]. intros y [->|Hy]%elem_of_cons; [lra | by apply H1].
Qed.

(** X5. The reporter's [min] returns the first candidate of minimal RMSE in
    the insertion order of the results: every name before the winner has a
    strictly larger RMSE, every name after it an RMSE at least as large; on
    an empty dict it raises ValueError. *)
Theorem best_model_first_minimum (results : dict metrics) :
  (results = [] -> best_model results = Raise ValueError) /\
  (forall best, best_model results = Ok best ->
     exists before after,
       keys results = before ++ best :: after /\
       (forall k, k ∈ before -> rmse_of results best < rmse_of results k) /\
       (forall k, k ∈ after -> rmse_of results best <= rmse_of results k)).
Proof.
  split; [by intros ->|].
  intros best. unfold best_model, py_min.
  destruct (keys results) as [|k0 ks]; [discriminate|].
  intros [= <-].
  destruct (min_from_first (rmse_of results) ks k0)
    as [[Hr Hall]|(l1 & l2 & Hxs & Hk & H1 & H2)].
  - exists [], ks. simpl in *. rewrite Hr.
    split; [reflexivity|].
    split; [intros k Hk; by apply elem_of_nil in Hk | exact Hall].
  - exists (k0 :: l1), l2. simpl in *.
    split; [by rewrite Hxs at 1|].
    split; [|exact H2]. intros k [->|Hk']%elem_of_cons; [lra | by apply H1].
Qed.

(** X6. A value stored in a dict under a name is read back under that name
    and leaves the other names as they were; a new name goes to the end of
    the iteration order and a known one keeps its place. *)
Theorem dict_set_get {V} (d : dict V) (k k' : string) (v : V) :
  dict_get (dict_set d k v) k' =
    (if String.eqb k k' then Ok v else dict_get d k') /\
  keys (dict_set d k v) =
    (if existsb (String.eqb k) (keys d) then keys d else keys d ++ [k]).
Proof.
  split.
  - induction d as [|[k0 v0] d IH]; simpl.
    + destruct (String.eqb k k'); reflexivity.
    + destruct (String.eqb_spec k0 k) as [->|Hne]; simpl.
      * destruct (String.eqb_spec k k') as [->|Hne']; reflexivity.
      * destruct (String.eqb_spec k0 k') as [->|Hne'].
        -- destruct (String.eqb_spec k k'); [congruence | reflexivity].
        -- exact IH.
  - induction d as [|[k0 v0] d IH]; simpl; [reflexivity|].
    rewrite (String.eqb_sym k k0).
    destruct (String.eqb k0 k); simpl; [reflexivity|].
    rewrite IH. by destruct (existsb (String.eqb k) (keys d)).
Qed.

End ReporterExtras.

Lemma best_model_of_tied_results :
  exists before after,
    keys (collect_results (with_error 2) (with_error 1) (with_error 3)
                          (with_error 1)) =
      before ++ "Linear Regression" :: after.
Proof.
  assert (Hbest : best_model (collect_results (with_error 2) (with_error 1)
                    (with_error 3) (with_error 1)) = Ok "Linear Regression").
  { unfold best_model, py_min. simpl.
    unfold rmse_of at 1 2. simpl.
    destruct (Rlt_dec 1 2) as [_|Hn]; [|exfalso; lra].
    unfold rmse_of at 1 2. simpl.
    destruct (Rlt_dec 3 1) as [Hn|_]; [exfalso; lra|].
    unfold rmse_of at 1 2. simpl.
    destruct (Rlt_dec 1 1) as [Hn|_]; [exfalso; lra | reflexivity]. }
  destruct (proj2 (best_model_first_minimum _) _ Hbest)
    as (before & after & Hkeys & _ & _).
  by exists before, after.
Defined.

(** ** More on the parametric estimator *)

Section EstimatorExtras.
Context {F : Type} `{Scalar F}.

Local Abbreviation row := (gmap string (cell F)).

Lemma effort_multiplier_type_error (r : row) (ds : list string) : forall em,
  forallb (fun d => match r !! d with
                    | Some (Str _) => false
                    | _ => true
                    end) ds = false ->
  effort_multiplier r ds em = Raise TypeError.
Proof.
  induction ds as [|d ds IH]; intros em; simpl; [discriminate|].
  destruct (r !! d) as [[x|s]|]; simpl.
  - apply IH.
  - reflexivity.
  - apply IH.
Qed.

(** X7. The estimator raises TypeError as soon as a cost driver of the row
    holds a string, whatever [loc] is; with numeric drivers it raises
    KeyError when the row has no [loc] and TypeError when [loc] holds a
    string. *)
Theorem cocomo_effort_errors (r : row) :
  (numeric_drivers r = false ->
   calculate_cocomo_effort r = Raise TypeError) /\
  (numeric_drivers r = true -> r !! "loc" = None ->
   calculate_cocomo_effort r = Raise (KeyError "loc")) /\
  (numeric_drivers r = true -> forall s, r !! "loc" = Some (Str s) ->
   calculate_cocomo_effort r = Raise TypeError).
Proof.
  assert (Hem : numeric_drivers r = true ->
    effort_multiplier r cost_drivers (lit 1.0) =
    Ok (product (omap (rating r) (present_drivers r)))).
  { intros Hnum. apply effort_multiplier_present.
    intros d s. by apply numeric_drivers_lookup. }
  unfold calculate_cocomo_effort.
  split; [|split].
  - intros Hnum. rewrite (effort_multiplier_type_error r _ _ Hnum).
    by destruct (coefficients r).
  - intros Hnum Hloc. rewrite (Hem Hnum). unfold getitem. rewrite Hloc.
    by destruct (coefficients r).
  - intros Hnum s Hloc. rewrite (Hem Hnum). unfold getitem. rewrite Hloc.
    by destruct (coefficients r).
Qed.

Lemma product_neutral (xs : list F) :
  Forall (fun x => fmul (lit 1.0) x = lit 1.0) xs -> product xs = lit 1.0.
Proof.
  unfold product. induction 1 as [|x xs Hx _ IH]; simpl; [reflexivity|].
  by rewrite Hx.
Qed.

(** X8. When every cost driver of the row is a neutral rating, one that
    leaves 1.0 unchanged under multiplication, the effort multiplier is 1.0:
    the estimator returns log1p(a * loc^b * 1.0), unless the power loc ** b
    overflows, and raises OverflowError when it does. *)
Theorem cocomo_effort_neutral_drivers (r : row) (kloc : F) :
  r !! "loc" = Some (Num kloc) ->
  (forall d c, d ∈ cost_drivers -> r !! d = Some c ->
     exists x, c = Num x /\ fmul (lit 1.0) x = lit 1.0) ->
  (overflows kloc (lit (coefficients r).2) = false ->
   calculate_cocomo_effort r =
     Ok (flog1p (fmul (fmul (lit (coefficients r).1)
                            (fpow kloc (lit (coefficients r).2)))
                      (lit 1.0)))) /\
  (overflows kloc (lit (coefficients r).2) = true ->
   calculate_cocomo_effort r = Raise OverflowError).
Proof.
  intros Hloc Hneutral.
  assert (Hn : forall d s, d ∈ cost_drivers -> r !! d <> Some (Str s)).
  { intros d s Hd Hs. destruct (Hneutral d _ Hd Hs) as (x & [=] & _). }
  assert (Hem : product (omap (rating r)
                  (filter (fun d => is_Some (r !! d)) cost_drivers)) = lit 1.0).
  { apply product_neutral, Forall_forall. intros x Hx.
    apply list_elem_of_omap in Hx as (d & Hd & Hx).
    apply list_elem_of_filter in Hd as [_ Hd].
    unfold rating in Hx. destruct (r !! d) as [c|] eqn:Hc; [|discriminate].
    destruct (Hneutral d c Hd Hc) as (x' & -> & Hx'). by injection Hx as <-. }
  unfold calculate_cocomo_effort.
  rewrite (effort_multiplier_present r cost_drivers _ Hn).
  change (fold_left fmul ?xs (lit 1.0)) with (product xs).
  rewrite Hem. unfold getitem. rewrite Hloc.
  destruct (coefficients r) as [a b]. cbn [bind power fst snd].
  unfold overflows.
  split; intros ->; reflexivity.
Qed.

End EstimatorExtras.

Lemma cocomo_effort_without_loc :
  calculate_cocomo_effort (delete "loc" sample_row) = Raise (KeyError "loc").
Proof.
  destruct (cocomo_effort_errors (delete "loc" sample_row)) as (_ & Hloc & _).
  apply Hloc; vm_compute; reflexivity.
Defined.

(** A row whose drivers are all rated nominal. *)
Lemma cocomo_effort_of_nominal_row :
  calculate_cocomo_effort
    (<["rely" := Num (Rat 1)]> (<["cplx" := Num (Rat 1)]> sample_row)) =
  Ok (Op1 Log1p
        (Op2 Mul (Op2 Mul (Rat (12 # 5)) (Op2 Pow (Rat 10) (Rat (21 # 20))))
                 (Rat 1))).
Proof.
  destruct (cocomo_effort_neutral_drivers
              (<["rely" := Num (Rat 1)]> (<["cplx" := Num (Rat 1)]> sample_row))
              (Rat 10)) as [Hfits _].
  - vm_compute. reflexivity.
  - intros d c Hd Hc. exists (Rat 1).
    unfold cost_drivers in Hd.
    repeat (apply elem_of_cons in Hd as [-> | Hd];
            [vm_compute in Hc; first [discriminate | by injection Hc as <-]|]).
    by apply elem_of_nil in Hd.
  - rewrite Hfits; vm_compute; reflexivity.
Defined.

(** ** More on the feature builder *)

Section FeatureExtras.
Context {F : Type} `{Scalar F} {G : Type} `{Generator G}.

Abbreviation column' := (@column F).
Abbreviation world' := (@world F G).
Abbreviation M' := (@M F G).

Lemma mbind_raise {A B} (m : M' A) (k : A -> M' B) w e :
  m w = Raise e -> mbind m k w = Raise e.
Proof. unfold mbind. by intros ->. Qed.

Lemma mbind_run {A B} (m : M' A) (k : A -> M' B) w a w' :
  m w = Ok (a, w') -> mbind m k w = k a w'.
Proof. unfold mbind. by intros ->. Qed.

Lemma getcol_outcome (cols : list (string * addr)) k :
  if existsb (String.eqb k) (map fst cols)
  then exists a, getcol cols k = Ok a
  else getcol cols k = Raise (KeyError k).
Proof.
  induction cols as [|[k' a'] cols IH]; simpl; [reflexivity|].
  rewrite (String.eqb_sym k k').
  destruct (String.eqb k' k); simpl; [by eexists | exact IH].
Qed.

(** [fr[[ks]]] looks the labels up from left to right. *)
Lemma pick_outcome (cols : list (string * addr)) ks :
  match missing_label (map fst cols) ks with
  | Some k =>
      mapM (fun k => do a <- getcol cols k; Ok (k, a)) ks = Raise (KeyError k)
  | None =>
      exists picked,
        mapM (fun k => do a <- getcol cols k; Ok (k, a)) ks = Ok picked
  end.
Proof.
  unfold missing_label. induction ks as [|k ks IH]; simpl; [by eexists|].
  pose proof (getcol_outcome cols k) as Hk.
  destruct (existsb (String.eqb k) (map fst cols)); simpl.
  - destruct Hk as [a ->]. simpl.
    destruct (find _ ks) as [k'|].
    + by rewrite IH.
    + destruct IH as [picked ->]. by eexists.
  - by rewrite Hk.
Qed.

Lemma copy_columns_ok cols : forall (w : world'),
  valid (mem w) cols ->
  exists cols' w', mapMM copy_column cols w = Ok (cols', w').
Proof.
  induction cols as [|ka cols IH]; intros w Hv; simpl; [by eexists _, _|].
  inversion Hv as [|? ? Hka Hv']; subst.
  destruct (lookup_lt_is_Some_2 _ _ Hka) as [c Hc].
  set (w1 := {| mem := mem w ++ [c]; np_random := np_random w |}).
  assert (Hcopy : copy_column ka w = Ok ((fst ka, List.length (mem w)), w1)).
  { unfold copy_column, mbind, load, alloc, ret. by rewrite Hc. }
  destruct (IH w1) as (cols' & w' & Hrest).
  { apply (valid_extends w w1); [by exists [c] | exact Hv']. }
  eexists _, _. rewrite (mbind_run _ _ _ _ _ Hcopy).
  rewrite (mbind_run _ _ _ _ _ Hrest). reflexivity.
Qed.

Lemma alloc_dummies_ok kbs : forall (w : world'),
  exists cols w', mapMM alloc_dummy kbs w = Ok (cols, w').
Proof.
  induction kbs as [|kb kbs IH]; intros w; simpl; [by eexists _, _|].
  set (w1 := {| mem := mem w ++ [BoolCol (snd kb)];
                np_random := np_random w |}).
  assert (Hd : alloc_dummy kb w = Ok ((fst kb, List.length (mem w)), w1))
    by reflexivity.
  destruct (IH w1) as (cols & w' & Hrest).
  eexists _, _. rewrite (mbind_run _ _ _ _ _ Hd).
  rewrite (mbind_run _ _ _ _ _ Hrest). reflexivity.
Qed.

Lemma get_dummies_ok data col prefix (w : world') a :
  valid (mem w) (columns data) ->
  getcol (columns data) col = Ok a ->
  exists enc w', get_dummies data col prefix w = Ok (enc, w').
Proof.
  intros Hv Ha.
  assert (Hlt : a < List.length (mem w)).
  { apply getcol_elem in Ha. unfold valid in Hv. rewrite Forall_forall in Hv.
    exact (Hv _ Ha). }
  destruct (lookup_lt_is_Some_2 _ _ Hlt) as [c Hc].
  destruct (copy_columns_ok
              (List.filter (fun ka => negb (String.eqb (fst ka) col))
                           (columns data)) w)
    as (kept & w1 & Hkept).
  { eapply valid_sub; [exact Hv | apply filter_sub]. }
  destruct (alloc_dummies_ok (dummy_columns prefix c) w1)
    as (dummies & w2 & Hdum).
  eexists _, _. unfold get_dummies. rewrite Ha.
  unfold lift at 1. unfold mbind at 1.
  unfold load at 1. unfold mbind at 1. rewrite Hc.
  rewrite (mbind_run _ _ _ _ _ Hkept), (mbind_run _ _ _ _ _ Hdum).
  reflexivity.
Qed.

Lemma select_outcome fr ks (w : world') :
  valid (mem w) (columns fr) ->
  match missing_label (map fst (columns fr)) ks with
  | Some k => select fr ks w = Raise (KeyError k)
  | None => exists fr' w', select fr ks w = Ok (fr', w')
  end.
Proof.
  intros Hv. pose proof (pick_outcome (columns fr) ks) as Hp.
  destruct (missing_label (map fst (columns fr)) ks) as [k|].
  - unfold select. rewrite Hp. reflexivity.
  - destruct Hp as [picked Hp].
    destruct (copy_columns_ok picked w) as (cols & w' & Hc).
    { eapply valid_sub; [exact Hv|]. by destruct (pick_inv _ _ _ Hp). }
    eexists _, _. unfold select. rewrite Hp.
    unfold lift at 1. unfold mbind at 1.
    rewrite (mbind_run _ _ _ _ _ Hc). reflexivity.
Qed.

Lemma concat_ok a b (w : world') :
  valid (mem w) (columns a) -> valid (mem w) (columns b) ->
  exists fr w', concat a b w = Ok (fr, w').
Proof.
  intros Ha Hb.
  destruct (copy_columns_ok (columns a ++ columns b) w) as (cols & w' & Hc);
    [by apply Forall_app|].
  eexists _, _. unfold concat. rewrite (mbind_run _ _ _ _ _ Hc). reflexivity.
Qed.

Lemma elem_of_insert_level x l y :
  y ∈ insert_level String.leb String.eqb x l <-> y = x \/ y ∈ l.
Proof.
  induction l as [|z l IH]; simpl.
  - rewrite list_elem_of_singleton, elem_of_nil. tauto.
  - destruct (String.eqb_spec x z) as [->|Hne].
    + rewrite elem_of_cons. tauto.
    + destruct (String.leb x z).
      * rewrite elem_of_cons. tauto.
      * rewrite !elem_of_cons, IH. tauto.
Qed.

(** The levels of a column are the strings that occur in it. *)
Lemma elem_of_levels xs y :
  y ∈ levels String.leb String.eqb xs <-> y ∈ xs.
Proof.
  unfold levels. induction xs as [|x xs IH]; simpl; [reflexivity|].
  by rewrite elem_of_insert_level, IH, elem_of_cons.
Qed.

Lemma existsb_eqb_elem k (l : list string) :
  existsb (String.eqb k) l = true <-> k ∈ l.
Proof.
  rewrite existsb_exists. split.
  - intros (x & Hx & ->%String.eqb_eq). by apply list_elem_of_In.
  - intros Hk. exists k. split; [by apply list_elem_of_In|].
    apply String.eqb_refl.
Qed.

Lemma dummy_label_occurs vs l :
  existsb (String.eqb ("mode" +:+ "_" +:+ l))
          (map fst (dummy_columns (F:=F) "mode" (ObjCol vs))) =
  existsb (String.eqb l) (strings_of vs).
Proof.
  apply Bool.eq_iff_eq_true. rewrite !existsb_eqb_elem.
  unfold dummy_columns. rewrite map_map. simpl.
  rewrite list_elem_of_fmap. split.
  - intros (l' & Heq & Hl'). apply mode_label_inj in Heq. subst l'.
    by apply elem_of_levels.
  - intros Hl. exists l. split; [reflexivity | by apply elem_of_levels].
Qed.

(** X9. On a table laid out in memory the feature builder raises KeyError
    for [dev_mode] when the table has no such column, and otherwise KeyError
    for the first of [loc] and the fifteen cost drivers that the table
    lacks. *)
Theorem build_features_missing_column data (w : world') :
  table_ok (mem w) data = true ->
  (existsb (String.eqb "dev_mode") (map fst (columns data)) = false ->
   build_features data w = Raise (KeyError "dev_mode")) /\
  (forall k,
     existsb (String.eqb "dev_mode") (map fst (columns data)) = true ->
     missing_label (map fst (columns data)) ("loc" :: cost_drivers) = Some k ->
     build_features data w = Raise (KeyError k)).
Proof.
  intros Hok. pose proof (table_ok_valid _ _ Hok) as Hv.
  pose proof (getcol_outcome (columns data) "dev_mode") as Hd.
  split.
  - intros Hno. rewrite Hno in Hd.
    unfold build_features. apply mbind_raise.
    unfold get_dummies. apply mbind_raise. by rewrite Hd.
  - intros k Hyes Hk. rewrite Hyes in Hd. destruct Hd as [a Ha].
    destruct (get_dummies_ok data "dev_mode" "mode" w a Hv Ha)
      as (enc & w1 & Henc).
    unfold build_features. rewrite (mbind_run _ _ _ _ _ Henc).
    apply mbind_raise.
    apply get_dummies_inv in Henc as (_ & _ & _ & _ & Hext & _); [|exact Hok].
    pose proof (select_outcome data ("loc" :: cost_drivers) w1
                  (valid_extends _ _ _ Hext Hv)) as Hsel.
    by rewrite Hk in Hsel.
Qed.

(** The three steps before the concatenation: the encoding and the
    selection of [loc] and the drivers go through, and the selection of the
    indicators depends on the categories that occur. *)
Lemma build_features_steps data (w : world') a vs :
  table_ok (mem w) data = true ->
  getcol (columns data) "dev_mode" = Ok a ->
  mem w !! a = Some (ObjCol vs) ->
  unlabelled (columns data) indicator_labels = true ->
  missing_label (map fst (columns data)) ("loc" :: cost_drivers) = None ->
  exists enc w1 lf w2,
    get_dummies data "dev_mode" "mode" w = Ok (enc, w1) /\
    select data ("loc" :: cost_drivers) w1 = Ok (lf, w2) /\
    valid (mem w2) (columns lf) /\
    match missing_label (strings_of vs) categories with
    | Some l =>
        select enc ["mode_embedded"; "mode_organic"; "mode_semidetached"] w2 =
          Raise (KeyError ("mode_" +:+ l))
    | None =>
        exists r w3,
          select enc ["mode_embedded"; "mode_organic"; "mode_semidetached"] w2
            = Ok (r, w3) /\
          extends w2 w3 /\ valid (mem w3) (columns r)
    end.
Proof.
  intros Hok Ha Hvs Hun Hall.
  pose proof (table_ok_valid _ _ Hok) as Hv.
  destruct (get_dummies_ok data "dev_mode" "mode" w a Hv Ha)
    as (enc & w1 & Henc).
  pose proof Henc as Hinv.
  apply get_dummies_inv in Hinv
    as (a' & c & Ha' & Hc & Hext1 & _ & Hnenc & _ & Hok1 & _); [|exact Hok].
  rewrite Ha in Ha'. injection Ha' as <-.
  rewrite Hvs in Hc. injection Hc as <-.
  pose proof (select_outcome data ("loc" :: cost_drivers) w1
                (valid_extends _ _ _ Hext1 Hv)) as Hleft.
  rewrite Hall in Hleft. destruct Hleft as (lf & w2 & Hleft).
  pose proof Hleft as Hlinv.
  apply select_inv in Hlinv as (_ & _ & _ & _ & Hext2 & _ & Hvl & _);
    [|by eapply valid_extends].
  pose proof (valid_extends _ _ _ Hext2 (table_ok_valid _ _ Hok1)) as Hv2.
  pose proof (select_outcome enc
                ["mode_embedded"; "mode_organic"; "mode_semidetached"] w2 Hv2)
    as Hright.
  assert (Hlabel : forall l, ("mode" +:+ "_" +:+ l) ∈ indicator_labels ->
    existsb (String.eqb ("mode" +:+ "_" +:+ l)) (map fst (columns enc)) =
    existsb (String.eqb l) (strings_of vs)).
  { intros l Hl. rewrite Hnenc, existsb_app.
    rewrite (unlabelled_filter _ _ _ _ Hun Hl). simpl.
    apply dummy_label_occurs. }
  assert (Hmiss :
    missing_label (map fst (columns enc))
      ["mode_embedded"; "mode_organic"; "mode_semidetached"] =
    option_map (fun l => "mode_" +:+ l)
               (missing_label (strings_of vs) categories)).
  { assert (He : existsb (String.eqb "mode_embedded") (map fst (columns enc))
                 = existsb (String.eqb "embedded") (strings_of vs))
      by (apply (Hlabel "embedded"), list_elem_of_In; simpl; tauto).
    assert (Ho : existsb (String.eqb "mode_organic") (map fst (columns enc))
                 = existsb (String.eqb "organic") (strings_of vs))
      by (apply (Hlabel "organic"), list_elem_of_In; simpl; tauto).
    assert (Hs : existsb (String.eqb "mode_semidetached")
                         (map fst (columns enc))
                 = existsb (String.eqb "semidetached") (strings_of vs))
      by (apply (Hlabel "semidetached"), list_elem_of_In; simpl; tauto).
    unfold missing_label, categories. cbn [find]. rewrite He, Ho, Hs.
    destruct (existsb (String.eqb "embedded") (strings_of vs));
      cbn [negb]; [|reflexivity].
    destruct (existsb (String.eqb "organic") (strings_of vs));
      cbn [negb]; [|reflexivity].
    destruct (existsb (String.eqb "semidetached") (strings_of vs));
      reflexivity. }
  rewrite Hmiss in Hright.
  exists enc, w1, lf, w2.
  split; [exact Henc|]. split; [exact Hleft|]. split; [exact Hvl|].
  destruct (missing_label (strings_of vs) categories) as [l|]; simpl in Hright.
  - exact Hright.
  - destruct Hright as (r & w3 & Hright). exists r, w3.
    split; [exact Hright|].
    apply select_inv in Hright as (_ & _ & _ & _ & Hext3 & _ & Hvr & _);
      [|exact Hv2].
    by split.
Qed.

(** X10. On a table that carries [loc], the fifteen cost drivers and a
    [dev_mode] column of strings, the feature builder returns the feature
    matrix exactly when each of the three categories occurs in [dev_mode];
    otherwise it raises KeyError for the indicator of the first category, in
    the order embedded, organic, semidetached, that does not occur. *)
Theorem build_features_needs_every_category data (w : world') a vs :
  table_ok (mem w) data = true ->
  getcol (columns data) "dev_mode" = Ok a ->
  mem w !! a = Some (ObjCol vs) ->
  unlabelled (columns data) indicator_labels = true ->
  missing_label (map fst (columns data)) ("loc" :: cost_drivers) = None ->
  match missing_label (strings_of vs) categories with
  | Some l => build_features data w = Raise (KeyError ("mode_" +:+ l))
  | None => exists X w', build_features data w = Ok (X, w')
  end.
Proof.
  intros Hok Ha Hvs Hun Hall.
  destruct (build_features_steps data w a vs Hok Ha Hvs Hun Hall)
    as (enc & w1 & lf & w2 & Henc & Hleft & Hvl & Hright).
  unfold build_features.
  rewrite (mbind_run _ _ _ _ _ Henc), (mbind_run _ _ _ _ _ Hleft).
  destruct (missing_label (strings_of vs) categories) as [l|].
  - by apply mbind_raise.
  - destruct Hright as (r & w3 & Hright & Hext3 & Hvr).
    rewrite (mbind_run _ _ _ _ _ Hright).
    apply concat_ok; [by eapply valid_extends | exact Hvr].
Qed.

End FeatureExtras.

Lemma build_features_without_dev_mode :
  build_features hundred_X hundred_world = Raise (KeyError "dev_mode").
Proof.
  destruct (build_features_missing_column hundred_X hundred_world)
    as [Hraise _].
  - vm_compute. reflexivity.
  - apply Hraise. vm_compute. reflexivity.
Defined.

Lemma build_features_on_sample_table :
  exists X w', build_features sample_data sample_world = Ok (X, w').
Proof.
  apply (build_features_needs_every_category sample_data sample_world 16
           [Some "organic"; Some "semidetached"; Some "embedded";
            Some "other"; None; Some "organic"]);
    vm_compute; reflexivity.
Defined.

(** ** More on the imputer *)

Section ImputerExtras.
Context {F : Type} `{Scalar F}.

Lemma insert_sorted_perm (x : F) (l : list F) :
  Permutation (insert_sorted x l) (x :: l).
Proof.
  induction l as [|y l IH]; simpl; [reflexivity|].
  destruct (fleb x y); [reflexivity|].
  rewrite IH. apply perm_swap.
Qed.

(** Sorting rearranges the values and nothing else. *)
Lemma sort_values_perm (xs : list F) : Permutation (sort_values xs) xs.
Proof.
  unfold sort_values. induction xs as [|x xs IH]; simpl; [reflexivity|].
  by rewrite insert_sorted_perm, IH.
Qed.

Lemma half_lt (n : nat) : n <> 0 -> n / 2 < n.
Proof. intros Hn. apply Nat.div_lt; lia. Qed.

(** X11. Imputing a numeric column never fails and keeps its length; every
    observed entry stays as it is and every missing entry receives the
    median of the column.  The median of a column without observed values is
    NaN; with an odd number of observed values it is one of them, so no
    missing entry is left; with an even number it is the half sum of two of
    them. *)
Theorem impute_numeric_column (xs : list F) :
  exists ys,
    impute_column (NumCol xs) = Ok (NumCol ys) /\
    List.length ys = List.length xs /\
    (forall i x, xs !! i = Some x ->
       ys !! i = Some (if fisnan x then median xs else x)) /\
    (observed xs = [] -> median xs = fnan) /\
    (Nat.odd (List.length (observed xs)) = true ->
       median xs ∈ observed xs /\
       Forall (fun y => fisnan y = false) ys) /\
    (observed xs <> [] -> Nat.odd (List.length (observed xs)) = false ->
       exists a b, a ∈ observed xs /\ b ∈ observed xs /\
                   median xs = fdiv (fadd a b) (lit 2)).
Proof.
  eexists. split; [reflexivity|].
  pose proof (sort_values_perm (observed xs)) as Hperm.
  pose proof (Permutation_length Hperm) as Hlen.
  assert (Hin : forall i, i < List.length (observed xs) ->
                          nth i (sort_values (observed xs)) fnan ∈ observed xs).
  { intros i Hi. apply list_elem_of_In, (Permutation_in _ Hperm), nth_In.
    by rewrite Hlen. }
  split; [apply length_map|].
  split.
  { intros i x Hi. by rewrite list_lookup_fmap, Hi. }
  unfold median. rewrite Hlen.
  split.
  { intros ->. reflexivity. }
  split.
  - intros Hodd.
    destruct (Nat.eqb_spec (List.length (observed xs)) 0) as [Hz|Hnz].
    { rewrite Hz in Hodd. discriminate. }
    rewrite Hodd.
    assert (Hmed : nth (List.length (observed xs) / 2)
                       (sort_values (observed xs)) fnan ∈ observed xs)
      by (by apply Hin, half_lt).
    split; [exact Hmed|].
    apply Forall_forall. intros y Hy.
    apply list_elem_of_fmap in Hy as (x & -> & Hx).
    destruct (fisnan x) eqn:Hnan; [|exact Hnan].
    unfold observed in Hmed. apply list_elem_of_In, filter_In in Hmed.
    destruct Hmed as [_ Hmed]. by apply negb_true_iff in Hmed.
  - intros Hne Heven.
    destruct (Nat.eqb_spec (List.length (observed xs)) 0) as [Hz|Hnz].
    { destruct (observed xs); [done | discriminate]. }
    rewrite Heven. eexists _, _.
    split; [|split; [|reflexivity]].
    + apply Hin. pose proof (half_lt _ Hnz). lia.
    + by apply Hin, half_lt.
Qed.

Lemma occurrences_absent (s : string) (xs : list string) :
  s ∉ xs -> occurrences s xs = 0.
Proof.
  unfold occurrences. induction xs as [|x xs IH]; simpl; [reflexivity|].
  rewrite not_elem_of_cons. intros [Hne Hs].
  destruct (String.eqb_spec s x); [done | by apply IH].
Qed.

(** The running best of [mode] has the largest count so far. *)
Lemma mode_from (c : string -> nat) (ls : list string) : forall b,
  exists v,
    fold_left (fun best l =>
                 match best with
                 | None => Some l
                 | Some b => if Nat.ltb (c b) (c l) then Some l else Some b
                 end) ls (Some b) = Some v /\
    (v = b \/ v ∈ ls) /\ c b <= c v /\ forall s, s ∈ ls -> c s <= c v.
Proof.
  induction ls as [|l ls IH]; intros b; simpl.
  - exists b. split; [reflexivity|]. split; [by left|]. split; [lia|].
    intros s Hs. by apply elem_of_nil in Hs.
  - destruct (Nat.ltb_spec (c b) (c l)) as [Hlt|Hge].
    + destruct (IH l) as (v & -> & Hv & Hl & Hall). exists v.
      split; [reflexivity|].
      split; [right; destruct Hv as [->|Hv]; [by left | by right]|].
      split; [lia|].
      intros s [->|Hs]%elem_of_cons; [exact Hl | by apply Hall].
    + destruct (IH b) as (v & -> & Hv & Hb & Hall). exists v.
      split; [reflexivity|].
      split; [destruct Hv as [->|Hv]; [by left | right; by right]|].
      split; [exact Hb|].
      intros s [->|Hs]%elem_of_cons; [lia | by apply Hall].
Qed.

Lemma most_frequent_outcome (xs : list string) :
  match most_frequent xs with
  | Some v => v ∈ xs /\ forall s, occurrences s xs <= occurrences v xs
  | None => xs = []
  end.
Proof.
  unfold most_frequent.
  pose proof (elem_of_levels xs) as Hlv.
  destruct (levels String.leb String.eqb xs) as [|l ls] eqn:Hls; simpl.
  - destruct xs as [|x xs]; [reflexivity|].
    exfalso. apply (elem_of_nil x), Hlv. by left.
  - destruct (mode_from (fun l => occurrences l xs) ls l)
      as (v & -> & Hv & Hl & Hall).
    split.
    + apply Hlv. destruct Hv as [->|Hv]; [by left | by right].
    + intros s. destruct (decide (s ∈ xs)) as [Hs|Hs].
      * apply Hlv in Hs. apply elem_of_cons in Hs as [->|Hs];
          [exact Hl | by apply Hall].
      * rewrite (occurrences_absent _ _ Hs). lia.
Qed.

Lemma elem_of_strings_of (xs : list (option string)) (v : string) :
  v ∈ strings_of xs <-> Some v ∈ xs.
Proof.
  unfold strings_of. rewrite list_elem_of_omap. split.
  - by intros (x & Hx & ->).
  - intros Hv. by exists (Some v).
Qed.

(** X12. Imputing a column of strings raises KeyError when the column holds
    no string at all; otherwise it keeps the length, leaves every string as
    it is and replaces every missing entry by one and the same string of the
    column, one that no other string outnumbers. *)
Theorem impute_object_column (xs : list (option string)) :
  (strings_of xs = [] ->
   impute_column (F:=F) (ObjCol xs) = Raise (KeyError "0")) /\
  (strings_of xs <> [] ->
   exists v ys,
     impute_column (F:=F) (ObjCol xs) = Ok (ObjCol ys) /\
     List.length ys = List.length xs /\
     Some v ∈ xs /\
     (forall s, occurrences s (strings_of xs) <=
                occurrences v (strings_of xs)) /\
     forall i x, xs !! i = Some x -> ys !! i = Some (Some (default v x))).
Proof.
  pose proof (most_frequent_outcome (strings_of xs)) as Hm.
  unfold impute_column. split.
  - intros Hnone. rewrite Hnone. reflexivity.
  - intros Hsome. destruct (most_frequent (strings_of xs)) as [v|]; [|done].
    destruct Hm as [Hv Hmax]. eexists v, _.
    split; [reflexivity|]. split; [apply length_map|].
    split; [by apply elem_of_strings_of|]. split; [exact Hmax|].
    intros i x Hi. rewrite list_lookup_fmap, Hi. by destruct x.
Qed.

End ImputerExtras.

Lemma impute_numeric_on_four_entries :
  exists ys,
    impute_column (NumCol [Rat 1; Nan_e; Rat 3; Rat 2]) = Ok (NumCol ys) /\
    Forall (fun y => fisnan y = false) ys.
Proof.
  destruct (impute_numeric_column [Rat 1; Nan_e; Rat 3; Rat 2])
    as (ys & Hrun & _ & _ & _ & Hodd & _).
  exists ys. split; [exact Hrun|]. apply Hodd. vm_compute. reflexivity.
Defined.

Lemma impute_object_on_four_entries :
  exists v ys,
    impute_column (F:=exact)
      (ObjCol [Some "organic"; None; Some "embedded"; Some "organic"]) =
      Ok (ObjCol ys) /\
    ys !! 1 = Some (Some v).
Proof.
  destruct (impute_object_column (F:=exact)
              [Some "organic"; None; Some "embedded"; Some "organic"])
    as [_ Hfill].
  destruct Hfill as (v & ys & Hrun & _ & _ & _ & Hat).
  - vm_compute. discriminate.
  - exists v, ys. split; [exact Hrun|]. by apply (Hat 1 None).
Defined.

Section ImputerRun.
Context {F : Type} `{Scalar F} {G : Type} `{Generator G}.

Abbreviation column' := (@column F).
Abbreviation world' := (@world F G).

(** What a column becomes and when it can be imputed. *)
Lemma impute_column_raise (c : column') e :
  impute_column c = Raise e -> e = KeyError "0".
Proof.
  destruct c as [xs|xs|xs]; simpl; try discriminate.
  destruct (most_frequent (strings_of xs)); [discriminate|]. by intros [= <-].
Qed.

Lemma impute_columns_run (cols : list (string * addr)) : forall (w : world'),
  NoDup (map snd cols) ->
  Forall (fun ka => exists c c', mem w !! snd ka = Some c /\
                                impute_column c = Ok c') cols ->
  exists w',
    impute cols w = Ok (tt, w') /\
    Forall (fun ka => exists c c', mem w !! snd ka = Some c /\
                                  impute_column c = Ok c' /\
                                  mem w' !! snd ka = Some c') cols /\
    (forall a, a ∉ map snd cols -> mem w' !! a = mem w !! a) /\
    np_random w' = np_random w.
Proof.
  induction cols as [|[k a] cols IH]; intros w Hnd Hall; simpl.
  - exists w. repeat split. constructor.
  - inversion Hnd as [|? ? Ha Hnd']; subst.
    inversion Hall as [|? ? (c & c' & Hc & Hc') Hrest]; subst.
    simpl in Hc.
    set (w1 := {| mem := <[a := c']> (mem w); np_random := np_random w |}).
    assert (Hrun : impute ((k, a) :: cols) w = impute cols w1).
    { simpl. unfold mbind, load, lift, store. by rewrite Hc, Hc'. }
    assert (Hsame : forall ka, ka ∈ cols ->
                               mem w1 !! snd ka = mem w !! snd ka).
    { intros ka Hka. simpl. apply list_lookup_insert_ne.
      intros ->. apply Ha. apply list_elem_of_fmap. by exists ka. }
    destruct (IH w1 Hnd') as (w' & Hw' & Hcols & Hout & Hrng).
    { apply Forall_forall. intros ka Hka. rewrite (Hsame ka Hka).
      rewrite Forall_forall in Hrest. by apply Hrest. }
    exists w'. simpl in Hrun. rewrite Hrun.
    split; [exact Hw'|]. split; [|split; [|exact Hrng]].
    + constructor.
      * exists c, c'. simpl. split; [exact Hc|]. split; [exact Hc'|].
        rewrite (Hout a Ha). simpl. apply list_lookup_insert_eq.
        by eapply lookup_lt_Some.
      * apply Forall_forall. intros ka Hka.
        rewrite Forall_forall in Hcols.
        destruct (Hcols ka Hka) as (c0 & c0' & Hc0 & Hc0' & Hw0).
        exists c0, c0'. by rewrite <- (Hsame ka Hka).
    + intros b Hb. rewrite not_elem_of_cons in Hb. destruct Hb as [Hne Hb].
      rewrite (Hout b Hb). simpl. by apply list_lookup_insert_ne.
Qed.

(** X13. Over columns held in distinct buffers of memory, the imputer loop
    returns exactly when each column can be imputed: it has then replaced
    the content of every column by its imputation, computed from that column
    alone, and left every other buffer and the generator as they were; when
    some column cannot be imputed it raises KeyError. *)
Theorem impute_each_column (cols : list (string * addr)) : forall (w : world'),
  NoDup (map snd cols) ->
  valid (mem w) cols ->
  (Forall (fun ka => exists c c', mem w !! snd ka = Some c /\
                                 impute_column c = Ok c') cols ->
   exists w',
     impute cols w = Ok (tt, w') /\
     Forall (fun ka => exists c c', mem w !! snd ka = Some c /\
                                   impute_column c = Ok c' /\
                                   mem w' !! snd ka = Some c') cols /\
     (forall a, a ∉ map snd cols -> mem w' !! a = mem w !! a) /\
     np_random w' = np_random w) /\
  (~ Forall (fun ka => exists c c', mem w !! snd ka = Some c /\
                                   impute_column c = Ok c') cols ->
   impute cols w = Raise (KeyError "0")).
Proof.
  intros w Hnd Hv. split; [by apply impute_columns_run|].
  revert w Hnd Hv. induction cols as [|[k a] cols IH]; intros w Hnd Hv Hnot.
  - exfalso. apply Hnot. constructor.
  - inversion Hnd as [|? ? Ha Hnd']; subst.
    inversion Hv as [|? ? Hlt Hv']; subst. simpl in Hlt.
    destruct (lookup_lt_is_Some_2 _ _ Hlt) as [c Hc].
    simpl. unfold mbind at 1. unfold load at 1. rewrite Hc.
    destruct (impute_column c) as [c'|e] eqn:Hc'.
    + unfold mbind at 1. unfold lift at 1.
      unfold mbind at 1. unfold store at 1.
      apply IH; [exact Hnd'| |].
      * unfold valid. simpl. rewrite length_insert. exact Hv'.
      * intros Hall. apply Hnot. constructor; [by exists c, c'|].
        apply Forall_forall. intros ka Hka.
        rewrite Forall_forall in Hall.
        destruct (Hall ka Hka) as (c0 & c0' & Hc0 & Hc0').
        exists c0, c0'. split; [|exact Hc0'].
        rewrite <- Hc0. simpl. symmetry. apply list_lookup_insert_ne.
        intros ->. apply Ha. apply list_elem_of_fmap. by exists ka.
    + unfold mbind at 1. unfold lift at 1.
      by rewrite (impute_column_raise _ _ Hc').
Qed.

End ImputerRun.

Lemma impute_two_columns :
  exists w',
    impute [("loc", 0); ("data", 2)] sample_world = Ok (tt, w') /\
    mem w' !! 2 = Some (NumCol (repeat (Rat 1) 6)) /\
    mem w' !! 16 = mem sample_world !! 16.
Proof.
  destruct (impute_each_column [("loc", 0); ("data", 2)] sample_world)
    as [Hruns _].
  - apply (bool_decide_unpack _). vm_compute. reflexivity.
  - repeat constructor; simpl; lia.
  - destruct Hruns as (w' & Hrun & Hcols & Hout & _).
    + repeat constructor; eexists _, _; split; vm_compute; reflexivity.
    + exists w'. split; [exact Hrun|]. split.
      * apply Forall_cons in Hcols as [_ Hcols].
        apply Forall_cons in Hcols as [(c & c' & Hc & Hc' & Hw') _].
        simpl in Hc, Hw'. rewrite Hw'. f_equal.
        vm_compute in Hc. injection Hc as <-.
        vm_compute in Hc'. by injection Hc' as <-.
      * apply Hout. apply (bool_decide_unpack _). vm_compute. reflexivity.
Defined.

(** ** More on the scaler *)

Section ScalerShape.
Context {F : Type} `{Scalar F}.

(** Fitting and transforming in one go standardises every feature with its
    own mean and scale. *)
Lemma transform_fit (features : list (list F)) :
  transform (fit features) features =
  map (fun xs => transform_column (col_mean xs) (col_scale xs) xs) features.
Proof.
  unfold transform, fit. simpl.
  induction features as [|xs features IH]; simpl; [reflexivity|].
  by rewrite IH.
Qed.

End ScalerShape.

(** ** More on the splitter *)

Lemma same_sizes_eq (a b : result (nat * nat)) :
  same_sizes a b = true -> a = b.
Proof.
  destruct a as [[x y]|[]], b as [[x' y']|[]]; simpl; try discriminate;
    try reflexivity.
  intros [->%Nat.eqb_eq ->%Nat.eqb_eq]%andb_true_iff. reflexivity.
Qed.

(** The two computations of the sizes, run side by side on every number of
    rows up to 3000. *)
Lemma sizes_checked :
  forallb (fun k => same_sizes (validate_shuffle_split k test_size_0_2)
                               (fifth_sizes k)) (seq 0 (S (30 * 100))) = true.
Proof. vm_compute. reflexivity. Qed.

Lemma sizes_of_a_fifth (n : nat) :
  2 <= n <= 30 * 100 ->
  validate_shuffle_split n test_size_0_2 = Ok (n - (n + 4) / 5, (n + 4) / 5) /\
  (n + 4) / 5 <= n.
Proof.
  intros Hn. split.
  - pose proof sizes_checked as Hall. rewrite forallb_forall in Hall.
    rewrite (same_sizes_eq _ (fifth_sizes n)).
    + unfold fifth_sizes. destruct (Nat.leb_spec n 1); [lia | reflexivity].
    + apply Hall. apply in_seq. lia.
  - apply Nat.Div0.div_le_upper_bound. lia.
Qed.

(** X15. For every table of up to 3000 rows the sizes computed in binary64
    from the literal 0.2 are the exact ones: the test partition receives a
    fifth of the rows, rounded up, the train partition the rest, and a table
    of less than two rows is refused with ValueError. *)
Theorem split_sizes_are_exact (n : nat) :
  n <= 30 * 100 -> validate_shuffle_split n test_size_0_2 = fifth_sizes n.
Proof.
  intros Hn. apply same_sizes_eq.
  pose proof sizes_checked as Hall.
  rewrite forallb_forall in Hall. apply Hall. apply in_seq. lia.
Qed.

Lemma split_sizes_of_93_rows :
  validate_shuffle_split 93 test_size_0_2 = Ok (74, 19).
Proof. rewrite split_sizes_are_exact; [reflexivity | lia]. Defined.

Section SplitterExtras.
Context {F : Type} `{Scalar F} {G : Type} `{Generator G}.

Abbreviation world' := (@world F G).

Hypothesis permutation_law :
  forall (g : G) n, Permutation (fst (permutation g n)) (seq 0 n).

Lemma at_pos_lookup {A} (xs : list A) i x :
  at_pos xs i = Ok x <-> xs !! i = Some x.
Proof.
  unfold at_pos. destruct (xs !! i); split; intros [=]; by subst.
Qed.

Lemma labels_lookup (idx : list nat) ps ls :
  mapM (at_pos idx) ps = Ok ls ->
  Forall2 (fun p l => idx !! p = Some l) ps ls.
Proof.
  intros Hm%mapM_Forall2. eapply Forall2_impl; [exact Hm|].
  simpl. intros p l. by apply at_pos_lookup.
Qed.

(** Distinct positions of an index without repetition carry distinct
    labels. *)
Lemma labels_NoDup (idx : list nat) ps ls :
  NoDup idx -> NoDup ps ->
  Forall2 (fun p l => idx !! p = Some l) ps ls -> NoDup ls.
Proof.
  intros Hidx Hps Hall. induction Hall as [|p l ps ls Hp Hrest IH].
  - constructor.
  - inversion Hps as [|? ? Hnotin Hps']; subst.
    constructor; [|by apply IH].
    intros Hl. apply list_elem_of_lookup in Hl as [j Hj].
    destruct (Forall2_lookup_r _ _ _ _ _ Hrest Hj) as (p' & Hp' & Hl').
    rewrite (NoDup_lookup idx p p' l Hidx Hp Hl') in Hnotin.
    apply Hnotin. by eapply list_elem_of_lookup_2.
Qed.

Lemma labels_of_range (idx : list nat) :
  map (fun p => nth p idx 0) (seq 0 (List.length idx)) = idx.
Proof.
  apply list_eq. intros i. rewrite list_lookup_fmap.
  destruct (decide (i < List.length idx)) as [Hi|Hi].
  - rewrite lookup_seq_lt by exact Hi. simpl. rewrite nth_lookup.
    destruct (lookup_lt_is_Some_2 idx i Hi) as [l Hl]. by rewrite Hl.
  - rewrite lookup_seq_ge by lia. simpl. symmetry.
    apply lookup_ge_None. lia.
Qed.

Lemma labels_by_nth (idx : list nat) ps ls :
  Forall2 (fun p l => idx !! p = Some l) ps ls ->
  ls = map (fun p => nth p idx 0) ps.
Proof.
  induction 1 as [|p l ps ls Hp _ IH]; simpl; [reflexivity|].
  rewrite nth_lookup, Hp. simpl. by f_equal.
Qed.

(** X16. With an integer seed, on a table whose index has no repeated label
    and a target over the same index, the split keeps features and target
    aligned, no label lands in both partitions or twice in one, and every
    label of a partition is a label of the table; when the two partitions
    together have as many rows as the table they are a rearrangement of its
    rows. *)
Theorem split_partitions X y test_size seed (w : world')
    X_train X_test y_train y_test w' :
  train_test_split X y test_size (Some seed) w =
    Ok ((X_train, X_test, y_train, y_test), w') ->
  s_index y = index X ->
  NoDup (index X) ->
  s_index y_train = index X_train /\
  s_index y_test = index X_test /\
  NoDup (index X_test ++ index X_train) /\
  (forall l, l ∈ index X_test ++ index X_train -> l ∈ index X) /\
  (List.length (index X_test) + List.length (index X_train) =
     List.length (index X) ->
   Permutation (index X_test ++ index X_train) (index X)).
Proof.
  intros Hrun Hy Hnd.
  destruct (train_test_split_inv _ _ _ _ _ _ _ _ _ _ Hrun)
    as (n_train & n_test & perm & _ & _ & Hperm & Htr & Hte & Hytr & Hyte).
  specialize (Hperm seed eq_refl).
  pose proof (permutation_law (RandomState seed) (List.length (index X)))
    as Hlaw.
  rewrite <- Hperm in Hlaw.
  rewrite Hy in Hytr, Hyte.
  assert (Hndp : NoDup perm).
  { rewrite Hlaw. apply NoDup_seq. }
  pose proof (labels_lookup _ _ _ Htr) as Ftr.
  pose proof (labels_lookup _ _ _ Hte) as Fte.
  pose proof (Forall2_app Fte Ftr) as Fall.
  rewrite take_take_drop in Fall.
  split; [congruence|]. split; [congruence|].
  split; [|split].
  - eapply labels_NoDup; [exact Hnd | | exact Fall].
    eapply sublist_NoDup; [exact Hndp | apply sublist_take].
  - intros l Hl. apply elem_of_app in Hl as [Hl|Hl].
    + pose proof (mapM_at_pos_elem _ _ _ Hte) as He.
      rewrite Forall_forall in He. by apply He.
    + pose proof (mapM_at_pos_elem _ _ _ Htr) as He.
      rewrite Forall_forall in He. by apply He.
  - intros Hsum.
    pose proof (Forall2_length _ _ _ Fall) as Hlen.
    rewrite length_app, Hsum in Hlen.
    pose proof (Permutation_length Hlaw) as Hlp. rewrite length_seq in Hlp.
    rewrite take_ge in Fall.
    + rewrite (labels_by_nth _ _ _ Fall).
      eapply Permutation_trans; [apply Permutation_map, Hlaw|].
      by rewrite labels_of_range.
    + rewrite length_take in Hlen. lia.
Qed.

(** Once the sizes are settled the split goes through: the positions the
    permutation gives are positions of the table. *)
Lemma train_test_split_runs X y test_size (w : world') seed n_train n_test :
  validate_shuffle_split (List.length (index X)) test_size =
    Ok (n_train, n_test) ->
  n_train + n_test <= List.length (index X) ->
  List.length (s_index y) = List.length (index X) ->
  table_ok (mem w) X = true ->
  series_ok (mem w) y = true ->
  exists X_train X_test y_train y_test w',
    train_test_split X y test_size (Some seed) w =
      Ok ((X_train, X_test, y_train, y_test), w') /\
    extends w w' /\
    List.length (index X_test) = n_test /\
    List.length (index X_train) = n_train /\
    List.length (s_index y_test) = n_test /\
    List.length (s_index y_train) = n_train /\
    table_ok (mem w') X_train = true /\ table_ok (mem w') X_test = true /\
    series_ok (mem w') y_train = true /\ series_ok (mem w') y_test = true.
Proof.
  intros Hsizes Hle Hny HokX Hoky.
  set (n := List.length (index X)) in *.
  destruct (permutation_positions permutation_law (RandomState seed) n)
    as [Hlen Hpos].
  set (perm := fst (permutation (RandomState seed) n)) in *.
  assert (Htest : Forall (fun i => i < n) (take n_test perm))
    by (by apply Forall_take).
  assert (Htrain : Forall (fun i => i < n) (take n_train (drop n_test perm)))
    by (by apply Forall_take, Forall_drop).
  destruct (take_frame_ok X _ w HokX Htrain)
    as (X_train & w1 & H1 & Hext1 & Hl1 & Hok1).
  destruct (take_frame_ok X _ w1 (table_ok_extends _ _ _ Hext1 HokX) Htest)
    as (X_test & w2 & H2 & Hext2 & Hl2 & Hok2).
  assert (Hext02 : extends w w2) by (by eapply extends_trans).
  rewrite <- Hny in Htrain, Htest.
  destruct (take_series_ok y _ w2 (series_ok_extends _ _ _ Hext02 Hoky) Htrain)
    as (y_train & w3 & H3 & Hext3 & Hl3 & Hok3).
  assert (Hext03 : extends w w3) by (by eapply extends_trans).
  destruct (take_series_ok y _ w3 (series_ok_extends _ _ _ Hext03 Hoky) Htest)
    as (y_test & w4 & H4 & Hext4 & Hl4 & Hok4).
  exists X_train, X_test, y_train, y_test, w4.
  rewrite length_take, length_drop, Hlen in Hl1, Hl3.
  rewrite length_take, Hlen in Hl2, Hl4.
  split.
  { unfold train_test_split. rewrite Hny. fold n.
    rewrite Nat.eqb_refl. unfold mbind at 1. unfold lift at 1.
    rewrite Hsizes. unfold mbind at 1. unfold lift at 1.
    unfold mbind at 1. unfold rng_permutation at 1. fold perm.
    rewrite (mbind_ok _ _ _ _ _ H1), (mbind_ok _ _ _ _ _ H2).
    by rewrite (mbind_ok _ _ _ _ _ H3), (mbind_ok _ _ _ _ _ H4). }
  split; [by eapply extends_trans|].
  split; [lia|]. split; [lia|]. split; [lia|]. split; [lia|].
  split.
  { eapply table_ok_extends; [|exact Hok1].
    eapply extends_trans; [exact Hext2|].
    by eapply extends_trans. }
  split.
  { eapply table_ok_extends; [|exact Hok2]. by eapply extends_trans. }
  split; [by eapply series_ok_extends | exact Hok4].
Qed.

(** X20. With [test_size=0.2] and an integer seed, a table of 2 to 3000 rows
    laid out in memory, with a target over as many rows, is always split:
    the call returns, the test partition has a fifth of the rows, rounded
    up, the train partition has the others, and the four partitions are
    laid out in memory. *)
Theorem split_of_a_fifth X y (w : world') seed :
  2 <= List.length (index X) <= 30 * 100 ->
  List.length (s_index y) = List.length (index X) ->
  table_ok (mem w) X = true ->
  series_ok (mem w) y = true ->
  let n := List.length (index X) in
  exists X_train X_test y_train y_test w',
    train_test_split X y test_size_0_2 (Some seed) w =
      Ok ((X_train, X_test, y_train, y_test), w') /\
    List.length (index X_test) = (n + 4) / 5 /\
    List.length (index X_train) = n - (n + 4) / 5 /\
    List.length (s_index y_test) = (n + 4) / 5 /\
    List.length (s_index y_train) = n - (n + 4) / 5 /\
    table_ok (mem w') X_train = true /\ table_ok (mem w') X_test = true /\
    series_ok (mem w') y_train = true /\ series_ok (mem w') y_test = true.
Proof.
  intros Hn Hny HokX Hoky n.
  destruct (sizes_of_a_fifth n Hn) as [Hsizes Hle].
  destruct (train_test_split_runs X y test_size_0_2 w seed _ _ Hsizes)
    as (X_train & X_test & y_train & y_test & w' & Hrun & _ & Hlens);
    try assumption.
  - fold n. lia.
  - by exists X_train, X_test, y_train, y_test, w'.
Qed.

End SplitterExtras.

Lemma split_of_hundred_rows_by_a_fifth :
  exists X_train X_test y_train y_test w',
    train_test_split hundred_X hundred_y test_size_0_2 (Some 42%Z)
      hundred_world = Ok ((X_train, X_test, y_train, y_test), w') /\
    List.length (index X_test) = 20 /\ List.length (index X_train) = 80.
Proof.
  destruct (split_of_a_fifth reversing_law hundred_X hundred_y hundred_world
              42%Z)
    as (X_train & X_test & y_train & y_test & w' & Hrun & Hte & Htr & _).
  - simpl. lia.
  - reflexivity.
  - vm_compute. reflexivity.
  - vm_compute. reflexivity.
  - exists X_train, X_test, y_train, y_test, w'.
    split; [exact Hrun|]. split; [exact Hte | exact Htr].
Defined.

Lemma split_of_hundred_rows_partitions :
  exists X_train X_test y_train y_test w',
    train_test_split hundred_X hundred_y test_size_0_2 (Some 42%Z)
      hundred_world = Ok ((X_train, X_test, y_train, y_test), w') /\
    s_index y_test = index X_test /\
    NoDup (index X_test ++ index X_train).
Proof.
  eexists _, _, _, _, _. split; [vm_compute; reflexivity|].
  edestruct (split_partitions reversing_law hundred_X hundred_y test_size_0_2
               42%Z hundred_world) as (_ & Hte & Hnd & _).
  - vm_compute. reflexivity.
  - reflexivity.
  - apply NoDup_seq.
  - split; [exact Hte | exact Hnd].
Defined.

(** ** The feature matrix handed to the regressors *)

Section MatrixExtras.
Context {F : Type} `{Scalar F} {G : Type} `{Generator G}.

Abbreviation column' := (@column F).
Abbreviation world' := (@world F G).

Lemma dict_set_labels (cols : list (string * addr)) k a :
  k ∈ map fst cols -> map fst (dict_set cols k a) = map fst cols.
Proof.
  induction cols as [|[k' a'] cols IH]; simpl.
  - intros Hk. by apply elem_of_nil in Hk.
  - intros Hk. destruct (String.eqb_spec k' k) as [->|Hne]; [reflexivity|].
    simpl. f_equal. apply IH.
    apply elem_of_cons in Hk as [->|Hk]; [done | exact Hk].
Qed.

Lemma getcol_dict_set_ne (cols : list (string * addr)) k k' a :
  k <> k' -> getcol (dict_set cols k a) k' = getcol cols k'.
Proof.
  intros Hne. induction cols as [|[k0 a0] cols IH]; simpl.
  - destruct (String.eqb_spec k k'); [done | reflexivity].
  - destruct (String.eqb_spec k0 k) as [->|Hne0]; simpl.
    + destruct (String.eqb_spec k k'); [done | reflexivity].
    + destruct (String.eqb k0 k'); [reflexivity | exact IH].
Qed.

(** [fr[ks] = features] binds each listed label to its feature, keeps the
    labels of the table in their order and leaves the other columns
    alone. *)
Lemma setitem_many_holds ks : forall fr features (w : world') fr' w',
  setitem_many fr ks features w = Ok (fr', w') ->
  NoDup ks -> Forall (fun k => k ∈ map fst (columns fr)) ks ->
  extends w w' /\
  index fr' = index fr /\
  map fst (columns fr') = map fst (columns fr) /\
  (forall k, k ∉ ks -> getcol (columns fr') k = getcol (columns fr) k) /\
  (forall i k xs, ks !! i = Some k -> features !! i = Some xs ->
     holds (mem w') fr' k (NumCol xs)).
Proof.
  induction ks as [|k ks IH]; intros fr features w fr' w'.
  - simpl. intros [-> ->]%ret_inv _ _.
    split; [apply extends_refl|]. repeat split; try done.
  - destruct features as [|xs features].
    { simpl. intros [-> ->]%ret_inv _ _.
      split; [apply extends_refl|]. repeat split; try done. }
    simpl.
    intros (fr1 & w1 & (Hi & Hc & Hm)%setitem_inv & Hrest)%mbind_inv Hnd Hin.
    inversion Hnd as [|? ? Hk Hnd']; subst.
    inversion Hin as [|? ? Hkin Hin']; subst.
    assert (Hlab : map fst (columns fr1) = map fst (columns fr)).
    { rewrite Hc. by apply dict_set_labels. }
    destruct (IH fr1 features w1 fr' w' Hrest Hnd')
      as (Hext & Hi' & Hn' & Hother & Hset).
    { by rewrite Hlab. }
    assert (Hext1 : extends w w1) by (by eexists).
    split; [by eapply extends_trans|].
    split; [congruence|]. split; [congruence|]. split.
    + intros k0 Hk0. rewrite not_elem_of_cons in Hk0.
      destruct Hk0 as [Hne Hk0].
      rewrite (Hother k0 Hk0), Hc. apply getcol_dict_set_ne. congruence.
    + intros [|i] k0 ys; simpl.
      * intros [= <-] [= <-]. exists (List.length (mem w)). split.
        -- rewrite (Hother k Hk), Hc. apply getcol_dict_set.
        -- apply (extends_lookup w1 w' _ _ Hext).
           rewrite Hm, lookup_app_r by lia. by rewrite Nat.sub_diag.
      * apply Hset.
Qed.

Lemma filter_labels_NoDup (f : string * addr -> bool) cols :
  NoDup (map fst cols) -> NoDup (map fst (List.filter f cols)).
Proof.
  induction cols as [|ka cols IH]; simpl; [done|].
  intros Hnd. inversion Hnd as [|? ? Hk Hnd']; subst.
  destruct (f ka); simpl; [|by apply IH].
  constructor; [|by apply IH].
  intros Hin. apply Hk. apply list_elem_of_fmap in Hin as (ka' & -> & Hka').
  apply list_elem_of_fmap. exists ka'. split; [reflexivity|].
  apply list_elem_of_In. apply list_elem_of_In, filter_In in Hka'. tauto.
Qed.

(** The features of a table whose columns are all numeric, by position. *)
Lemma numeric_part_lookup (m : list column') cols : forall i ka xs,
  Forall (fun ka => is_numeric_at m ka = true) cols ->
  cols !! i = Some ka -> m !! snd ka = Some (NumCol xs) ->
  numeric_part (contents m cols) !! i = Some xs.
Proof.
  induction cols as [|ka0 cols IH]; intros i ka xs Hall Hi Hm;
    [discriminate|].
  inversion Hall as [|? ? Hnum Hall']; subst.
  rewrite numeric_part_cons. unfold is_numeric_at in Hnum.
  destruct (m !! snd ka0) as [[ys|ys|ys]|] eqn:Hka0; try discriminate.
  destruct i as [|i]; simpl in *.
  - injection Hi as <-. congruence.
  - by eapply IH.
Qed.

Lemma filter_numeric (m : list column') cols :
  Forall (fun ka => is_numeric_at m ka = true)
         (List.filter (is_numeric_at m) cols).
Proof.
  apply Forall_forall. intros ka Hka.
  apply list_elem_of_In, filter_In in Hka. tauto.
Qed.

(** A column found in a copy is found in the original, with the content it
    had when the copy was taken. *)
Lemma holds_in_original (m m' : list column') cols cols' k c :
  map fst cols' = map fst cols -> contents m' cols' = contents m cols ->
  (exists a, getcol cols' k = Ok a /\ m' !! a = Some c) ->
  exists a, getcol cols k = Ok a /\ m !! a = Some c.
Proof.
  intros Hn Hc (a' & Ha' & Hm').
  pose proof (getcol_first m' _ _ _ Ha') as Hf.
  rewrite Hn, Hc, Hm' in Hf. by apply first_getcol in Hf.
Qed.

(** X17. After preprocessing, the matrix handed to the regressors has the
    nineteen feature labels in the order of the feature builder and the
    index of the table; each of its float columns holds the standardisation
    of the same column of the unscaled copy, by that column's own mean and
    scale, and each of its boolean columns, the one-hot indicators, holds
    what the unscaled copy holds: the indicators are not standardised. *)
Theorem scaled_matrix_columns data (w : world') out w' :
  table_ok (mem w) data = true ->
  preprocess_and_baseline data w = Ok (out, w') ->
  index (out_X out) = index data /\
  map fst (columns (out_X out)) = ("loc" :: cost_drivers) ++ indicator_labels /\
  map fst (columns (out_X_unscaled out)) =
    ("loc" :: cost_drivers) ++ indicator_labels /\
  (forall k xs,
     holds (mem w') (out_X_unscaled out) k (NumCol xs) ->
     holds (mem w') (out_X out) k
       (NumCol (transform_column (col_mean xs) (col_scale xs) xs))) /\
  (forall k bs,
     holds (mem w') (out_X_unscaled out) k (BoolCol bs) ->
     holds (mem w') (out_X out) k (BoolCol bs)).
Proof.
  intros Hok. unfold preprocess_and_baseline.
  intros (X & w1 & HX & H1)%mbind_inv.
  apply mbind_inv in H1 as (y & w1' & [Hy ->]%lift_inv & H1).
  apply mbind_inv in H1 as (u & w2 & Himp & H1).
  apply mbind_inv in H1 as (ks & w2' & [-> ->]%numeric_labels_inv & H1).
  apply mbind_inv in H1 as (Xu & w3' & HXu & H1).
  apply mbind_inv in H1 as (sel & w4 & Hsel & H1).
  apply mbind_inv in H1
    as (features & w4' & [-> Hfeat]%numeric_values_inv & H1).
  apply mbind_inv in H1
    as ([scaler scaled] & w4' & [[_ Hsc]%fit_transform_inv ->]%lift_inv & H1).
  apply mbind_inv in H1 as (X' & w5 & HX' & H1).
  apply mbind_inv in H1 as (ylog & w6 & Hylog & H1).
  apply mbind_inv in H1 as ([[[Xtr Xte] ytr] yte] & w7 & Hsplit & H1).
  apply mbind_inv in H1 as (effort & w7' & [-> Heff]%apply_rows_inv & H1).
  apply mbind_inv in H1 as (data' & w8 & (_ & _ & Hm8)%setitem_inv & H1).
  apply mbind_inv in H1 as (preds & w8' & [-> _]%loc_values_inv & H1).
  apply ret_inv in H1 as [-> ->]. simpl.
  (* the feature matrix, imputed *)
  destruct (build_features_inv _ _ _ _ Hok HX) as (_ & HiX & HnX & HokX & _).
  pose proof (impute_table_ok _ _ _ _ HokX Himp) as HokX2.
  pose proof (table_ok_valid _ _ HokX2) as HvX2.
  assert (Hnd : NoDup (map fst (columns X))).
  { rewrite HnX. apply feature_labels_NoDup. }
  (* the unscaled copy *)
  unfold copy in HXu. apply mbind_inv in HXu as (cu & w3 & Hcu & HXu).
  apply ret_inv in HXu as [-> ->].
  apply copy_columns_inv in Hcu as (Hext3 & HnXu & HcXu & HvXu & _);
    [|exact HvX2].
  simpl columns.
  (* the features *)
  destruct (select_inv _ _ _ _ _ (valid_extends _ _ _ Hext3 HvX2) Hsel)
    as (picked & Hpick & _ & _ & Hext4 & Hcsel & _ & _).
  rewrite (pick_sub _ _ Hnd (filter_sub _ _)) in Hpick.
  injection Hpick as <-.
  set (numeric := List.filter (is_numeric_at (mem w2)) (columns X)) in *.
  assert (Hfeatures : numeric_part (contents (mem w2) numeric) = features).
  { rewrite <- (contents_extends w2 w3) by
      (exact Hext3 || (eapply valid_sub; [exact HvX2 | apply filter_sub])).
    by rewrite <- Hcsel, Hfeat, numeric_part_floats. }
  rewrite transform_fit in Hsc.
  (* the assignment *)
  destruct (setitem_many_holds _ _ _ _ _ _ HX')
    as (Hext5 & HiX' & HnX' & Hother & Hset).
  { by apply filter_labels_NoDup. }
  { apply Forall_forall. intros k Hk.
    apply list_elem_of_fmap in Hk as (ka & -> & Hka).
    apply list_elem_of_fmap. exists ka. split; [reflexivity|].
    apply list_elem_of_In. apply list_elem_of_In, filter_In in Hka. tauto. }
  (* what follows only allocates *)
  pose proof (grows_log1p_series _ _ _ _ Hylog) as Hext6.
  pose proof (grows_train_test_split _ _ _ _ _ _ _ Hsplit) as Hext7.
  assert (Hext8 : extends w7 w8) by (by eexists).
  assert (Hext58 : extends w5 w8).
  { eapply extends_trans; [exact Hext6|]. by eapply extends_trans. }
  assert (Hext38 : extends w3 w8).
  { eapply extends_trans; [exact Hext4|]. by eapply extends_trans. }
  assert (Hext28 : extends w2 w8) by (by eapply extends_trans).
  assert (Horig : forall k c,
    (exists a, getcol cu k = Ok a /\ mem w8 !! a = Some c) ->
    exists a, getcol (columns X) k = Ok a /\ mem w2 !! a = Some c).
  { intros k c (a & Ha & Hc).
    apply (holds_in_original (mem w2) (mem w3) (columns X) cu k c HnXu HcXu).
    exists a. split; [exact Ha|].
    rewrite <- Hc. symmetry. apply extends_lookup_lt; [exact Hext38|].
    apply getcol_elem in Ha. unfold valid in HvXu.
    rewrite Forall_forall in HvXu. exact (HvXu _ Ha). }
  split; [congruence|]. split; [by rewrite HnX', HnX|].
  split; [by rewrite HnXu, HnX|].
  split.
  - intros k xs Hk. apply Horig in Hk as (a & Ha & Hxs).
    assert (Hin : (k, a) ∈ numeric).
    { apply list_elem_of_In, filter_In. split.
      - by apply list_elem_of_In, getcol_elem.
      - unfold is_numeric_at. simpl. by rewrite Hxs. }
    apply list_elem_of_lookup in Hin as [i Hi].
    destruct (Hset i k (transform_column (col_mean xs) (col_scale xs) xs))
      as (a' & Ha' & Hc').
    + by rewrite list_lookup_fmap, Hi.
    + assert (Hl : numeric_part (contents (mem w2) numeric) !! i = Some xs).
      { apply (numeric_part_lookup _ _ i (k, a) xs);
          [apply filter_numeric | exact Hi | exact Hxs]. }
      by rewrite Hsc, list_lookup_fmap, <- Hfeatures, Hl.
    + exists a'. split; [exact Ha'|].
      by apply (extends_lookup w5 w8 _ _ Hext58).
  - intros k bs Hk. apply Horig in Hk as (a & Ha & Hbs).
    exists a. split.
    + rewrite Hother; [exact Ha|].
      intros Hin. apply list_elem_of_fmap in Hin as ([k' a'] & Hk' & Hka).
      simpl in Hk'. subst k'.
      apply list_elem_of_In, filter_In in Hka as [Hka Hnum].
      apply list_elem_of_In in Hka.
      rewrite (getcol_unique _ _ _ Hnd Hka) in Ha. injection Ha as ->.
      unfold is_numeric_at in Hnum. simpl in Hnum. by rewrite Hbs in Hnum.
    + by apply (extends_lookup w2 w8 _ _ Hext28).
Qed.

End MatrixExtras.

Lemma scaled_matrix_of_sample_table :
  exists out w',
    preprocess_and_baseline sample_data sample_world = Ok (out, w') /\
    map fst (columns (out_X out)) = ("loc" :: cost_drivers) ++ indicator_labels.
Proof.
  eexists _, _. split; [vm_compute; reflexivity|].
  edestruct (scaled_matrix_columns sample_data sample_world)
    as (_ & Hlabels & _).
  - vm_compute. reflexivity.
  - vm_compute. reflexivity.
  - exact Hlabels.
Defined.

(** ** Rows through the split *)

Section RowsExtras.
Context {F : Type} `{Scalar F} {G : Type} `{Generator G}.

Abbreviation column' := (@column F).
Abbreviation world' := (@world F G).

Lemma take_column_inv idx ka (w : world') ka' w' :
  take_column idx ka w = Ok (ka', w') ->
  extends w w' /\ fst ka' = fst ka /\ rows_of (mem w') idx (snd ka) (snd ka').
Proof.
  unfold take_column.
  intros (c & w1 & [Hc ->]%load_inv & H1)%mbind_inv.
  apply mbind_inv in H1 as (c' & w1 & [Hc' ->]%lift_inv & H1).
  apply mbind_inv in H1 as (a' & w2 & (-> & Hm & _)%alloc_inv & H1).
  apply ret_inv in H1 as [-> ->]. simpl.
  split; [by eexists|]. split; [reflexivity|].
  exists c, c'. rewrite Hm. split; [|split; [exact Hc'|]].
  - apply lookup_app_l_Some. exact Hc.
  - rewrite lookup_app_r by lia. by rewrite Nat.sub_diag.
Qed.

Lemma rows_of_extends (w w' : world') idx a a' :
  extends w w' -> rows_of (mem w) idx a a' -> rows_of (mem w') idx a a'.
Proof.
  intros Hext (c & c' & Hc & Ht & Hc'). exists c, c'.
  split; [by apply (extends_lookup w w')|].
  split; [exact Ht | by apply (extends_lookup w w')].
Qed.

Lemma take_columns_inv idx cols : forall (w : world') cols' w',
  mapMM (take_column idx) cols w = Ok (cols', w') ->
  extends w w' /\
  Forall2 (fun ka ka' => fst ka' = fst ka /\
                         rows_of (mem w') idx (snd ka) (snd ka')) cols cols'.
Proof.
  induction cols as [|ka cols IH]; intros w cols' w'; simpl.
  - intros [-> ->]%ret_inv. split; [apply extends_refl | constructor].
  - intros (ka' & w1 & (Hext1 & Hk & Hrows)%take_column_inv & H1)%mbind_inv.
    apply mbind_inv in H1 as (rest & w2 & Hrest & H1).
    apply ret_inv in H1 as [-> ->].
    destruct (IH _ _ _ Hrest) as [Hext2 Hall].
    split; [by eapply extends_trans|].
    constructor; [|exact Hall].
    split; [exact Hk | by eapply rows_of_extends].
Qed.

Lemma take_frame_inv fr idx (w : world') fr' w' :
  take_frame fr idx w = Ok (fr', w') ->
  extends w w' /\
  mapM (at_pos (index fr)) idx = Ok (index fr') /\
  Forall2 (fun ka ka' => fst ka' = fst ka /\
                         rows_of (mem w') idx (snd ka) (snd ka'))
          (columns fr) (columns fr').
Proof.
  unfold take_frame.
  intros (labels & w1 & [Hl ->]%lift_inv & H1)%mbind_inv.
  apply mbind_inv in H1 as (cols & w2 & [Hext Hall]%take_columns_inv & H1).
  by apply ret_inv in H1 as [-> ->].
Qed.

Lemma take_series_inv sr idx (w : world') sr' w' :
  take_series sr idx w = Ok (sr', w') ->
  extends w w' /\
  mapM (at_pos (s_index sr)) idx = Ok (s_index sr') /\
  rows_of (mem w') idx (s_values sr) (s_values sr').
Proof.
  unfold take_series.
  intros (labels & w1 & [Hl ->]%lift_inv & H1)%mbind_inv.
  apply mbind_inv in H1 as (c & w1 & [Hc ->]%load_inv & H1).
  apply mbind_inv in H1 as (c' & w1 & [Hc' ->]%lift_inv & H1).
  apply mbind_inv in H1 as (a' & w2 & (-> & Hm & _)%alloc_inv & H1).
  apply ret_inv in H1 as [-> ->]. simpl.
  split; [by eexists|]. split; [exact Hl|].
  exists c, c'. rewrite Hm. split; [|split; [exact Hc'|]].
  - apply lookup_app_l_Some. exact Hc.
  - rewrite lookup_app_r by lia. by rewrite Nat.sub_diag.
Qed.

(** A column of the table is found in the partition, under its label. *)
Lemma getcol_rows (m : list column') idx cols cols' k a :
  Forall2 (fun ka ka' => fst ka' = fst ka /\
                         rows_of m idx (snd ka) (snd ka')) cols cols' ->
  getcol cols k = Ok a ->
  exists a', getcol cols' k = Ok a' /\ rows_of m idx a a'.
Proof.
  induction 1 as [|[k0 a0] [k0' a0'] cols cols' [Hk Hrows] _ IH]; simpl;
    [discriminate|].
  simpl in Hk. subst k0'.
  destruct (String.eqb k0 k); [|exact IH].
  intros [= <-]. by exists a0'.
Qed.

Lemma holds_rows (m : list column') idx fr fr' k c :
  Forall2 (fun ka ka' => fst ka' = fst ka /\
                         rows_of m idx (snd ka) (snd ka'))
          (columns fr) (columns fr') ->
  holds m fr k c ->
  exists c', take_rows idx c = Ok c' /\ holds m fr' k c'.
Proof.
  intros Hall (a & Ha & Hc).
  destruct (getcol_rows _ _ _ _ _ _ Hall Ha)
    as (a' & Ha' & c0 & c' & Hc0 & Ht & Hc').
  rewrite Hc in Hc0. injection Hc0 as <-.
  exists c'. split; [exact Ht|]. by exists a'.
Qed.

Lemma rows_from (m : list column') idx a a' c :
  rows_of m idx a a' -> m !! a = Some c ->
  exists c', take_rows idx c = Ok c' /\ m !! a' = Some c'.
Proof.
  intros (c0 & c' & Hc0 & Ht & Hc') Hc.
  rewrite Hc in Hc0. injection Hc0 as <-. by exists c'.
Qed.

Lemma Forall2_rows_extends (w w' : world') idx
    (cols cols' : list (string * addr)) :
  extends w w' ->
  Forall2 (fun ka ka' => fst ka' = fst ka /\
                         rows_of (mem w) idx (snd ka) (snd ka')) cols cols' ->
  Forall2 (fun ka ka' => fst ka' = fst ka /\
                         rows_of (mem w') idx (snd ka) (snd ka')) cols cols'.
Proof.
  intros Hext Hall. eapply Forall2_impl; [exact Hall|]. simpl.
  intros ka ka' [Hk Hrows]. split; [exact Hk | by eapply rows_of_extends].
Qed.

(** The four partitions, buffer by buffer, in the memory the split
    leaves. *)
Lemma train_test_split_rows X y test_size rs (w : world')
    X_train X_test y_train y_test w' :
  train_test_split X y test_size rs w =
    Ok ((X_train, X_test, y_train, y_test), w') ->
  exists train test,
    mapM (at_pos (index X)) train = Ok (index X_train) /\
    mapM (at_pos (s_index y)) train = Ok (s_index y_train) /\
    mapM (at_pos (index X)) test = Ok (index X_test) /\
    mapM (at_pos (s_index y)) test = Ok (s_index y_test) /\
    Forall2 (fun ka ka' => fst ka' = fst ka /\
                           rows_of (mem w') train (snd ka) (snd ka'))
            (columns X) (columns X_train) /\
    Forall2 (fun ka ka' => fst ka' = fst ka /\
                           rows_of (mem w') test (snd ka) (snd ka'))
            (columns X) (columns X_test) /\
    rows_of (mem w') train (s_values y) (s_values y_train) /\
    rows_of (mem w') test (s_values y) (s_values y_test).
Proof.
  unfold train_test_split.
  intros (u & w0 & [_ ->]%lift_inv & H1)%mbind_inv.
  apply mbind_inv in H1 as ([n_train n_test] & w0 & [_ ->]%lift_inv & H1).
  apply mbind_inv in H1 as (perm & w0 & _ & H1).
  apply mbind_inv in H1
    as (Xtr & w1 & (Hext1 & Hitr & Hctr)%take_frame_inv & H1).
  apply mbind_inv in H1
    as (Xte & w2 & (Hext2 & Hite & Hcte)%take_frame_inv & H1).
  apply mbind_inv in H1
    as (ytr & w3 & (Hext3 & Hytr & Hvtr)%take_series_inv & H1).
  apply mbind_inv in H1
    as (yte & w4 & (Hext4 & Hyte & Hvte)%take_series_inv & H1).
  apply ret_inv in H1 as [[= -> -> -> ->] ->].
  assert (Hext24 : extends w2 w4) by (by eapply extends_trans).
  assert (Hext14 : extends w1 w4) by (by eapply extends_trans).
  apply (Forall2_rows_extends _ _ _ _ _ Hext14) in Hctr.
  apply (Forall2_rows_extends _ _ _ _ _ Hext24) in Hcte.
  apply (rows_of_extends _ _ _ _ _ Hext4) in Hvtr.
  exists (take n_train (drop n_test perm)), (take n_test perm).
  by repeat split.
Qed.

(** X18. The split does not scramble rows: there are two lists of positions,
    one per partition, such that the labels of a partition, every one of its
    feature columns and its target are the labels, that column and the
    target of the table taken at these positions, in this order. *)
Theorem split_keeps_rows X y test_size rs (w : world')
    X_train X_test y_train y_test w' :
  train_test_split X y test_size rs w =
    Ok ((X_train, X_test, y_train, y_test), w') ->
  exists train test,
    mapM (at_pos (index X)) train = Ok (index X_train) /\
    mapM (at_pos (s_index y)) train = Ok (s_index y_train) /\
    mapM (at_pos (index X)) test = Ok (index X_test) /\
    mapM (at_pos (s_index y)) test = Ok (s_index y_test) /\
    (forall k c, holds (mem w') X k c ->
       exists c_train c_test,
         take_rows train c = Ok c_train /\ take_rows test c = Ok c_test /\
         holds (mem w') X_train k c_train /\
         holds (mem w') X_test k c_test) /\
    (forall c, mem w' !! s_values y = Some c ->
       exists c_train c_test,
         take_rows train c = Ok c_train /\ take_rows test c = Ok c_test /\
         mem w' !! s_values y_train = Some c_train /\
         mem w' !! s_values y_test = Some c_test).
Proof.
  intros Hrun.
  destruct (train_test_split_rows _ _ _ _ _ _ _ _ _ _ Hrun)
    as (train & test & Hitr & Hytr & Hite & Hyte & Hctr & Hcte & Hvtr & Hvte).
  exists train, test.
  split; [exact Hitr|]. split; [exact Hytr|].
  split; [exact Hite|]. split; [exact Hyte|]. split.
  - intros k c Hk.
    destruct (holds_rows _ _ _ _ _ _ Hctr Hk) as (c_train & Ht1 & Hh1).
    destruct (holds_rows _ _ _ _ _ _ Hcte Hk) as (c_test & Ht2 & Hh2).
    by exists c_train, c_test.
  - intros c Hc.
    destruct (rows_from _ _ _ _ _ Hvtr Hc) as (c_train & Ht1 & Hh1).
    destruct (rows_from _ _ _ _ _ Hvte Hc) as (c_test & Ht2 & Hh2).
    by exists c_train, c_test.
Qed.

End RowsExtras.

Lemma split_of_hundred_rows_keeps_rows :
  exists X_train X_test y_train y_test w' test,
    train_test_split hundred_X hundred_y test_size_0_2 (Some 42%Z)
      hundred_world = Ok ((X_train, X_test, y_train, y_test), w') /\
    mapM (at_pos (index hundred_X)) test = Ok (index X_test) /\
    mapM (at_pos (s_index hundred_y)) test = Ok (s_index y_test).
Proof.
  eexists _, _, _, _, _.
  edestruct (split_keeps_rows hundred_X hundred_y test_size_0_2 (Some 42%Z)
               hundred_world) as (train & test & _ & _ & HX & Hy & _).
  - vm_compute. reflexivity.
  - exists test. split; [vm_compute; reflexivity|].
    split; [exact HX | exact Hy].
Defined.

(** ** What the evaluator is given *)

Section TargetExtras.
Context {F : Type} `{Scalar F} {G : Type} `{Generator G}.

Abbreviation column' := (@column F).
Abbreviation world' := (@world F G).

Lemma log1p_series_values y (w : world') y' w' xs :
  log1p_series y w = Ok (y', w') ->
  mem w !! s_values y = Some (NumCol xs) ->
  extends w w' /\ s_index y' = s_index y /\
  mem w' !! s_values y' = Some (NumCol (map flog1p xs)).
Proof.
  unfold log1p_series.
  intros (c & w1 & [Hc ->]%load_inv & H1)%mbind_inv Hxs.
  rewrite Hxs in Hc. injection Hc as <-.
  apply mbind_inv in H1 as (a & w2 & (-> & Hm & _)%alloc_inv & H1).
  apply ret_inv in H1 as [-> ->]. simpl.
  split; [by eexists|]. split; [reflexivity|].
  rewrite Hm, lookup_app_r by lia. by rewrite Nat.sub_diag.
Qed.

Lemma setitem_many_valid ks : forall fr features (w : world') fr' w',
  setitem_many fr ks features w = Ok (fr', w') ->
  valid (mem w) (columns fr) -> valid (mem w') (columns fr').
Proof.
  induction ks as [|k ks IH]; intros fr [|xs features] w fr' w'; simpl;
    try (by intros [-> ->]%ret_inv).
  intros (fr1 & w1 & (Hi & Hc & Hm)%setitem_inv & H1)%mbind_inv Hv.
  apply (IH _ _ _ _ _ H1). unfold valid. rewrite Hc.
  apply (dict_set_snd (fun a => a < List.length (mem w1))).
  - eapply Forall_impl; [exact Hv|]. simpl. intros ka Hka.
    rewrite Hm, length_app. simpl. lia.
  - rewrite Hm, length_app. simpl. lia.
Qed.

(** X19. The evaluator compares like with like.  On a table whose [actual]
    column holds numbers, the target of the test partition holds
    log1p(actual) at the positions of the test rows, the order of the test
    labels; the baseline has one prediction per test row; and every column
    of the test matrix holds the rows of the scaled matrix at the same
    positions. *)
Theorem test_target_is_log_of_actual data (w : world') out w' actual :
  table_ok (mem w) data = true ->
  preprocess_and_baseline data w = Ok (out, w') ->
  holds (mem w) data "actual" (NumCol actual) ->
  exists test ys,
    mapM (at_pos (index data)) test = Ok (s_index (out_y_test out)) /\
    mapM (at_pos (index data)) test = Ok (index (out_X_test out)) /\
    mapM (at_pos (map flog1p actual)) test = Ok ys /\
    mem w' !! s_values (out_y_test out) = Some (NumCol ys) /\
    List.length (out_cocomo_pred out) = List.length ys /\
    forall k c, holds (mem w') (out_X out) k c ->
      exists c_test, take_rows test c = Ok c_test /\
                     holds (mem w') (out_X_test out) k c_test.
Proof.
  intros Hok Hrun (a_y & Ha_y & Hactual).
  pose proof Hrun as Hrun'. unfold preprocess_and_baseline in Hrun'.
  apply mbind_inv in Hrun' as (X & w1 & HX & H1).
  apply mbind_inv in H1 as (y & w1' & [Hy ->]%lift_inv & H1).
  apply mbind_inv in H1 as (u & w2 & Himp & H1).
  apply mbind_inv in H1 as (ks & w2' & [-> ->]%numeric_labels_inv & H1).
  apply mbind_inv in H1 as (Xu & w3 & HXu & H1).
  apply mbind_inv in H1 as (sel & w4 & Hsel & H1).
  apply mbind_inv in H1
    as (features & w4' & [-> Hfeat]%numeric_values_inv & H1).
  apply mbind_inv in H1
    as ([scaler scaled] & w4' & [_ ->]%lift_inv & H1).
  apply mbind_inv in H1 as (X' & w5 & HX' & H1).
  apply mbind_inv in H1 as (ylog & w6 & Hylog & H1).
  apply mbind_inv in H1 as ([[[Xtr Xte] ytr] yte] & w7 & Hsplit & H1).
  apply mbind_inv in H1 as (effort & w7' & [-> Heff]%apply_rows_inv & H1).
  apply mbind_inv in H1 as (data' & w8 & (_ & _ & Hm8)%setitem_inv & H1).
  apply mbind_inv in H1 as (preds & w8' & [-> Hloc]%loc_values_inv & H1).
  apply ret_inv in H1 as [-> ->]. simpl.
  (* the target is a column of the table, out of reach of the imputer *)
  unfold getseries in Hy. rewrite Ha_y in Hy. simpl in Hy.
  injection Hy as <-.
  destruct (build_features_inv _ _ _ _ Hok HX)
    as (Hext1 & HiX & _ & HokX & HfX).
  pose proof (table_ok_valid _ _ Hok) as Hvd.
  assert (Hlt : a_y < List.length (mem w)).
  { apply getcol_elem in Ha_y. unfold valid in Hvd.
    rewrite Forall_forall in Hvd. exact (Hvd _ Ha_y). }
  destruct (impute_inv _ _ _ _ Himp) as (_ & Hout2 & _).
  assert (Hy2 : mem w2 !! a_y = Some (NumCol actual)).
  { rewrite Hout2.
    - by apply (extends_lookup w w1).
    - intros Hin. apply list_elem_of_fmap in Hin as (ka & -> & Hka).
      unfold fresh in HfX. rewrite Forall_forall in HfX.
      specialize (HfX ka Hka). lia. }
  pose proof (impute_table_ok _ _ _ _ HokX Himp) as HokX2.
  pose proof (table_ok_valid _ _ HokX2) as HvX2.
  destruct (copy_inv _ _ _ _ HvX2 HXu) as (Hext3 & _).
  pose proof (grows_select _ _ _ _ _ Hsel) as Hext4.
  pose proof (grows_setitem_many _ _ _ _ _ _ HX') as Hext5.
  assert (Hext25 : extends w2 w5).
  { eapply extends_trans; [exact Hext3|].
    exact (extends_trans _ _ _ Hext4 Hext5). }
  destruct (log1p_series_values _ _ _ _ actual Hylog)
    as (Hext6 & Hiy & Hylogv).
  { by apply (extends_lookup w2 w5). }
  pose proof (grows_train_test_split _ _ _ _ _ _ _ Hsplit) as Hext7.
  assert (Hext8 : extends w7 w8) by (by eexists).
  (* the scaled matrix lies in memory before the split *)
  assert (HvX' : valid (mem w5) (columns X')).
  { apply (setitem_many_valid _ _ _ _ _ _ HX').
    apply (valid_extends w2 w4);
      [exact (extends_trans _ _ _ Hext3 Hext4) | exact HvX2]. }
  assert (HiX' : index X' = index data).
  { destruct (setitem_many_inv _ _ _ _ _ _ 0 HX') as [Hi _];
      [lia | apply Forall_forall; intros; lia | congruence]. }
  destruct (train_test_split_rows _ _ _ _ _ _ _ _ _ _ Hsplit)
    as (train & test & _ & _ & Hite & Hyte & _ & Hcols & _ & Htarget).
  destruct (rows_from _ _ _ _ (NumCol (map flog1p actual)) Htarget)
    as (c_test & Htest & Hyv).
  { by apply (extends_lookup w6 w7). }
  simpl in Htest. apply bind_Ok_inv in Htest as (ys & Hys & [= <-]).
  rewrite Hiy in Hyte. simpl in Hyte. rewrite HiX' in Hite.
  exists test, ys.
  split; [exact Hyte|]. split; [exact Hite|]. split; [exact Hys|].
  split; [by apply (extends_lookup w7 w8)|]. split.
  - destruct Hloc as (a & xs & _ & _ & Hpreds).
    rewrite (mapM_length _ _ _ Hpreds), (mapM_length _ _ _ Hys).
    by rewrite (mapM_length _ _ _ Hyte).
  - intros k c (a & Ha & Hc).
    assert (Ha5 : a < List.length (mem w5)).
    { apply getcol_elem in Ha. unfold valid in HvX'.
      rewrite Forall_forall in HvX'. exact (HvX' _ Ha). }
    assert (Hext57 : extends w5 w7) by (by eapply extends_trans).
    assert (Hc7 : mem w7 !! a = Some c).
    { rewrite <- Hc. symmetry. apply extends_lookup_lt; [exact Hext8|].
      apply extends_length in Hext57. lia. }
    destruct (holds_rows _ _ _ _ k c Hcols)
      as (c_te & Hte & (a' & Ha' & Hc')).
    { by exists a. }
    exists c_te. split; [exact Hte|]. exists a'.
    split; [exact Ha' | by apply (extends_lookup w7 w8)].
Qed.

End TargetExtras.

Lemma test_target_of_sample_table :
  exists out w' test ys,
    preprocess_and_baseline sample_data sample_world = Ok (out, w') /\
    mapM (at_pos (map flog1p [Rat 24; Rat 60; Rat 120; Rat 200; Rat 300;
                              Rat 150])) test = Ok ys /\
    mem w' !! s_values (out_y_test out) = Some (NumCol ys).
Proof.
  eexists _, _.
  edestruct (test_target_is_log_of_actual sample_data sample_world)
    as (test & ys & _ & _ & Hys & Hmem & _).
  - vm_compute. reflexivity.
  - vm_compute. reflexivity.
  - exists 17. split; vm_compute; reflexivity.
  - exists test, ys. split; [vm_compute; reflexivity|].
    split; [exact Hys | exact Hmem].
Defined.

(** ** The whole run *)

Section RunFacts.
Context {F : Type} `{Scalar F} {G : Type} `{Generator G}.

Abbreviation column' := (@column F).
Abbreviation world' := (@world F G).

Lemma lift_run {A} (r : result A) (w : world') a :
  r = Ok a -> lift r w = Ok (a, w).
Proof. by intros ->. Qed.

Lemma build_features_runs data (w : world') a vs :
  table_ok (mem w) data = true ->
  getcol (columns data) "dev_mode" = Ok a ->
  mem w !! a = Some (ObjCol vs) ->
  unlabelled (columns data) indicator_labels = true ->
  missing_label (map fst (columns data)) ("loc" :: cost_drivers) = None ->
  missing_label (strings_of vs) categories = None ->
  exists X w', build_features data w = Ok (X, w').
Proof.
  intros Hok Ha Hvs Hun Hall Hcat.
  destruct (build_features_steps data w a vs Hok Ha Hvs Hun Hall)
    as (enc & w1 & lf & w2 & Henc & Hleft & Hvl & Hright).
  rewrite Hcat in Hright. destruct Hright as (r & w3 & Hright & Hext3 & Hvr).
  unfold build_features.
  rewrite (mbind_run _ _ _ _ _ Henc), (mbind_run _ _ _ _ _ Hleft).
  rewrite (mbind_run _ _ _ _ _ Hright).
  apply concat_ok; [by eapply valid_extends | exact Hvr].
Qed.

Lemma first_match_app_l {V} k (n1 n2 : list string) (v1 v2 : list V) x :
  first_match k n1 v1 = Some x ->
  first_match k (n1 ++ n2) (v1 ++ v2) = Some x.
Proof.
  revert v1. induction n1 as [|n n1 IH]; intros [|v v1]; simpl;
    try discriminate.
  destruct (String.eqb n k); [done | apply IH].
Qed.

Lemma first_match_picked (m : list column') cols ks : forall pl k a,
  mapM (fun k => do a <- getcol cols k; Ok (k, a)) ks = Ok pl ->
  k ∈ ks -> getcol cols k = Ok a ->
  first_match k ks (contents m pl) = Some (m !! a).
Proof.
  induction ks as [|k0 ks IH]; intros pl k a; simpl.
  - intros _ Hk. by apply elem_of_nil in Hk.
  - intros (p & Hp & H1)%bind_Ok_inv Hk Ha.
    apply bind_Ok_inv in Hp as (a0 & Ha0 & [= <-]).
    apply bind_Ok_inv in H1 as (pl' & Hpl & [= <-]). simpl.
    destruct (String.eqb_spec k0 k) as [->|Hne].
    + rewrite Ha in Ha0. by injection Ha0 as <-.
    + apply IH; [exact Hpl| |exact Ha].
      apply elem_of_cons in Hk as [->|Hk]; [done | exact Hk].
Qed.

(** [loc] and the drivers reach the feature matrix as they are in the
    table. *)
Lemma build_features_numeric data (w : world') X w' k c :
  table_ok (mem w) data = true ->
  build_features data w = Ok (X, w') ->
  k ∈ "loc" :: cost_drivers ->
  holds (mem w) data k c ->
  holds (mem w') X k c.
Proof.
  intros Hok Hrun Hk (a & Ha & Hc). unfold build_features in Hrun.
  apply mbind_inv in Hrun as (enc & w1 & Henc & H1).
  apply mbind_inv in H1 as (l & w2 & Hl & H1).
  apply mbind_inv in H1 as (r & w3 & Hr & H1).
  apply get_dummies_inv in Henc
    as (_ & _ & _ & _ & Hext1 & _ & _ & _ & Hok1 & _); [|exact Hok].
  pose proof (table_ok_valid _ _ Hok) as Hv.
  apply select_inv in Hl
    as (pl & Hpl & _ & Hnl & Hext2 & Hcl & Hvl & _);
    [|by eapply valid_extends].
  apply select_inv in Hr
    as (pr & Hpr & _ & Hnr & Hext3 & Hcr & Hvr & _);
    [|exact (valid_extends _ _ _ Hext2 (table_ok_valid _ _ Hok1))].
  apply concat_inv in H1 as (_ & _ & Hn & Hcont & _ & _);
    [|by eapply valid_extends|exact Hvr].
  assert (Hfirst : first_match k (map fst (columns X))
                     (contents (mem w') (columns X)) = Some (Some c)).
  { rewrite Hn, Hcont. apply first_match_app_l.
    rewrite (contents_extends w2 w3 _ Hext3 Hvl), Hcl, Hnl.
    destruct (pick_inv _ _ _ Hpl) as [_ Hsub].
    rewrite (contents_extends w w1 pl Hext1) by (by eapply valid_sub).
    rewrite (first_match_picked _ _ _ _ k a Hpl Hk Ha). by rewrite Hc. }
  apply first_getcol in Hfirst as (a' & Ha' & Hm). by exists a'.
Qed.

Lemma copy_columns_addrs cols : forall (w : world') cols' w',
  mapMM copy_column cols w = Ok (cols', w') ->
  map snd cols' = seq (List.length (mem w)) (List.length cols).
Proof.
  induction cols as [|ka cols IH]; intros w cols' w'; simpl.
  - by intros [-> ->]%ret_inv.
  - intros (ka' & w1 & Hc & H1)%mbind_inv.
    apply mbind_inv in H1 as (rest & w2 & Hrest & H1).
    apply ret_inv in H1 as [-> ->].
    apply copy_column_inv in Hc as (c & _ & Hm1 & ->).
    simpl. f_equal. rewrite (IH _ _ _ Hrest), Hm1, length_app. simpl.
    by rewrite Nat.add_1_r.
Qed.

(** The columns of the feature matrix lie in buffers of their own. *)
Lemma build_features_addrs data (w : world') X w' :
  build_features data w = Ok (X, w') -> NoDup (map snd (columns X)).
Proof.
  unfold build_features.
  intros (enc & w1 & _ & H1)%mbind_inv.
  apply mbind_inv in H1 as (l & w2 & _ & H1).
  apply mbind_inv in H1 as (r & w3 & _ & H1).
  unfold concat in H1. apply mbind_inv in H1 as (cols & w4 & Hc & H1).
  apply ret_inv in H1 as [-> ->]. simpl.
  rewrite (copy_columns_addrs _ _ _ _ Hc). apply NoDup_seq.
Qed.

(** Every column of the feature matrix is a numeric column of the table or
    an indicator. *)
Lemma feature_columns data (w : world') X w1 a vs :
  table_ok (mem w) data = true ->
  getcol (columns data) "dev_mode" = Ok a ->
  mem w !! a = Some (ObjCol vs) ->
  unlabelled (columns data) indicator_labels = true ->
  Forall (fun k => exists xs, holds (mem w) data k (NumCol xs) /\
                              finite_feature xs = true)
         ("loc" :: cost_drivers) ->
  build_features data w = Ok (X, w1) ->
  Forall (fun ka =>
            (exists xs, mem w1 !! snd ka = Some (NumCol xs) /\
                        finite_feature xs = true /\
                        List.length xs = List.length (index data)) \/
            (exists bs, mem w1 !! snd ka = Some (BoolCol bs)))
         (columns X).
Proof.
  intros Hok Ha Hvs Hun Hnum HX.
  destruct (build_features_inv _ _ _ _ Hok HX) as (_ & _ & HnX & _ & _).
  assert (Hnd : NoDup (map fst (columns X))).
  { rewrite HnX. apply feature_labels_NoDup. }
  apply Forall_forall. intros [k a0] Hka. simpl.
  assert (Hk : k ∈ map fst (columns X)).
  { apply list_elem_of_fmap. by exists (k, a0). }
  assert (Hhere : forall c, holds (mem w1) X k c -> mem w1 !! a0 = Some c).
  { intros c (a' & Ha' & Hc).
    rewrite (getcol_unique _ _ _ Hnd Hka) in Ha'. by injection Ha' as <-. }
  rewrite HnX in Hk. apply elem_of_app in Hk as [Hk|Hk].
  - left. rewrite Forall_forall in Hnum.
    destruct (Hnum k Hk) as (xs & Hxs & Hfin).
    exists xs. split; [|split; [exact Hfin|]].
    + apply Hhere. by eapply build_features_numeric.
    + destruct Hxs as (a' & Ha' & Hc').
      apply cols_ok_Forall in Hok. rewrite Forall_forall in Hok.
      destruct (Hok _ (getcol_elem _ _ _ Ha')) as (c & Hc & Hl).
      simpl in Hc. rewrite Hc' in Hc. injection Hc as <-. exact Hl.
  - right.
    assert (Hl : exists l, k = "mode" +:+ "_" +:+ l).
    { destruct (indicator_labels_elem k Hk) as [-> | [-> | ->]];
        by eexists. }
    destruct Hl as [l Hl]. eexists. apply Hhere.
    by apply (build_features_indicators data w X w1 a vs k Hok Ha Hvs Hun HX l).
Qed.

Lemma numeric_labels_run cols : forall (w : world'),
  valid (mem w) cols ->
  numeric_labels cols w =
    Ok (map fst (List.filter (is_numeric_at (mem w)) cols), w).
Proof.
  induction cols as [|[k a] cols IH]; intros w Hv; [reflexivity|].
  inversion Hv as [|? ? Ha Hv']; subst. simpl in Ha.
  destruct (lookup_lt_is_Some_2 _ _ Ha) as [c Hc].
  cbn [numeric_labels]. unfold mbind at 1. unfold load at 1. rewrite Hc.
  unfold mbind at 1. rewrite (IH w Hv'). unfold ret.
  assert (Hn : is_numeric_at (mem w) (k, a) = is_numeric c).
  { unfold is_numeric_at. simpl. by rewrite Hc. }
  cbn [List.filter]. rewrite Hn. by destruct (is_numeric c).
Qed.

Lemma select_sub_run fr sub (w : world') :
  NoDup (map fst (columns fr)) -> Forall (fun ka => ka ∈ columns fr) sub ->
  valid (mem w) (columns fr) ->
  exists fr' w', select fr (map fst sub) w = Ok (fr', w').
Proof.
  intros Hnd Hsub Hv.
  destruct (copy_columns_ok sub w) as (cols & w' & Hc);
    [by eapply valid_sub|].
  eexists _, _. unfold select. rewrite (pick_sub _ _ Hnd Hsub).
  unfold lift at 1. unfold mbind at 1.
  rewrite (mbind_run _ _ _ _ _ Hc). reflexivity.
Qed.

Lemma numeric_values_run cols : forall (w : world'),
  Forall (fun oc => exists xs, oc = Some (NumCol xs))
         (contents (mem w) cols) ->
  exists features,
    mapMM (fun ka => numeric_values (snd ka)) cols w = Ok (features, w).
Proof.
  induction cols as [|ka cols IH]; intros w Hall; [by eexists|].
  unfold contents in Hall. cbn [map] in Hall.
  inversion Hall as [|? ? [xs Hxs] Hrest]; subst.
  destruct (IH w Hrest) as [features Hf].
  exists (xs :: features). cbn [mapMM].
  unfold mbind at 1. unfold numeric_values at 1.
  unfold mbind at 1. unfold load at 1. rewrite Hxs.
  unfold ret at 1. unfold mbind at 1. by rewrite Hf.
Qed.

Lemma fit_transform_runs (features : list (list F)) :
  features <> [] ->
  Forall (fun xs => xs <> [] /\ existsb fisinf xs = false) features ->
  exists s scaled, fit_transform features = Ok (s, scaled).
Proof.
  intros Hne Hall. destruct features as [|xs features]; [done|].
  unfold fit_transform, check_array.
  inversion Hall as [|? ? [Hx _] _]; subst.
  destruct xs as [|x xs]; [done|]. simpl Nat.eqb. cbv iota.
  assert (Hinf : existsb (existsb fisinf) ((x :: xs) :: features) = false).
  { apply not_true_is_false. intros (l & Hl & Hinf)%existsb_exists.
    rewrite Forall_forall in Hall. apply list_elem_of_In in Hl.
    destruct (Hall l Hl) as [_ Hfin]. congruence. }
  rewrite Hinf. by eexists _, _.
Qed.

Lemma numeric_part_elem (m : list column') cols xs :
  xs ∈ numeric_part (contents m cols) ->
  exists ka, ka ∈ cols /\ m !! snd ka = Some (NumCol xs).
Proof.
  induction cols as [|ka cols IH]; [intros Hx; by apply elem_of_nil in Hx|].
  rewrite numeric_part_cons.
  assert (Hrest : xs ∈ numeric_part (contents m cols) ->
                  exists ka', ka' ∈ ka :: cols /\
                              m !! snd ka' = Some (NumCol xs)).
  { intros Hx. destruct (IH Hx) as (ka' & Hin & Hm).
    exists ka'. split; [by right | exact Hm]. }
  destruct (m !! snd ka) as [[ys|ys|ys]|] eqn:Hka; try exact Hrest.
  intros [->|Hx]%elem_of_cons; [|by apply Hrest].
  exists ka. split; [by left | exact Hka].
Qed.

Lemma numeric_part_elem_of (m : list column') cols ka xs :
  ka ∈ cols -> m !! snd ka = Some (NumCol xs) ->
  xs ∈ numeric_part (contents m cols).
Proof.
  induction cols as [|ka0 cols IH]; [intros Hk; by apply elem_of_nil in Hk|].
  intros Hk Hm. rewrite numeric_part_cons.
  apply elem_of_cons in Hk as [<-|Hk].
  - rewrite Hm. by left.
  - destruct (m !! snd ka0) as [[ys|ys|ys]|]; try right; by apply IH.
Qed.

Lemma setitem_many_run ks : forall fr features (w : world'),
  exists fr' w', setitem_many fr ks features w = Ok (fr', w').
Proof.
  induction ks as [|k ks IH]; intros fr [|xs features] w; simpl;
    try (by eexists _, _).
  assert (Hs : exists fr1 w1, setitem fr k (NumCol xs) w = Ok (fr1, w1))
    by (by eexists _, _).
  destruct Hs as (fr1 & w1 & Hs).
  destruct (IH fr1 features w1) as (fr' & w' & Hrest).
  exists fr', w'. by rewrite (mbind_run _ _ _ _ _ Hs).
Qed.

Lemma setitem_many_table_ok ks : forall fr features (w : world') fr' w',
  setitem_many fr ks features w = Ok (fr', w') ->
  table_ok (mem w) fr = true ->
  Forall (fun xs => List.length xs = List.length (index fr)) features ->
  table_ok (mem w') fr' = true.
Proof.
  induction ks as [|k ks IH]; intros fr [|xs features] w fr' w'; simpl;
    try (by intros [-> ->]%ret_inv).
  intros (fr1 & w1 & (Hi & Hc & Hm)%setitem_inv & H1)%mbind_inv Hok Hlen.
  inversion Hlen as [|? ? Hx Hlen']; subst.
  apply (IH _ _ _ _ _ H1); [|by rewrite Hi].
  unfold table_ok. apply cols_ok_Forall. rewrite Hc, Hi.
  apply (dict_set_snd
           (fun a => exists c, mem w1 !! a = Some c /\
                               col_length c = List.length (index fr))).
  - apply cols_ok_Forall in Hok. eapply Forall_impl; [exact Hok|]. simpl.
    intros ka (c & Hc' & Hl). exists c. split; [|exact Hl].
    rewrite Hm. by apply lookup_app_l_Some.
  - exists (NumCol xs). split; [|exact Hx].
    rewrite Hm, lookup_app_r by lia. by rewrite Nat.sub_diag.
Qed.

End RunFacts.

Section RunClaims.
Context {F : Type} `{Scalar F} {G : Type} `{Generator G}.

Abbreviation column' := (@column F).
Abbreviation world' := (@world F G).

Hypothesis permutation_law :
  forall (g : G) n, Permutation (fst (permutation g n)) (seq 0 n).

Lemma imputed_finite (xs : list F) :
  finite_feature xs = true ->
  existsb fisinf (map (fun x => if fisnan x then median xs else x) xs) = false.
Proof.
  unfold finite_feature. intros Hfin. apply negb_true_iff in Hfin.
  simpl in Hfin. apply orb_false_iff in Hfin as [Hmed Hxs].
  apply not_true_is_false. intros (y & Hy & Hinf)%existsb_exists.
  apply in_map_iff in Hy as (x & <- & Hx).
  destruct (fisnan x); [congruence|].
  assert (Hex : existsb fisinf xs = true)
    by (apply existsb_exists; by exists x).
  congruence.
Qed.

Lemma labels_present (cols : list (string * addr)) ks :
  Forall (fun k => exists a, getcol cols k = Ok a) ks ->
  missing_label (map fst cols) ks = None.
Proof.
  unfold missing_label. induction 1 as [|k ks [a Ha] _ IH]; [reflexivity|].
  simpl. pose proof (getcol_outcome cols k) as Hk.
  destruct (existsb (String.eqb k) (map fst cols)); [exact IH|].
  congruence.
Qed.

(** X21. Steps 2 and 3 of the script, lines 29 to 80, run to completion on
    every well-formed table: one laid out in memory under distinct labels,
    of 2 to 3000 rows, whose [dev_mode] column holds strings among which
    each of the three categories occurs, whose [loc] and cost-driver columns
    hold numbers without infinite entry or median, whose [actual] column
    holds numbers, and which has no column named like an indicator.  The
    test partition then has a fifth of the rows, rounded up, the train
    partition the others, and the targets as many entries as the feature
    tables have rows. *)
Theorem preprocessing_runs data (w : world') a vs actual :
  table_ok (mem w) data = true ->
  NoDup (map fst (columns data)) ->
  2 <= List.length (index data) <= 30 * 100 ->
  getcol (columns data) "dev_mode" = Ok a ->
  mem w !! a = Some (ObjCol vs) ->
  missing_label (strings_of vs) categories = None ->
  unlabelled (columns data) indicator_labels = true ->
  Forall (fun k => exists xs, holds (mem w) data k (NumCol xs) /\
                              finite_feature xs = true)
         ("loc" :: cost_drivers) ->
  holds (mem w) data "actual" (NumCol actual) ->
  exists X_train X_test y_train y_test w',
    preprocess_and_split data w =
      Ok ((X_train, X_test, y_train, y_test), w') /\
    List.length (index X_test) = (List.length (index data) + 4) / 5 /\
    List.length (index X_train) =
      List.length (index data) - (List.length (index data) + 4) / 5 /\
    List.length (s_index y_test) = List.length (index X_test) /\
    List.length (s_index y_train) = List.length (index X_train).
Proof.
  intros Hok Hnd Hn Ha Hvs Hcat Hun Hnum (a_y & Ha_y & Hactual).
  pose proof (table_ok_valid _ _ Hok) as Hvd.
  (* the feature matrix *)
  assert (Hall : missing_label (map fst (columns data))
                   ("loc" :: cost_drivers) = None).
  { apply labels_present. eapply Forall_impl; [exact Hnum|]. simpl.
    intros k (xs & (a_k & Ha_k & _) & _). by exists a_k. }
  destruct (build_features_runs data w a vs Hok Ha Hvs Hun Hall Hcat)
    as (X & w1 & HX).
  destruct (build_features_inv _ _ _ _ Hok HX)
    as (Hext1 & HiX & HnX & HokX & HfX).
  pose proof (build_features_addrs _ _ _ _ HX) as HndX.
  pose proof (feature_columns data w X w1 a vs Hok Ha Hvs Hun Hnum HX)
    as HcolsX.
  assert (HndlX : NoDup (map fst (columns X))).
  { rewrite HnX. apply feature_labels_NoDup. }
  assert (Hy : getseries data "actual" =
               Ok {| s_index := index data; s_values := a_y |}).
  { unfold getseries. by rewrite Ha_y. }
  (* the imputer *)
  destruct (impute_columns_run (columns X) w1 HndX)
    as (w2 & Himp & Hcols2 & Hout2 & _).
  { eapply Forall_impl; [exact HcolsX|]. simpl.
    intros ka [(xs & Hxs & _)|(bs & Hbs)]; eexists _, _;
      (split; [eassumption | reflexivity]). }
  pose proof (impute_table_ok _ _ _ _ HokX Himp) as HokX2.
  pose proof (table_ok_valid _ _ HokX2) as HvX2.
  pose proof (numeric_labels_run (columns X) w2 HvX2) as Hks.
  (* the copy and the selection *)
  destruct (copy_columns_ok (columns X) w2 HvX2) as (cu & w3 & Hcu).
  assert (HXu : copy X w2 = Ok ({| index := index X; columns := cu |}, w3)).
  { unfold copy. by rewrite (mbind_run _ _ _ _ _ Hcu). }
  destruct (copy_inv _ _ _ _ HvX2 HXu) as (Hext3 & _).
  pose proof (valid_extends _ _ _ Hext3 HvX2) as HvX3.
  destruct (select_sub_run X (List.filter (is_numeric_at (mem w2)) (columns X))
              w3 HndlX (filter_sub _ _) HvX3) as (sel & w4 & Hsel).
  destruct (select_inv _ _ _ _ _ HvX3 Hsel)
    as (picked & Hpick & _ & _ & Hext4 & Hcsel & _ & _).
  rewrite (pick_sub _ _ HndlX (filter_sub _ _)) in Hpick.
  injection Hpick as <-.
  destruct (numeric_values_run (columns sel) w4) as [features Hfeat].
  { rewrite Hcsel. unfold contents. apply Forall_fmap, Forall_forall.
    intros ka Hka. apply list_elem_of_In, filter_In in Hka as [_ Hnum'].
    unfold is_numeric_at in Hnum'. simpl.
    destruct (mem w2 !! snd ka) as [[xs|xs|xs]|] eqn:Hka2; try discriminate.
    exists xs. by apply (extends_lookup w2 w3). }
  destruct (numeric_values_inv _ _ _ _ Hfeat) as [_ Hfeatc].
  assert (Hfeatures :
    numeric_part (contents (mem w2) (columns X)) = features).
  { rewrite <- numeric_part_filter.
    rewrite <- (contents_extends w2 w3) by
      (exact Hext3 || (eapply valid_sub; [exact HvX2 | apply filter_sub])).
    by rewrite <- Hcsel, Hfeatc, numeric_part_floats. }
  (* the features are fit for the scaler *)
  assert (Hpost : forall ka xs,
    ka ∈ columns X -> mem w2 !! snd ka = Some (NumCol xs) ->
    xs <> [] /\ existsb fisinf xs = false /\
    List.length xs = List.length (index data)).
  { intros ka xs Hka Hxs. rewrite Forall_forall in Hcols2, HcolsX.
    destruct (Hcols2 ka Hka) as (c & c' & Hc & Hc' & Hw2).
    rewrite Hxs in Hw2. injection Hw2 as <-.
    destruct (HcolsX ka Hka) as [(xs0 & Hxs0 & Hfin & Hlen)|(bs & Hbs)].
    - rewrite Hxs0 in Hc. injection Hc as <-.
      simpl in Hc'. injection Hc' as <-.
      split; [|split; [by apply imputed_finite|]].
      + intros Hnil. apply (f_equal (@List.length F)) in Hnil.
        rewrite length_map in Hnil. simpl in Hnil. lia.
      + by rewrite length_map.
    - rewrite Hbs in Hc. injection Hc as <-. discriminate. }
  assert (Hfin : Forall (fun xs => xs <> [] /\ existsb fisinf xs = false)
                        features /\
                 Forall (fun xs => List.length xs = List.length (index data))
                        features).
  { rewrite <- Hfeatures. split; apply Forall_forall; intros xs Hx;
      apply numeric_part_elem in Hx as (ka & Hka & Hm);
      destruct (Hpost ka xs Hka Hm) as (? & ? & ?); [by split | done]. }
  assert (Hne : features <> []).
  { destruct (proj1 (Forall_cons _ _ _) Hnum) as [(xs & Hloc & _) _].
    destruct (build_features_numeric data w X w1 "loc" (NumCol xs) Hok HX)
      as (a_l & Ha_l & Hxs); [by left | exact Hloc|].
    apply getcol_elem in Ha_l. rewrite Forall_forall in Hcols2.
    destruct (Hcols2 _ Ha_l) as (c & c' & Hc & Hc' & Hw2). simpl in *.
    rewrite Hxs in Hc. injection Hc as <-. simpl in Hc'. injection Hc' as <-.
    pose proof (numeric_part_elem_of (mem w2) (columns X) ("loc", a_l) _
                  Ha_l Hw2) as Hin.
    rewrite Hfeatures in Hin. intros Hnil. rewrite Hnil in Hin.
    by apply elem_of_nil in Hin. }
  destruct (fit_transform_runs features Hne (proj1 Hfin))
    as (scaler & scaled & Hfit).
  destruct (fit_transform_inv _ _ _ Hfit) as [_ Hsc].
  (* the scaled matrix and the target *)
  destruct (setitem_many_run
              (map fst (List.filter (is_numeric_at (mem w2)) (columns X)))
              X scaled w4) as (X' & w5 & HX').
  pose proof (grows_setitem_many _ _ _ _ _ _ HX') as Hext5.
  assert (HiX' : index X' = index data).
  { destruct (setitem_many_inv _ _ _ _ _ _ 0 HX') as [Hi _];
      [lia | apply Forall_forall; intros; lia | congruence]. }
  assert (Hext24 : extends w2 w4) by (by eapply extends_trans).
  assert (HokX' : table_ok (mem w5) X' = true).
  { apply (setitem_many_table_ok _ _ _ _ _ _ HX').
    - by apply (table_ok_extends X w2 w4).
    - rewrite Hsc, transform_fit. apply Forall_fmap.
      eapply Forall_impl; [exact (proj2 Hfin)|]. simpl. intros xs Hl.
      unfold transform_column. by rewrite length_map, HiX. }
  assert (Hlt : a_y < List.length (mem w)).
  { apply getcol_elem in Ha_y. unfold valid in Hvd.
    rewrite Forall_forall in Hvd. exact (Hvd _ Ha_y). }
  assert (Hbelow2 : forall b, b < List.length (mem w) ->
                              mem w2 !! b = mem w !! b).
  { intros b Hb. rewrite Hout2.
    - by apply extends_lookup_lt.
    - intros Hin. apply list_elem_of_fmap in Hin as (ka & -> & Hka).
      unfold fresh in HfX. rewrite Forall_forall in HfX.
      specialize (HfX ka Hka). lia. }
  assert (Hext25 : extends w2 w5) by (by eapply extends_trans).
  assert (Hy5 : mem w5 !! a_y = Some (NumCol actual)).
  { apply (extends_lookup w2 w5); [exact Hext25|].
    by rewrite (Hbelow2 a_y Hlt). }
  set (ylog := {| s_index := index data;
                  s_values := List.length (mem w5) |}).
  set (w6 := {| mem := mem w5 ++ [NumCol (map flog1p actual)];
                np_random := np_random w5 |}).
  assert (Hylog : log1p_series {| s_index := index data; s_values := a_y |}
                    w5 = Ok (ylog, w6)).
  { unfold log1p_series, mbind, load. simpl. by rewrite Hy5. }
  assert (Hext6 : extends w5 w6) by (by eexists).
  assert (Hlactual : List.length actual = List.length (index data)).
  { apply cols_ok_Forall in Hok. rewrite Forall_forall in Hok.
    destruct (Hok _ (getcol_elem _ _ _ Ha_y)) as (c & Hc & Hl).
    simpl in Hc. rewrite Hactual in Hc. by injection Hc as <-. }
  (* the split *)
  destruct (sizes_of_a_fifth _ Hn) as [Hsizes Hle].
  destruct (train_test_split_runs permutation_law X' ylog test_size_0_2 w6
              42%Z (List.length (index data) - (List.length (index data) + 4) / 5)
              ((List.length (index data) + 4) / 5))
    as (Xtr & Xte & ytr & yte & w7 & Hsplit & _ & Hlte & Hltr & Hlyte &
        Hlytr & _).
  { by rewrite HiX'. }
  { rewrite HiX'. lia. }
  { by rewrite HiX'. }
  { by apply (table_ok_extends X' w5 w6). }
  { unfold series_ok, ylog, w6. simpl.
    rewrite lookup_app_r by lia. rewrite Nat.sub_diag. simpl.
    rewrite andb_true_r. apply Nat.eqb_eq. by rewrite length_map. }
  exists Xtr, Xte, ytr, yte, w7. split; [|split; [|split; [|split]]].
  - unfold preprocess_and_split.
    rewrite (mbind_run _ _ _ _ _ HX).
    rewrite (mbind_run _ _ _ _ _ (lift_run _ _ _ Hy)).
    rewrite (mbind_run _ _ _ _ _ Himp).
    rewrite (mbind_run _ _ _ _ _ Hks).
    rewrite (mbind_run _ _ _ _ _ HXu).
    rewrite (mbind_run _ _ _ _ _ Hsel).
    rewrite (mbind_run _ _ _ _ _ Hfeat).
    rewrite (mbind_run _ _ _ _ _ (lift_run _ _ _ Hfit)). cbv beta iota.
    rewrite (mbind_run _ _ _ _ _ HX').
    rewrite (mbind_run _ _ _ _ _ Hylog).
    exact Hsplit.
  - exact Hlte.
  - exact Hltr.
  - by rewrite Hlyte, Hlte.
  - by rewrite Hlytr, Hltr.
Qed.

End RunClaims.

Lemma preprocessing_of_sample_table :
  exists X_train X_test y_train y_test w',
    preprocess_and_split sample_data sample_world =
      Ok ((X_train, X_test, y_train, y_test), w') /\
    List.length (index X_test) = 2 /\
    List.length (index X_train) = 4 /\
    List.length (s_index y_test) = List.length (index X_test) /\
    List.length (s_index y_train) = List.length (index X_train).
Proof.
  apply (preprocessing_runs reversing_law sample_data sample_world 16
           [Some "organic"; Some "semidetached"; Some "embedded";
            Some "other"; None; Some "organic"]
           [Rat 24; Rat 60; Rat 120; Rat 200; Rat 300; Rat 150]).
  - vm_compute. reflexivity.
  - apply (bool_decide_unpack _). vm_compute. reflexivity.
  - simpl. lia.
  - vm_compute. reflexivity.
  - reflexivity.
  - vm_compute. reflexivity.
  - vm_compute. reflexivity.
  - repeat constructor;
      (eexists; split;
       [eexists; split; vm_compute; reflexivity | vm_compute; reflexivity]).
  - exists 17. split; vm_compute; reflexivity.
Defined.
